(** * Agent Mail test server (docker/agent-mail/server.py)

    A shallow embedding of the coordination logic of the server: the SQLite
    tables as lists of rows in rowid order, every tool handler as a function
    from a store and an argument bag to either an exception or a result and a
    new store, and the JSON-RPC endpoint that maps exceptions to error codes.

    Conventions of the embedding.
    - Timestamps.  The server stores [datetime.now(timezone.utc).isoformat()]
      as TEXT and compares it with [<] and [>].  For four-digit years these
      strings are ordered as the instants they denote (a value without
      microseconds ends its seconds with [+], which sorts before [.]), so a
      timestamp is the integer number of microseconds since the epoch and the
      TEXT comparison is the comparison on [Z].
    - Argument bags.  [args: dict[str, Any]] is the record [Args]: one
      optional field per key the handlers read, at the type the handler
      expects.  [None] stands for a missing key; a JSON null and a value of
      another type are outside the model.
    - External collaborators (the clock, the random name generator, the FTS5
      index) are the fields of [Env].  [now_at env i] is the value of the
      [i]-th clock reading made during a call.
    - A handler that raises leaves its transaction uncommitted ([get_db]
      commits only after the body returned), so an exception carries no store
      and the caller keeps the old one. *)

From Stdlib Require Import ZArith List Bool String Ascii Lia.
Import ListNotations.

Local Open Scope string_scope.
Local Open Scope Z_scope.
Local Open Scope list_scope.

(** ** Strings *)

Definition str_append (a b : string) : string := String.append a b.
Infix "+++" := str_append (at level 60, right associativity).

(** [s.replace(a, b)] for one-character [a] and [b]. *)
Fixpoint replace (a b : ascii) (s : string) : string :=
  match s with
  | EmptyString => EmptyString
  | String c s' => String (if Ascii.eqb c a then b else c) (replace a b s')
  end.

Definition is_upper (c : ascii) : bool :=
  let n := N_of_ascii c in (65 <=? n)%N && (n <=? 90)%N.

Definition is_lower (c : ascii) : bool :=
  let n := N_of_ascii c in (97 <=? n)%N && (n <=? 122)%N.

Definition is_digit (c : ascii) : bool :=
  let n := N_of_ascii c in (48 <=? n)%N && (n <=? 57)%N.

(** ASCII case folding, as [sqlite3Tolower] and as [str.lower] on ASCII. *)
Definition to_lower (c : ascii) : ascii :=
  if is_upper c then ascii_of_N (N_of_ascii c + 32) else c.

Fixpoint str_filter (f : ascii -> bool) (s : string) : string :=
  match s with
  | EmptyString => EmptyString
  | String c s' => if f c then String c (str_filter f s') else str_filter f s'
  end.

Fixpoint str_map (f : ascii -> ascii) (s : string) : string :=
  match s with
  | EmptyString => EmptyString
  | String c s' => String (f c) (str_map f s')
  end.

(** The SQL operator [s LIKE pat] of SQLite without an ESCAPE clause: [%]
    matches any run of characters, [_] exactly one character, every other
    character matches itself up to ASCII case. *)
Fixpoint like (pat s : string) : bool :=
  match pat with
  | EmptyString => match s with EmptyString => true | String _ _ => false end
  | String c pat' =>
      if Ascii.eqb c "%"%char then
        (fix star (s : string) : bool :=
           like pat' s
           || match s with
              | EmptyString => false
              | String _ s' => star s'
              end) s
      else
        match s with
        | EmptyString => false
        | String d s' =>
            (Ascii.eqb c "_"%char || Ascii.eqb (to_lower c) (to_lower d))
            && like pat' s'
        end
  end.

(** ** Python truthiness of the argument values *)

Definition truthy_str (o : option string) : bool :=
  match o with
  | Some s => negb (s =? "")%string
  | None => false
  end.

Definition truthy_list {A : Type} (o : option (list A)) : bool :=
  match o with
  | Some (_ :: _) => true
  | _ => false
  end.

Definition truthy_int (o : option Z) : bool :=
  match o with
  | Some z => negb (z =? 0)
  | None => false
  end.

Definition get {A : Type} (o : option A) (default : A) : A :=
  match o with
  | Some a => a
  | None => default
  end.

(** ** Tables *)

Record Project := mkProject {
  p_id : Z;
  p_slug : string;
  p_human_key : string;
  p_created_at : Z
}.

Record Agent := mkAgent {
  a_id : Z;
  a_name : string;
  a_program : string;
  a_model : string;
  a_task_description : string;
  a_inception_ts : Z;
  a_last_active_ts : Z;
  a_project_id : Z
}.

Record Message := mkMessage {
  m_id : Z;
  m_project_id : Z;
  m_sender_id : Z;
  m_subject : string;
  m_body_md : string;
  m_thread_id : option string;
  m_importance : string;
  m_ack_required : Z;
  m_kind : string;
  m_created_ts : Z
}.

Record Recipient := mkRecipient {
  mr_message_id : Z;
  mr_agent_id : Z;
  mr_read_at : option Z;
  mr_acked_at : option Z
}.

Record FileReservation := mkFileReservation {
  fr_id : Z;
  fr_project_id : Z;
  fr_agent_id : Z;
  fr_path_pattern : string;
  fr_exclusive : Z;
  fr_reason : string;
  fr_created_ts : Z;
  fr_expires_ts : Z
}.

(** The database.  The [seq_*] fields are the AUTOINCREMENT counters
    (table [sqlite_sequence]): the largest rowid ever given out. *)
Record Store := mkStore {
  projects : list Project;
  agents : list Agent;
  messages : list Message;
  message_recipients : list Recipient;
  file_reservations : list FileReservation;
  seq_projects : Z;
  seq_agents : Z;
  seq_messages : Z;
  seq_file_reservations : Z
}.

Definition empty_store : Store :=
  mkStore [] [] [] [] [] 0 0 0 0.

(** ** Exceptions and the error monad *)

Inductive exn :=
| ValueError (msg : string)
| IntegrityError (msg : string)
| OperationalError (msg : string).

Definition result (A : Type) : Type := (exn + A)%type.

Definition ret {A : Type} (a : A) : result A := inr a.
Definition raise {A : Type} (e : exn) : result A := inl e.

Definition bind {A B : Type} (m : result A) (k : A -> result B) : result B :=
  match m with
  | inl e => inl e
  | inr a => k a
  end.

Notation "x <- m ;; k" := (bind m (fun x => k))
  (at level 61, m at next level, right associativity).
Notation "m ;;; k" := (bind m (fun _ => k))
  (at level 61, right associativity).

(** [if not cond: raise e]. *)
Definition require (cond : bool) (e : exn) : result unit :=
  if cond then ret tt else raise e.

(** [row = ....fetchone(); if not row: raise e]. *)
Definition fetch_or_raise {A : Type} (row : option A) (e : exn) : result A :=
  match row with
  | Some a => ret a
  | None => raise e
  end.

(** ** External collaborators *)

Record Env := mkEnv {
  now_at : nat -> Z;
  agent_name_at : nat -> string;
  uuid4_hex4 : string;
  fts5_match : list Message -> string -> option (list Z)
}.

(** ** Argument bag *)

Record Args := mkArgs {
  human_key : option string;
  project_key : option string;
  program : option string;
  model : option string;
  name : option string;
  task_description : option string;
  sender_name : option string;
  to : option (list string);
  subject : option string;
  body_md : option string;
  thread_id : option string;
  importance : option string;
  ack_required : option bool;
  agent_name : option string;
  limit : option Z;
  include_bodies : option bool;
  urgent_only : option bool;
  since_ts : option Z;
  message_id : option Z;
  include_examples : option bool;
  paths : option (list string);
  ttl_seconds : option Z;
  exclusive : option bool;
  reason : option string;
  file_reservation_ids : option (list Z);
  query : option string
}.

Definition no_args : Args :=
  mkArgs None None None None None None None None None None None None None
         None None None None None None None None None None None None None.

(** ** Result values of the handlers *)

Record SendResult := mkSendResult {
  sr_id : Z;
  sr_subject : string;
  sent_to : list string;
  sr_created_ts : Z
}.

Record InboxMessage := mkInboxMessage {
  im_id : Z;
  im_subject : string;
  im_from : string;
  im_created_ts : Z;
  im_importance : string;
  im_ack_required : bool;
  im_thread_id : option string;
  im_kind : string;
  im_body_md : option string
}.

Record MarkResult := mkMarkResult {
  mk_message_id : Z;
  mk_timestamp : Z
}.

Record ThreadExample := mkThreadExample {
  te_id : Z;
  te_subject : string;
  te_from : string;
  te_body_md : string
}.

Record ThreadSummary := mkThreadSummary {
  ts_thread_id : string;
  ts_participants : list string;
  ts_key_points : list string;
  ts_action_items : list string;
  ts_total_messages : Z;
  ts_examples : option (list ThreadExample)
}.

Record Granted := mkGranted {
  g_id : Z;
  g_path_pattern : string;
  g_exclusive : bool;
  g_reason : string;
  g_expires_ts : Z
}.

Record Conflict := mkConflict {
  c_path : string;
  c_holders : list string
}.

Record ReserveResult := mkReserveResult {
  granted : list Granted;
  conflicts : list Conflict
}.

Record ReleaseResult := mkReleaseResult {
  released : Z;
  released_at : Z
}.

Record SearchHit := mkSearchHit {
  sh_id : Z;
  sh_subject : string;
  sh_from : string;
  sh_created_ts : Z;
  sh_importance : string;
  sh_thread_id : option string
}.

(** ** Identity store *)

(** [generate_slug], on ASCII keys. *)
Definition is_slug_char (c : ascii) : bool :=
  is_upper c || is_lower c || is_digit c || Ascii.eqb c "_"%char.

Definition generate_slug (human_key : string) : string :=
  let slug := replace " "%char "_"%char
                (replace "\"%char "_"%char
                   (replace "/"%char "_"%char human_key)) in
  let slug := str_filter is_slug_char slug in
  String.substring 0 64 (str_map to_lower slug).

(** [SELECT * FROM projects WHERE human_key = ?], first row. *)
Definition select_project (st : Store) (key : string) : option Project :=
  find (fun p => (p_human_key p =? key)%string) (projects st).

(** [SELECT * FROM agents WHERE name = ? AND project_id = ?], first row. *)
Definition select_agent (st : Store) (nm : string) (pid : Z) : option Agent :=
  find (fun a => (a_name a =? nm)%string && (a_project_id a =? pid)) (agents st).

Definition tool_ensure_project (env : Env) (st : Store) (args : Args)
  : result (Project * Store) :=
  require (truthy_str (human_key args)) (ValueError "human_key is required") ;;;
  let key := get (human_key args) "" in
  let slug := generate_slug key in
  match select_project st key with
  | Some row => ret (row, st)
  | None =>
      require (negb (existsb (fun p => (p_slug p =? slug)%string) (projects st)))
              (IntegrityError "UNIQUE constraint failed: projects.slug") ;;;
      let project_id := seq_projects st + 1 in
      let row := mkProject project_id slug key (now_at env 0) in
      ret (row,
           mkStore (projects st ++ [row]) (agents st) (messages st)
                   (message_recipients st) (file_reservations st)
                   project_id (seq_agents st) (seq_messages st)
                   (seq_file_reservations st))
  end.

(** The [for _ in range(100)] loop of [tool_register_agent] with its [else]
    branch: [i] counts the names drawn so far. *)
Fixpoint generate_unique_name (env : Env) (st : Store) (pid : Z)
                              (fuel : nat) (i : nat) : string :=
  match fuel with
  | O => agent_name_at env i +++ "_" +++ uuid4_hex4 env
  | S fuel' =>
      let nm := agent_name_at env i in
      match select_agent st nm pid with
      | Some _ => generate_unique_name env st pid fuel' (S i)
      | None => nm
      end
  end.

Definition touch_agent (now id : Z) (a : Agent) : Agent :=
  if a_id a =? id
  then mkAgent (a_id a) (a_name a) (a_program a) (a_model a)
               (a_task_description a) (a_inception_ts a) now (a_project_id a)
  else a.

Definition tool_register_agent (env : Env) (st : Store) (args : Args)
  : result (Agent * Store) :=
  require (truthy_str (project_key args)) (ValueError "project_key is required") ;;;
  let key := get (project_key args) "" in
  project <- fetch_or_raise (select_project st key)
                            (ValueError ("Project not found: " +++ key)) ;;
  let project_id := p_id project in
  let nm := if truthy_str (name args) then get (name args) ""
            else generate_unique_name env st project_id 100 0 in
  match select_agent st nm project_id with
  | Some existing =>
      ret (existing,
           mkStore (projects st)
                   (map (touch_agent (now_at env 0) (a_id existing)) (agents st))
                   (messages st) (message_recipients st) (file_reservations st)
                   (seq_projects st) (seq_agents st) (seq_messages st)
                   (seq_file_reservations st))
  | None =>
      let now := now_at env 0 in
      let agent_id := seq_agents st + 1 in
      let row := mkAgent agent_id nm (get (program args) "unknown")
                         (get (model args) "unknown")
                         (get (task_description args) "") now now project_id in
      ret (row,
           mkStore (projects st) (agents st ++ [row]) (messages st)
                   (message_recipients st) (file_reservations st)
                   (seq_projects st) agent_id (seq_messages st)
                   (seq_file_reservations st))
  end.

(** Project and agent lookup shared by the handlers that act for an agent. *)
Definition resolve_project (st : Store) (key : string) : result Project :=
  fetch_or_raise (select_project st key)
                 (ValueError ("Project not found: " +++ key)).

Definition resolve_agent (st : Store) (nm : string) (pid : Z) : result Agent :=
  fetch_or_raise (select_agent st nm pid)
                 (ValueError ("Agent not found: " +++ nm)).

(** ** Message ledger *)

(** [INSERT INTO message_recipients (message_id, agent_id)], under the
    PRIMARY KEY (message_id, agent_id). *)
Definition insert_message_recipient (st : Store) (mid aid : Z) : result Store :=
  require (negb (existsb (fun r => (mr_message_id r =? mid) && (mr_agent_id r =? aid))
                         (message_recipients st)))
          (IntegrityError
             "UNIQUE constraint failed: message_recipients.message_id, message_recipients.agent_id") ;;;
  ret (mkStore (projects st) (agents st) (messages st)
               (message_recipients st ++ [mkRecipient mid aid None None])
               (file_reservations st)
               (seq_projects st) (seq_agents st) (seq_messages st)
               (seq_file_reservations st)).

(** The [for recipient_name in to] loop of [tool_send_message]. *)
Fixpoint add_recipients (st : Store) (pid mid : Z) (names : list string)
  : result Store :=
  match names with
  | [] => ret st
  | recipient_name :: rest =>
      match select_agent st recipient_name pid with
      | Some recipient =>
          st' <- insert_message_recipient st mid (a_id recipient) ;;
          add_recipients st' pid mid rest
      | None => add_recipients st pid mid rest
      end
  end.

Definition tool_send_message (env : Env) (st : Store) (args : Args)
  : result (SendResult * Store) :=
  let names := get (to args) [] in
  let subj := get (subject args) "" in
  require (truthy_str (project_key args)) (ValueError "project_key is required") ;;;
  require (truthy_str (sender_name args)) (ValueError "sender_name is required") ;;;
  require (truthy_list (to args))
          (ValueError "to is required (list of recipient names)") ;;;
  let key := get (project_key args) "" in
  let sname := get (sender_name args) "" in
  project <- resolve_project st key ;;
  let project_id := p_id project in
  sender <- fetch_or_raise (select_agent st sname project_id)
                           (ValueError ("Sender agent not found: " +++ sname)) ;;
  let message_id := seq_messages st + 1 in
  let row := mkMessage message_id project_id (a_id sender) subj
                       (get (body_md args) "") (thread_id args)
                       (get (importance args) "normal")
                       (if get (ack_required args) false then 1 else 0)
                       "message" (now_at env 0) in
  let st1 := mkStore (projects st) (agents st) (messages st ++ [row])
                     (message_recipients st) (file_reservations st)
                     (seq_projects st) (seq_agents st) message_id
                     (seq_file_reservations st) in
  st2 <- add_recipients st1 project_id message_id names ;;
  ret (mkSendResult message_id subj names (now_at env 1), st2).

(** [ORDER BY m.created_ts DESC]: a stable insertion sort (rows with equal
    timestamps keep their rowid order). *)
Fixpoint insert_desc (m : Message * string) (l : list (Message * string))
  : list (Message * string) :=
  match l with
  | [] => [m]
  | x :: l' =>
      if m_created_ts (fst x) <=? m_created_ts (fst m)
      then m :: x :: l'
      else x :: insert_desc m l'
  end.

Definition order_by_created_desc (l : list (Message * string))
  : list (Message * string) :=
  fold_right insert_desc [] l.

(** [ORDER BY m.created_ts ASC]: a stable insertion sort. *)
Fixpoint insert_asc (m : Message * string) (l : list (Message * string))
  : list (Message * string) :=
  match l with
  | [] => [m]
  | x :: l' =>
      if m_created_ts (fst m) <=? m_created_ts (fst x)
      then m :: x :: l'
      else x :: insert_asc m l'
  end.

Definition order_by_created_asc (l : list (Message * string))
  : list (Message * string) :=
  fold_right insert_asc [] l.

(** [LIMIT ?]: a negative limit is no limit. *)
Definition sql_limit {A : Type} (n : Z) (l : list A) : list A :=
  if n <? 0 then l else firstn (Z.to_nat n) l.

(** [messages m JOIN agents a ON m.sender_id = a.id]: each message with the
    name of its sender. *)
Definition join_sender (st : Store) (ms : list Message) : list (Message * string) :=
  flat_map (fun m =>
              map (fun a => (m, a_name a))
                  (filter (fun a => a_id a =? m_sender_id m) (agents st)))
           ms.

Definition inbox_entry (with_body : bool) (row : Message * string) : InboxMessage :=
  let m := fst row in
  mkInboxMessage (m_id m) (m_subject m) (snd row) (m_created_ts m)
                 (m_importance m) (negb (m_ack_required m =? 0))
                 (m_thread_id m) (m_kind m)
                 (if with_body then Some (m_body_md m) else None).

Definition tool_fetch_inbox (env : Env) (st : Store) (args : Args)
  : result (list InboxMessage * Store) :=
  require (truthy_str (project_key args)) (ValueError "project_key is required") ;;;
  require (truthy_str (agent_name args)) (ValueError "agent_name is required") ;;;
  project <- resolve_project st (get (project_key args) "") ;;
  agent <- resolve_agent st (get (agent_name args) "") (p_id project) ;;
  let delivered :=
    flat_map (fun m =>
                map (fun _ => m)
                    (filter (fun r => (mr_message_id r =? m_id m)
                                      && (mr_agent_id r =? a_id agent))
                            (message_recipients st)))
             (messages st) in
  let rows := join_sender st delivered in
  let rows := if get (urgent_only args) false
              then filter (fun r => (m_importance (fst r) =? "urgent")%string) rows
              else rows in
  let rows := match since_ts args with
              | Some since => filter (fun r => since <? m_created_ts (fst r)) rows
              | None => rows
              end in
  let rows := sql_limit (get (limit args) 10) (order_by_created_desc rows) in
  ret (map (inbox_entry (get (include_bodies args) false)) rows, st).

(** [UPDATE message_recipients SET read_at = ? WHERE message_id = ? AND agent_id = ?]. *)
Definition set_read_at (now mid aid : Z) (r : Recipient) : Recipient :=
  if (mr_message_id r =? mid) && (mr_agent_id r =? aid)
  then mkRecipient (mr_message_id r) (mr_agent_id r) (Some now) (mr_acked_at r)
  else r.

(** [UPDATE message_recipients SET acked_at = ? WHERE message_id = ? AND agent_id = ?]. *)
Definition set_acked_at (now mid aid : Z) (r : Recipient) : Recipient :=
  if (mr_message_id r =? mid) && (mr_agent_id r =? aid)
  then mkRecipient (mr_message_id r) (mr_agent_id r) (mr_read_at r) (Some now)
  else r.

Definition update_recipients (f : Recipient -> Recipient) (st : Store) : Store :=
  mkStore (projects st) (agents st) (messages st)
          (map f (message_recipients st)) (file_reservations st)
          (seq_projects st) (seq_agents st) (seq_messages st)
          (seq_file_reservations st).

Definition mark_args_present (args : Args) : bool :=
  truthy_str (project_key args) && truthy_str (agent_name args)
  && truthy_int (message_id args).

Definition tool_mark_message_read (env : Env) (st : Store) (args : Args)
  : result (MarkResult * Store) :=
  require (mark_args_present args)
          (ValueError "project_key, agent_name, and message_id are required") ;;;
  let mid := get (message_id args) 0 in
  project <- resolve_project st (get (project_key args) "") ;;
  agent <- resolve_agent st (get (agent_name args) "") (p_id project) ;;
  ret (mkMarkResult mid (now_at env 1),
       update_recipients (set_read_at (now_at env 0) mid (a_id agent)) st).

Definition tool_acknowledge_message (env : Env) (st : Store) (args : Args)
  : result (MarkResult * Store) :=
  require (mark_args_present args)
          (ValueError "project_key, agent_name, and message_id are required") ;;;
  let mid := get (message_id args) 0 in
  project <- resolve_project st (get (project_key args) "") ;;
  agent <- resolve_agent st (get (agent_name args) "") (p_id project) ;;
  let now := now_at env 0 in
  ret (mkMarkResult mid now,
       update_recipients (set_acked_at now mid (a_id agent)) st).

(** [list(set(...))]: one occurrence of every name. *)
Fixpoint distinct (l : list string) : list string :=
  match l with
  | [] => []
  | x :: l' =>
      if existsb (String.eqb x) l' then distinct l' else x :: distinct l'
  end.

Definition thread_example (row : Message * string) : ThreadExample :=
  mkThreadExample (m_id (fst row)) (m_subject (fst row)) (snd row)
                  (m_body_md (fst row)).

Definition in_thread (tid : string) (pid : Z) (m : Message) : bool :=
  match m_thread_id m with
  | Some t => (t =? tid)%string && (m_project_id m =? pid)
  | None => false
  end.

Definition tool_summarize_thread (env : Env) (st : Store) (args : Args)
  : result (ThreadSummary * Store) :=
  require (truthy_str (project_key args)) (ValueError "project_key is required") ;;;
  require (truthy_str (thread_id args)) (ValueError "thread_id is required") ;;;
  let tid := get (thread_id args) "" in
  project <- resolve_project st (get (project_key args) "") ;;
  let rows := order_by_created_asc
                (join_sender st
                   (filter (in_thread tid (p_id project)) (messages st))) in
  let examples :=
    if get (include_examples args) false
    then match rows with
         | [] => None
         | _ :: _ => Some (map thread_example (firstn 3 rows))
         end
    else None in
  ret (mkThreadSummary tid
         (distinct (map snd rows))
         (map (fun r => m_subject (fst r)) (firstn 5 rows))
         (map (fun r => m_subject (fst r))
              (filter (fun r => (m_importance (fst r) =? "urgent")%string) rows))
         (Z.of_nat (List.length rows))
         examples,
       st).

Definition search_hit (row : Message * string) : SearchHit :=
  let m := fst row in
  mkSearchHit (m_id m) (m_subject m) (snd row) (m_created_ts m)
              (m_importance m) (m_thread_id m).

Definition tool_search_messages (env : Env) (st : Store) (args : Args)
  : result (list SearchHit * Store) :=
  require (truthy_str (project_key args)) (ValueError "project_key is required") ;;;
  require (truthy_str (query args)) (ValueError "query is required") ;;;
  let q := get (query args) "" in
  project <- resolve_project st (get (project_key args) "") ;;
  ranked <- fetch_or_raise (fts5_match env (messages st) q)
                           (OperationalError ("fts5: syntax error near " +++ q)) ;;
  let hits :=
    flat_map (fun rowid =>
                filter (fun m => (m_id m =? rowid)
                                 && (m_project_id m =? p_id project))
                       (messages st))
             ranked in
  ret (map search_hit (sql_limit (get (limit args) 20) (join_sender st hits)), st).

(** ** Reservation engine *)

(** [DELETE FROM file_reservations WHERE expires_ts < ?]. *)
Definition delete_expired (now : Z) (rows : list FileReservation)
  : list FileReservation :=
  filter (fun fr => negb (fr_expires_ts fr <? now)) rows.

(** The WHERE clause of the conflict query for the requested [path]:
    [fr.project_id = ? AND fr.agent_id != ? AND fr.exclusive = 1
     AND (fr.path_pattern = ? OR fr.path_pattern LIKE ? OR ? LIKE fr.path_pattern)]
    with the parameters [(project_id, agent_id, path, path.replace("*", "%"),
    path.replace("*", "%"))]. *)
Definition pattern_conflict (path stored : string) : bool :=
  (stored =? path)%string
  || like (replace "*"%char "%"%char path) stored
  || like stored (replace "*"%char "%"%char path).

Definition is_conflicting (project_id agent_id : Z) (path : string)
                          (fr : FileReservation) : bool :=
  (fr_project_id fr =? project_id)
  && negb (fr_agent_id fr =? agent_id)
  && (fr_exclusive fr =? 1)
  && pattern_conflict path (fr_path_pattern fr).

(** The conflict query: the matching reservations, each joined with the
    agent row of its holder ([JOIN agents a ON fr.agent_id = a.id]). *)
Definition conflicting (agts : list Agent) (rows : list FileReservation)
                       (project_id agent_id : Z) (path : string)
  : list (FileReservation * string) :=
  flat_map (fun fr =>
              map (fun a => (fr, a_name a))
                  (filter (fun a => a_id a =? fr_agent_id fr) agts))
           (filter (is_conflicting project_id agent_id path) rows).

(** The state of the [for path in paths] loop. *)
Record ReserveLoop := mkReserveLoop {
  rl_rows : list FileReservation;
  rl_seq : Z;
  rl_granted : list Granted;
  rl_conflicts : list Conflict
}.

Definition reserve_one (agts : list Agent) (project_id agent_id : Z)
                       (excl : bool) (why : string) (now expires : Z)
                       (acc : ReserveLoop) (path : string) : ReserveLoop :=
  match conflicting agts (rl_rows acc) project_id agent_id path with
  | (_ :: _) as rows =>
      mkReserveLoop (rl_rows acc) (rl_seq acc) (rl_granted acc)
                    (rl_conflicts acc ++ [mkConflict path (map snd rows)])
  | [] =>
      let id := rl_seq acc + 1 in
      mkReserveLoop
        (rl_rows acc ++ [mkFileReservation id project_id agent_id path
                                           (if excl then 1 else 0)
                                           why now expires])
        id
        (rl_granted acc ++ [mkGranted id path excl why expires])
        (rl_conflicts acc)
  end.

(** [timedelta(seconds=n)] in microseconds. *)
Definition timedelta_seconds (n : Z) : Z := n * 1000000.

Definition tool_file_reservation_paths (env : Env) (st : Store) (args : Args)
  : result (ReserveResult * Store) :=
  let ps := get (paths args) [] in
  let ttl := get (ttl_seconds args) 3600 in
  let excl := get (exclusive args) true in
  let why := get (reason args) "" in
  require (truthy_str (project_key args)) (ValueError "project_key is required") ;;;
  require (truthy_str (agent_name args)) (ValueError "agent_name is required") ;;;
  require (truthy_list (paths args))
          (ValueError "paths is required (list of path patterns)") ;;;
  project <- resolve_project st (get (project_key args) "") ;;
  agent <- resolve_agent st (get (agent_name args) "") (p_id project) ;;
  let project_id := p_id project in
  let agent_id := a_id agent in
  let now := now_at env 0 in
  let expires := now_at env 1 + timedelta_seconds ttl in
  let swept := delete_expired now (file_reservations st) in
  let final :=
    fold_left (reserve_one (agents st) project_id agent_id excl why now expires)
              ps
              (mkReserveLoop swept (seq_file_reservations st) [] []) in
  ret (mkReserveResult (rl_granted final) (rl_conflicts final),
       mkStore (projects st) (agents st) (messages st) (message_recipients st)
               (rl_rows final)
               (seq_projects st) (seq_agents st) (seq_messages st)
               (rl_seq final)).

(** The three DELETE statements of [tool_release_file_reservations], as the
    predicate selecting the rows to delete. *)
Definition release_selector (args : Args) (agent_id : Z) (fr : FileReservation)
  : bool :=
  if truthy_list (file_reservation_ids args) then
    existsb (Z.eqb (fr_id fr)) (get (file_reservation_ids args) [])
    && (fr_agent_id fr =? agent_id)
  else if truthy_list (paths args) then
    existsb (String.eqb (fr_path_pattern fr)) (get (paths args) [])
    && (fr_agent_id fr =? agent_id)
  else
    fr_agent_id fr =? agent_id.

Definition tool_release_file_reservations (env : Env) (st : Store) (args : Args)
  : result (ReleaseResult * Store) :=
  require (truthy_str (project_key args)) (ValueError "project_key is required") ;;;
  require (truthy_str (agent_name args)) (ValueError "agent_name is required") ;;;
  project <- resolve_project st (get (project_key args) "") ;;
  agent <- resolve_agent st (get (agent_name args) "") (p_id project) ;;
  let doomed := release_selector args (a_id agent) in
  let rowcount := Z.of_nat (List.length (filter doomed (file_reservations st))) in
  ret (mkReleaseResult rowcount (now_at env 0),
       mkStore (projects st) (agents st) (messages st) (message_recipients st)
               (filter (fun fr => negb (doomed fr)) (file_reservations st))
               (seq_projects st) (seq_agents st) (seq_messages st)
               (seq_file_reservations st)).

(** ** Dispatcher and JSON-RPC endpoint *)

Inductive Value :=
| VProject (p : Project)
| VAgent (a : Agent)
| VSent (r : SendResult)
| VInbox (l : list InboxMessage)
| VMarked (r : MarkResult)
| VSummary (s : ThreadSummary)
| VReserved (r : ReserveResult)
| VReleased (r : ReleaseResult)
| VAcked (r : MarkResult)
| VHits (l : list SearchHit).

Definition handler (A : Type) : Type := Env -> Store -> Args -> result (A * Store).

Definition as_value {A : Type} (wrap : A -> Value) (h : handler A)
  : handler Value :=
  fun env st args => r <- h env st args ;; ret (wrap (fst r), snd r).

Definition tools : list (string * handler Value) :=
  [ ("ensure_project", as_value VProject tool_ensure_project);
    ("register_agent", as_value VAgent tool_register_agent);
    ("send_message", as_value VSent tool_send_message);
    ("fetch_inbox", as_value VInbox tool_fetch_inbox);
    ("mark_message_read", as_value VMarked tool_mark_message_read);
    ("summarize_thread", as_value VSummary tool_summarize_thread);
    ("file_reservation_paths", as_value VReserved tool_file_reservation_paths);
    ("release_file_reservations", as_value VReleased tool_release_file_reservations);
    ("acknowledge_message", as_value VAcked tool_acknowledge_message);
    ("search_messages", as_value VHits tool_search_messages) ].

Definition tools_get (nm : string) : option (handler Value) :=
  option_map snd (find (fun t => (fst t =? nm)%string) tools).

Definition dispatch_tool (env : Env) (st : Store) (nm : string) (args : Args)
  : result (Value * Store) :=
  match tools_get nm with
  | Some h => h env st args
  | None => raise (ValueError ("Unknown tool: " +++ nm))
  end.

Record MCPRequest := mkMCPRequest {
  rq_id : string;
  rq_method : string;
  rq_name : option string;
  rq_arguments : option Args
}.

Record MCPError := mkMCPError {
  code : Z;
  message : string
}.

Record MCPResponse := mkMCPResponse {
  rs_id : string;
  rs_result : option Value;
  rs_error : option MCPError
}.

Definition exn_message (e : exn) : string :=
  match e with
  | ValueError m => m
  | IntegrityError m => m
  | OperationalError m => m
  end.

Definition mcp_endpoint (env : Env) (st : Store) (request : MCPRequest)
  : MCPResponse * Store :=
  if negb (rq_method request =? "tools/call")%string then
    (mkMCPResponse (rq_id request) None
       (Some (mkMCPError (-32601) ("Method not found: " +++ rq_method request))),
     st)
  else
    let tool_name := get (rq_name request) "" in
    let arguments := get (rq_arguments request) no_args in
    match dispatch_tool env st tool_name arguments with
    | inr (v, st') => (mkMCPResponse (rq_id request) (Some v) None, st')
    | inl (ValueError m) =>
        (mkMCPResponse (rq_id request) None (Some (mkMCPError (-32602) m)), st)
    | inl e =>
        (mkMCPResponse (rq_id request) None
           (Some (mkMCPError (-32000) (exn_message e))), st)
    end.

(** ** Store invariants

    The constraints the schema declares (primary keys) and the ones the
    handlers maintain (rowids below the AUTOINCREMENT counter, every
    reservation held by a registered agent), as a decidable predicate.
    They hold in every store the server can reach ([reachable_wf]). *)

Fixpoint nodupb {A : Type} (eqb : A -> A -> bool) (l : list A) : bool :=
  match l with
  | [] => true
  | x :: l' => negb (existsb (eqb x) l') && nodupb eqb l'
  end.

Definition pair_eqb (x y : Z * Z) : bool :=
  (fst x =? fst y) && (snd x =? snd y).

Definition recipient_key (r : Recipient) : Z * Z :=
  (mr_message_id r, mr_agent_id r).

Definition id_in_range (hi id : Z) : bool := (1 <=? id) && (id <=? hi).

Definition wfb (st : Store) : bool :=
  (0 <=? seq_agents st) && (0 <=? seq_messages st)
  && (0 <=? seq_file_reservations st)
  && nodupb Z.eqb (map a_id (agents st))
  && forallb (fun a => id_in_range (seq_agents st) (a_id a)) (agents st)
  && nodupb pair_eqb (map recipient_key (message_recipients st))
  && forallb (fun r => id_in_range (seq_messages st) (mr_message_id r))
             (message_recipients st)
  && nodupb Z.eqb (map fr_id (file_reservations st))
  && forallb (fun fr => id_in_range (seq_file_reservations st) (fr_id fr))
             (file_reservations st)
  && forallb (fun fr => existsb (fun a => a_id a =? fr_agent_id fr) (agents st))
             (file_reservations st).

Definition wf (st : Store) : Prop := wfb st = true.

(** ** The overlap relation of the specification (section 4.3)

    A pattern matches a path as a glob when every [*] of the pattern stands
    for some substring of the path and every other character for itself. *)

Fixpoint glob_match (pat s : string) : bool :=
  match pat with
  | EmptyString => match s with EmptyString => true | String _ _ => false end
  | String c pat' =>
      if Ascii.eqb c "*"%char then
        (fix star (s : string) : bool :=
           glob_match pat' s
           || match s with
              | EmptyString => false
              | String _ s' => star s'
              end) s
      else
        match s with
        | EmptyString => false
        | String d s' => Ascii.eqb c d && glob_match pat' s'
        end
  end.

(** Exact equality, or either pattern matching the other as a glob. *)
Definition spec_overlap (a b : string) : bool :=
  (a =? b)%string || glob_match a b || glob_match b a.

(** A reservation is live at [now] when its expiry lies in the future. *)
Definition live (now : Z) (fr : FileReservation) : bool :=
  now <? fr_expires_ts fr.

(** A pair of reservations that the exclusion invariant forbids. *)
Definition exclusion_violation (now : Z) (x y : FileReservation) : bool :=
  live now x && live now y
  && (fr_exclusive x =? 1) && (fr_exclusive y =? 1)
  && (fr_project_id x =? fr_project_id y)
  && negb (fr_agent_id x =? fr_agent_id y)
  && spec_overlap (fr_path_pattern x) (fr_path_pattern y).

(** ** Concrete calls and stores used in the examples *)

Definition env_at (t : Z) : Env :=
  mkEnv (fun i => t + Z.of_nat i) (fun _ => "BlueLake") "0a1b"
        (fun _ _ => Some []).

Definition ensure_args (key : string) : Args :=
  mkArgs (Some key) None None None None None None None None None None None None
         None None None None None None None None None None None None None.

Definition register_args (key nm : string) : Args :=
  mkArgs None (Some key) None None (Some nm) None None None None None None None
         None None None None None None None None None None None None None None.

Definition send_args (key sender : string) (names : list string) : Args :=
  mkArgs None (Some key) None None None None (Some sender) (Some names) None None
         None None None None None None None None None None None None None None
         None None.

Definition mark_args (key agent : string) (mid : Z) : Args :=
  mkArgs None (Some key) None None None None None None None None None None None
         (Some agent) None None None None (Some mid) None None None None None
         None None.

Definition reserve_args (key agent : string) (ps : list string)
                        (ttl : option Z) (excl : option bool) : Args :=
  mkArgs None (Some key) None None None None None None None None None None None
         (Some agent) None None None None None None (Some ps) ttl excl None
         None None.

Definition release_args (key agent : string) (ps : option (list string))
                        (ids : option (list Z)) : Args :=
  mkArgs None (Some key) None None None None None None None None None None None
         (Some agent) None None None None None None ps None None None ids None.

(** The store after a committed call; a call that raises changes nothing. *)
Definition commit {A : Type} (h : handler A) (env : Env) (args : Args)
                  (st : Store) : Store :=
  match h env st args with
  | inr (_, st') => st'
  | inl _ => st
  end.

(** Project [/repo] with the agents [Alice] (id 1) and [Bob] (id 2). *)
Definition store_two_agents : Store :=
  commit tool_register_agent (env_at 20) (register_args "/repo" "Bob")
    (commit tool_register_agent (env_at 10) (register_args "/repo" "Alice")
       (commit tool_ensure_project (env_at 0) (ensure_args "/repo") empty_store)).

(** ** The reservation loop, as a function of the swept table *)

Section ReserveLoopDefs.

Variables (agts : list Agent) (project_id agent_id : Z).
Variables (excl : bool) (why : string) (now expires : Z).
Variable swept : list FileReservation.

(** The answer of the conflict query on the table as the sweep left it. *)
Definition holders_of (path : string) : list (FileReservation * string) :=
  conflicting agts swept project_id agent_id path.

Definition is_free (path : string) : bool :=
  match holders_of path with
  | [] => true
  | _ :: _ => false
  end.

Definition new_row (g : Granted) : FileReservation :=
  mkFileReservation (g_id g) project_id agent_id (g_path_pattern g)
                    (if excl then 1 else 0) why now (g_expires_ts g).

(** The grants for the free paths, numbered from the counter [seq0]. *)
Fixpoint grants (seq0 : Z) (free : list string) : list Granted :=
  match free with
  | [] => []
  | p :: rest => mkGranted (seq0 + 1) p excl why expires :: grants (seq0 + 1) rest
  end.

(** The state of the loop after the paths [done], if every path is
    treated as the conflict query on the swept table alone decides. *)
Definition loop_after (seq0 : Z) (done : list string) : ReserveLoop :=
  mkReserveLoop
    (swept ++ map new_row (grants seq0 (filter is_free done)))
    (seq0 + Z.of_nat (List.length (filter is_free done)))
    (grants seq0 (filter is_free done))
    (map (fun p => mkConflict p (map snd (holders_of p)))
         (filter (fun p => negb (is_free p)) done)).

End ReserveLoopDefs.

(** Alice holds an exclusive reservation on [pattern], granted at time 100
    for the default hour. *)
Definition store_alice_holds (pattern : string) : Store :=
  commit tool_file_reservation_paths (env_at 100)
         (reserve_args "/repo" "Alice" [pattern] None None) store_two_agents.

(** ** Delivery *)

(** The agents the names of a recipient list resolve to, in list order; a
    name that resolves to no agent of the project contributes nothing. *)
Definition resolved_recipients (st : Store) (pid : Z) (names : list string)
  : list Agent :=
  flat_map (fun n => match select_agent st n pid with
                     | Some a => [a]
                     | None => []
                     end) names.

Definition resolves (st : Store) (pid : Z) (n : string) : bool :=
  match select_agent st n pid with
  | Some _ => true
  | None => false
  end.

(** The store with another [message_recipients] table. *)
Definition with_recipients (st : Store) (rs : list Recipient) : Store :=
  mkStore (projects st) (agents st) (messages st) rs (file_reservations st)
          (seq_projects st) (seq_agents st) (seq_messages st)
          (seq_file_reservations st).

(** The delivery records of one (message, agent) pair. *)
Definition deliveries (st : Store) (mid aid : Z) : list Recipient :=
  filter (fun r => (mr_message_id r =? mid) && (mr_agent_id r =? aid))
         (message_recipients st).

(** Bob has sent message 1 to Alice. *)
Definition store_one_message : Store :=
  commit tool_send_message (env_at 300) (send_args "/repo" "Bob" ["Alice"])
         store_two_agents.

(** Alice holds [src/a.ts] (id 1) and [src/b.ts] (id 2). *)
Definition store_alice_holds_two : Store :=
  commit tool_file_reservation_paths (env_at 100)
         (reserve_args "/repo" "Alice" ["src/a.ts"; "src/b.ts"] None None)
         store_two_agents.

Definition row_a : FileReservation :=
  mkFileReservation 1 1 1 "src/a.ts" 1 "" 100 3600000101.

Definition row_b : FileReservation :=
  mkFileReservation 2 1 1 "src/b.ts" 1 "" 100 3600000101.

(** ** Errors as the caller sees them *)

Definition tool_names : list string := map fst tools.

(** The required arguments of every operation, from the table in section 6
    of the specification: an argument is present when it is neither missing
    nor empty. *)
Definition required_present (tool : string) (args : Args) : bool :=
  if (tool =? "ensure_project")%string then
    truthy_str (human_key args)
  else if (tool =? "register_agent")%string then
    truthy_str (project_key args)
  else if (tool =? "send_message")%string then
    truthy_str (project_key args) && truthy_str (sender_name args)
    && truthy_list (to args)
  else if (tool =? "fetch_inbox")%string then
    truthy_str (project_key args) && truthy_str (agent_name args)
  else if ((tool =? "mark_message_read") || (tool =? "acknowledge_message"))%string then
    truthy_str (project_key args) && truthy_str (agent_name args)
    && truthy_int (message_id args)
  else if (tool =? "summarize_thread")%string then
    truthy_str (project_key args) && truthy_str (thread_id args)
  else if (tool =? "file_reservation_paths")%string then
    truthy_str (project_key args) && truthy_str (agent_name args)
    && truthy_list (paths args)
  else if (tool =? "release_file_reservations")%string then
    truthy_str (project_key args) && truthy_str (agent_name args)
  else if (tool =? "search_messages")%string then
    truthy_str (project_key args) && truthy_str (query args)
  else true.

(** The messages of the [ValueError]s raised for a missing argument. *)
Definition validation_messages : list string :=
  [ "human_key is required";
    "project_key is required";
    "sender_name is required";
    "to is required (list of recipient names)";
    "agent_name is required";
    "project_key, agent_name, and message_id are required";
    "thread_id is required";
    "paths is required (list of path patterns)";
    "query is required" ].

(** The messages of the [ValueError]s raised for an unresolved key. *)
Definition is_not_found_message (m : string) : bool :=
  String.prefix "Project not found: " m
  || String.prefix "Agent not found: " m
  || String.prefix "Sender agent not found: " m.

(** The name under which a handler looks up the acting agent, with the
    prefix of its not-found message. *)
Definition acting_agent (tool : string) (args : Args) : option (string * string) :=
  if (tool =? "send_message")%string then
    Some ("Sender agent not found: ", get (sender_name args) "")
  else if ((tool =? "fetch_inbox") || (tool =? "mark_message_read")
           || (tool =? "file_reservation_paths")
           || (tool =? "release_file_reservations")
           || (tool =? "acknowledge_message"))%string then
    Some ("Agent not found: ", get (agent_name args) "")
  else None.

Definition tools_call (tool : string) (args : Args) : MCPRequest :=
  mkMCPRequest "1" "tools/call" (Some tool) (Some args).

(** The error of the response to a call, if it is one. *)
Definition error_of (env : Env) (st : Store) (tool : string) (args : Args)
  : option MCPError :=
  rs_error (fst (mcp_endpoint env st (tools_call tool args))).

(** ** Reachable stores *)

(** The stores the server can be in: the empty database, and the store after
    any request made in such a store. *)
Inductive reachable : Store -> Prop :=
| reachable_empty : reachable empty_store
| reachable_request (env : Env) (st : Store) (request : MCPRequest) :
    reachable st -> reachable (snd (mcp_endpoint env st request)).

(** What the conflict query establishes between a stored reservation [x]
    and a reservation [y] granted later: if [x] is exclusive, of the same
    project and of another agent, the query for [y]'s path did not select
    [x]. *)
Definition checked_against (x y : FileReservation) : Prop :=
  fr_exclusive x = 1 ->
  fr_project_id x = fr_project_id y ->
  fr_agent_id x <> fr_agent_id y ->
  pattern_conflict (fr_path_pattern y) (fr_path_pattern x) = false.

Definition handler_preserves {A : Type} (P : Store -> Prop) (h : handler A) : Prop :=
  forall env st args r st',
    P st -> h env st args = inr (r, st') -> P st'.

(** ** Predicates on strings and rows used in the further properties *)

Fixpoint str_forallb (f : ascii -> bool) (s : string) : bool :=
  match s with
  | EmptyString => true
  | String c s' => f c && str_forallb f s'
  end.

(** A code point of the ASCII range; on such keys [generate_slug] is the
    Python function. *)
Definition is_ascii (c : ascii) : bool := (N_of_ascii c <? 128)%N.

(** A lowercase letter, a digit or an underscore. *)
Definition is_slug_out_char (c : ascii) : bool :=
  is_lower c || is_digit c || Ascii.eqb c "_"%char.

(** The columns of the UNIQUE (name, project_id) constraint of [agents]. *)
Definition agent_key (a : Agent) : string * Z := (a_name a, a_project_id a).

(** What the identity handlers keep true of [projects] and [agents]: every
    slug is the slug of its key, keys and slugs are not repeated, no two
    agents share name and project, and every agent belongs to a stored
    project. *)
Definition identity_inv (st : Store) : Prop :=
  (forall p, In p (projects st) -> p_slug p = generate_slug (p_human_key p))
  /\ NoDup (map p_human_key (projects st))
  /\ NoDup (map p_slug (projects st))
  /\ NoDup (map agent_key (agents st))
  /\ (forall a, In a (agents st) ->
                exists p, In p (projects st) /\ p_id p = a_project_id a).

(** [x] stands before [y] in a listing that is newest first. *)
Definition not_older (x y : Message * string) : Prop :=
  m_created_ts (fst y) <= m_created_ts (fst x).

(** The rows of the inbox query of [agent_id] before ORDER BY and LIMIT. *)
Definition inbox_rows (st : Store) (agent_id : Z) : list (Message * string) :=
  join_sender st
    (flat_map (fun m =>
                 map (fun _ => m)
                     (filter (fun r => (mr_message_id r =? m_id m)
                                       && (mr_agent_id r =? agent_id))
                             (message_recipients st)))
              (messages st)).

(** Further concrete calls and a store with a thread. *)
Definition thread_args (key tid : string) (examples : option bool) : Args :=
  mkArgs None (Some key) None None None None None None None None (Some tid) None
         None None None None None None None examples None None None None None
         None.

Definition send_in_thread_args (key sender : string) (names : list string)
                               (subj tid imp : string) : Args :=
  mkArgs None (Some key) None None None None (Some sender) (Some names)
         (Some subj) None (Some tid) (Some imp) None None None None None None
         None None None None None None None None.

Definition search_args (key q : string) (lim : option Z) : Args :=
  mkArgs None (Some key) None None None None None None None None None None None
         None lim None None None None None None None None None None (Some q).

(** Bob opens thread [t1] with a message to Alice; Alice answers urgently. *)
Definition store_thread : Store :=
  commit tool_send_message (env_at 310)
         (send_in_thread_args "/repo" "Alice" ["Bob"] "re: plan" "t1" "urgent")
    (commit tool_send_message (env_at 300)
            (send_in_thread_args "/repo" "Bob" ["Alice"] "plan" "t1" "normal")
            store_two_agents).

(** An environment whose full-text index answers every query with the
    rowids [ranked], or rejects every query. *)
Definition env_index (t : Z) (ranked : option (list Z)) : Env :=
  mkEnv (fun i => t + Z.of_nat i) (fun _ => "BlueLake") "0a1b"
        (fun _ _ => ranked).

(** ** What no request takes away *)

(** Every column of an agent but [last_active_ts]. *)
Definition agent_static (a : Agent)
  : Z * string * string * string * string * Z * Z :=
  (a_id a, a_name a, a_program a, a_model a, a_task_description a,
   a_inception_ts a, a_project_id a).

(** The later state [r'] of a delivery record [r]: the same pair, and no
    mark cleared. *)
Definition marks_kept (r r' : Recipient) : Prop :=
  recipient_key r' = recipient_key r
  /\ (mr_read_at r <> None -> mr_read_at r' <> None)
  /\ (mr_acked_at r <> None -> mr_acked_at r' <> None).

Definition ledger_grows (st st' : Store) : Prop :=
  (exists new, projects st' = projects st ++ new)
  /\ (exists new, map agent_static (agents st')
                  = map agent_static (agents st) ++ new)
  /\ (exists new, messages st' = messages st ++ new)
  /\ (exists old new, message_recipients st' = old ++ new
                      /\ Forall2 marks_kept (message_recipients st) old)
  /\ seq_projects st <= seq_projects st'
  /\ seq_agents st <= seq_agents st'
  /\ seq_messages st <= seq_messages st'
  /\ seq_file_reservations st <= seq_file_reservations st'.

(** ** Project isolation *)

(** Some agent of [agts] has the id [aid] and belongs to project [pid]. *)
Definition agent_of_project (agts : list Agent) (aid pid : Z) : Prop :=
  exists a, In a agts /\ a_id a = aid /\ a_project_id a = pid.

(** Every message was sent by an agent of its project, every delivery
    record is of a stored message and an agent of that message's project,
    and every reservation is held by an agent of its project. *)
Definition isolation (st : Store) : Prop :=
  (forall m, In m (messages st) ->
             agent_of_project (agents st) (m_sender_id m) (m_project_id m))
  /\ (forall r, In r (message_recipients st) ->
                exists m, In m (messages st) /\ m_id m = mr_message_id r
                          /\ agent_of_project (agents st) (mr_agent_id r)
                                               (m_project_id m))
  /\ (forall fr, In fr (file_reservations st) ->
                 agent_of_project (agents st) (fr_agent_id fr) (fr_project_id fr)).

(** Alice holds [src/foo.ts] and Bob [lib/*], both granted by requests. *)
Definition store_two_holders : Store :=
  snd (mcp_endpoint (env_at 200)
         (snd (mcp_endpoint (env_at 100) store_two_agents
                 (tools_call "file_reservation_paths"
                    (reserve_args "/repo" "Alice" ["src/foo.ts"] None None))))
         (tools_call "file_reservation_paths"
            (reserve_args "/repo" "Bob" ["lib/*"] None None))).

(** Message ids are given out once. *)
Definition message_ids_fresh (st : Store) : Prop :=
  NoDup (map m_id (messages st))
  /\ forall m, In m (messages st) -> m_id m <= seq_messages st.

(** * Properties *)

(** ** Inversion of the error monad *)

Lemma bind_inr {A B : Type} (m : result A) (k : A -> result B) (b : B) :
  bind m k = inr b -> exists a, m = inr a /\ k a = inr b.
Proof.
  destruct m as [e | a]; simpl; intros H.
  - discriminate.
  - exists a; split; [reflexivity | exact H].
Qed.

Lemma require_inr (c : bool) (e : exn) (u : unit) :
  require c e = inr u -> c = true.
Proof. destruct c; simpl; [reflexivity | discriminate]. Qed.

Lemma fetch_or_raise_inr {A : Type} (o : option A) (e : exn) (a : A) :
  fetch_or_raise o e = inr a -> o = Some a.
Proof. destruct o; simpl; intros H; [injection H as ->; reflexivity | discriminate]. Qed.

Ltac invert_result H :=
  repeat match type of H with
    | bind _ _ = inr _ =>
        let x := fresh "x" in
        let Hx := fresh "Hx" in
        apply bind_inr in H; destruct H as (x & Hx & H);
        first [ apply require_inr in Hx
              | apply fetch_or_raise_inr in Hx
              | idtac ]
    end.

Lemma truthy_list_get {A : Type} (o : option (list A)) :
  truthy_list o = true -> o = Some (get o []) /\ get o [] <> [].
Proof.
  destruct o as [[| x l] |]; simpl; try discriminate.
  intros _; split; [reflexivity | discriminate].
Qed.

(** ** The reservation loop *)

Section ReserveLoopFacts.

Variables (agts : list Agent) (project_id agent_id : Z).
Variables (excl : bool) (why : string) (now expires : Z).
Variable swept : list FileReservation.

Local Abbreviation holders := (holders_of agts project_id agent_id swept).
Local Abbreviation free := (is_free agts project_id agent_id swept).
Local Abbreviation row := (new_row project_id agent_id excl why now).
Local Abbreviation numbered := (grants excl why expires).
Local Abbreviation after :=
  (loop_after agts project_id agent_id excl why now expires swept).

(** Rows of the caller never answer the caller's own conflict query. *)
Lemma conflicting_own_rows (extra : list FileReservation) (path : string) :
  Forall (fun fr => fr_agent_id fr = agent_id) extra ->
  conflicting agts (swept ++ extra) project_id agent_id path = holders path.
Proof.
  intros Hown. unfold holders, conflicting.
  rewrite filter_app.
  assert (Hnil : filter (is_conflicting project_id agent_id path) extra = []).
  { induction Hown as [| fr extra Hfr _ IH]; simpl; [reflexivity |].
    unfold is_conflicting at 1. rewrite Hfr, Z.eqb_refl; simpl.
    rewrite andb_false_r; simpl. exact IH. }
  rewrite Hnil, app_nil_r. reflexivity.
Qed.

Lemma grants_app (seq0 : Z) (l1 l2 : list string) :
  numbered seq0 (l1 ++ l2)
  = numbered seq0 l1 ++ numbered (seq0 + Z.of_nat (List.length l1)) l2.
Proof.
  revert seq0; induction l1 as [| p l1 IH]; intros seq0; simpl.
  - rewrite Z.add_0_r; reflexivity.
  - rewrite IH. do 3 f_equal. lia.
Qed.

Lemma grants_own (seq0 : Z) (l : list string) :
  Forall (fun fr => fr_agent_id fr = agent_id) (map row (numbered seq0 l)).
Proof.
  revert seq0; induction l as [| p l IH]; intros seq0; simpl;
    constructor; [reflexivity | apply IH].
Qed.

Lemma reserve_one_spec (seq0 : Z) (done : list string) (p : string) :
  reserve_one agts project_id agent_id excl why now expires
              (after seq0 done) p
  = after seq0 (done ++ [p]).
Proof.
  unfold reserve_one, after; simpl.
  rewrite conflicting_own_rows by apply grants_own.
  rewrite !filter_app; simpl.
  destruct (holders p) as [| h hs] eqn:Hq.
  - assert (Hf : free p = true) by (unfold free; rewrite Hq; reflexivity).
    rewrite Hf; simpl.
    rewrite app_nil_r, grants_app, map_app, length_app, <- app_assoc; simpl.
    f_equal. lia.
  - assert (Hf : free p = false) by (unfold free; rewrite Hq; reflexivity).
    rewrite Hf; simpl.
    rewrite !app_nil_r, map_app; simpl. rewrite Hq. reflexivity.
Qed.

Lemma reserve_loop_spec (seq0 : Z) (ps done : list string) :
  fold_left (reserve_one agts project_id agent_id excl why now expires) ps
            (after seq0 done)
  = after seq0 (done ++ ps).
Proof.
  revert done; induction ps as [| p ps IH]; intros done; simpl.
  - rewrite app_nil_r; reflexivity.
  - rewrite reserve_one_spec, IH, <- app_assoc. reflexivity.
Qed.

Lemma reserve_loop_from_swept (seq0 : Z) (ps : list string) :
  fold_left (reserve_one agts project_id agent_id excl why now expires) ps
            (mkReserveLoop swept seq0 [] [])
  = after seq0 ps.
Proof.
  pose proof (reserve_loop_spec seq0 ps []) as L.
  change ([] ++ ps) with ps in L. rewrite <- L.
  unfold after; simpl. rewrite app_nil_r, Z.add_0_r. reflexivity.
Qed.

End ReserveLoopFacts.

(** ** Consequences of the store invariants *)

Lemma wfb_parts st :
  wf st ->
  nodupb Z.eqb (map a_id (agents st)) = true
  /\ forallb (fun a => id_in_range (seq_agents st) (a_id a)) (agents st) = true
  /\ nodupb pair_eqb (map recipient_key (message_recipients st)) = true
  /\ forallb (fun r => id_in_range (seq_messages st) (mr_message_id r))
             (message_recipients st) = true
  /\ nodupb Z.eqb (map fr_id (file_reservations st)) = true
  /\ forallb (fun fr => id_in_range (seq_file_reservations st) (fr_id fr))
             (file_reservations st) = true
  /\ forallb (fun fr => existsb (fun a => a_id a =? fr_agent_id fr) (agents st))
             (file_reservations st) = true.
Proof.
  unfold wf, wfb. rewrite !andb_true_iff. tauto.
Qed.

Lemma id_in_range_spec hi id :
  id_in_range hi id = true <-> 1 <= id <= hi.
Proof. unfold id_in_range. rewrite andb_true_iff, !Z.leb_le. tauto. Qed.

Lemma wf_reservation_id st fr :
  wf st -> In fr (file_reservations st) ->
  1 <= fr_id fr <= seq_file_reservations st.
Proof.
  intros W Hin. destruct (wfb_parts st W) as (_ & _ & _ & _ & _ & R & _).
  rewrite forallb_forall in R. apply id_in_range_spec, R, Hin.
Qed.

Lemma delete_expired_In now rows fr :
  In fr (delete_expired now rows) <-> In fr rows /\ now <= fr_expires_ts fr.
Proof.
  unfold delete_expired. rewrite filter_In, negb_true_iff, Z.ltb_ge. tauto.
Qed.

Lemma wf_holder_registered st fr :
  wf st -> In fr (file_reservations st) ->
  exists a, In a (agents st) /\ a_id a = fr_agent_id fr.
Proof.
  intros W Hin. destruct (wfb_parts st W) as (_ & _ & _ & _ & _ & _ & R).
  rewrite forallb_forall in R. apply R in Hin. apply existsb_exists in Hin.
  destruct Hin as (a & Ha & E). exists a. split; [exact Ha | apply Z.eqb_eq, E].
Qed.

(** ** What a successful reservation call computes *)

Lemma grants_paths excl why expires seq0 free :
  map g_path_pattern (grants excl why expires seq0 free) = free.
Proof.
  revert seq0; induction free as [| p free IH]; intros seq0; simpl;
    [reflexivity | rewrite IH; reflexivity].
Qed.

Lemma grants_fields excl why expires seq0 free :
  Forall (fun g => g_expires_ts g = expires /\ g_exclusive g = excl
                   /\ g_reason g = why /\ seq0 < g_id g)
         (grants excl why expires seq0 free).
Proof.
  revert seq0; induction free as [| p free IH]; intros seq0; simpl;
    constructor.
  - simpl. repeat split; lia.
  - eapply Forall_impl; [| apply IH]. simpl. intros g (? & ? & ? & ?).
    repeat split; trivial; lia.
Qed.


(** A call that returns has validated its arguments, resolved project and
    agent, swept the table and run the loop on the swept table. *)
Lemma file_reservation_paths_inr env st args res st' :
  tool_file_reservation_paths env st args = inr (res, st') ->
  exists project agent,
    truthy_list (paths args) = true
    /\ select_project st (get (project_key args) "") = Some project
    /\ select_agent st (get (agent_name args) "") (p_id project) = Some agent
    /\ let final :=
         loop_after (agents st) (p_id project) (a_id agent)
                    (get (exclusive args) true) (get (reason args) "")
                    (now_at env 0)
                    (now_at env 1 + timedelta_seconds (get (ttl_seconds args) 3600))
                    (delete_expired (now_at env 0) (file_reservations st))
                    (seq_file_reservations st) (get (paths args) []) in
       res = mkReserveResult (rl_granted final) (rl_conflicts final)
       /\ st' = mkStore (projects st) (agents st) (messages st)
                        (message_recipients st) (rl_rows final)
                        (seq_projects st) (seq_agents st) (seq_messages st)
                        (rl_seq final).
Proof.
  unfold tool_file_reservation_paths, resolve_project, resolve_agent.
  intros H. invert_result H.
  injection H as <- <-.
  exists x2, x3. rewrite reserve_loop_from_swept.
  repeat split; trivial.
Qed.

(** Every row the WHERE clause selects appears in the answer of the conflict
    query with the name of its holder, provided the holder is registered. *)
Lemma conflicting_complete agts rows pid aid path fr :
  In fr rows ->
  is_conflicting pid aid path fr = true ->
  (exists a, In a agts /\ a_id a = fr_agent_id fr) ->
  exists a, In a agts /\ a_id a = fr_agent_id fr
            /\ In (fr, a_name a) (conflicting agts rows pid aid path).
Proof.
  intros Hfr Hc (a & Ha & Hid). exists a. repeat split; trivial.
  unfold conflicting. apply in_flat_map. exists fr. split.
  - apply filter_In. split; assumption.
  - apply in_map_iff. exists a. split; [reflexivity |].
    apply filter_In. split; [exact Ha | apply Z.eqb_eq; exact Hid].
Qed.



(** ** Expiry *)

Lemma conflicting_In agts rows pid aid path fr nm :
  In (fr, nm) (conflicting agts rows pid aid path) ->
  In fr rows /\ is_conflicting pid aid path fr = true
  /\ exists a, In a agts /\ a_id a = fr_agent_id fr /\ a_name a = nm.
Proof.
  unfold conflicting. rewrite in_flat_map.
  intros (fr' & Hfr & Hrow). apply filter_In in Hfr. destruct Hfr as (Hin & Hc).
  apply in_map_iff in Hrow. destruct Hrow as (a & Heq & Ha).
  injection Heq as <- <-. apply filter_In in Ha. destruct Ha as (Ha & Hid).
  apply Z.eqb_eq in Hid. repeat split; trivial. exists a; repeat split; trivial.
Qed.

(** C3 (lazy expiry).  A reservation call that returns has deleted every
    reservation whose [expires_ts] lies before the call's [now] before it
    checked any path: every conflict entry lists the holders of the rows the
    conflict query returns on the swept table, each of these rows is a stored
    reservation that has not expired, and no reservation that had expired
    is in the table after the call (the reservations that had not expired all
    are). *)
Theorem lazy_expiry env st args res st' :
  wf st ->
  tool_file_reservation_paths env st args = inr (res, st') ->
  exists project agent,
    select_project st (get (project_key args) "") = Some project
    /\ select_agent st (get (agent_name args) "") (p_id project) = Some agent
    /\ let now := now_at env 0 in
       let sources :=
         conflicting (agents st) (delete_expired now (file_reservations st))
                     (p_id project) (a_id agent) in
       (forall c, In c (conflicts res) ->
                  c_holders c = map snd (sources (c_path c)))
       /\ (forall path fr nm, In (fr, nm) (sources path) ->
                              In fr (file_reservations st)
                              /\ now <= fr_expires_ts fr)
       /\ (forall fr, In fr (file_reservations st) -> fr_expires_ts fr < now ->
                      forall fr', In fr' (file_reservations st') ->
                                  fr_id fr' <> fr_id fr)
       /\ (forall fr, In fr (file_reservations st) -> now <= fr_expires_ts fr ->
                      In fr (file_reservations st')).
Proof.
  intros W H. apply file_reservation_paths_inr in H.
  destruct H as (project & agent & _ & Hp & Ha & Hres & Hst).
  exists project, agent. split; [exact Hp |]. split; [exact Ha |].
  subst res st'; simpl.
  split; [| split; [| split]].
  - intros c Hc. apply in_map_iff in Hc. destruct Hc as (p & <- & _). reflexivity.
  - intros path fr nm Hin. apply conflicting_In in Hin.
    destruct Hin as (Hin & _). apply delete_expired_In in Hin. exact Hin.
  - intros fr Hin Hexp fr' Hin' Heq.
    apply in_app_or in Hin'. destruct Hin' as [Hold | Hnew].
    + apply delete_expired_In in Hold. destruct Hold as (Hold & Hlive).
      destruct (wfb_parts st W) as (_ & _ & _ & _ & N & _).
      assert (Hsame : fr' = fr).
      { clear - N Hold Hin Heq.
        induction (file_reservations st) as [| x l IH]; simpl in *; [tauto |].
        apply andb_true_iff in N. destruct N as (Nx & Nl).
        apply negb_true_iff in Nx.
        assert (Hno : forall y, In y l -> fr_id y <> fr_id x).
        { intros y Hy Hxy.
          assert (E : existsb (Z.eqb (fr_id x)) (map fr_id l) = true).
          { apply existsb_exists. exists (fr_id y). split.
            - apply in_map; exact Hy.
            - apply Z.eqb_eq; symmetry; exact Hxy. }
          congruence. }
        destruct Hold as [-> | Hold], Hin as [-> | Hin]; trivial.
        - exfalso. apply (Hno fr Hin). symmetry; exact Heq.
        - exfalso. apply (Hno fr' Hold). exact Heq.
        - apply IH; assumption. }
      subst fr'. lia.
    + apply in_map_iff in Hnew. destruct Hnew as (g & <- & Hg).
      pose proof (grants_fields (get (exclusive args) true) (get (reason args) "")
                    (now_at env 1 + timedelta_seconds (get (ttl_seconds args) 3600))
                    (seq_file_reservations st)
                    (filter (is_free (agents st) (p_id project) (a_id agent)
                               (delete_expired (now_at env 0) (file_reservations st)))
                            (get (paths args) []))) as F.
      rewrite Forall_forall in F. destruct (F g Hg) as (_ & _ & _ & Hid).
      simpl in Heq. pose proof (wf_reservation_id st fr W Hin). lia.
  - intros fr Hin Hlive. apply in_or_app. left.
    apply delete_expired_In. split; assumption.
Qed.

(** Alice's reservation of [src/a.ts] ran out at 3600000101; at 4000000000 Bob
    is granted the same path and Alice's row is gone. *)
Lemma lazy_expiry_witness :
  wf (store_alice_holds "src/a.ts")
  /\ exists res st',
       tool_file_reservation_paths
         (env_at 4000000000) (store_alice_holds "src/a.ts")
         (reserve_args "/repo" "Bob" ["src/a.ts"] None None)
       = inr (res, st')
       /\ conflicts res = []
       /\ forall fr', In fr' (file_reservations st') -> fr_id fr' <> 1.
Proof.
  split; [reflexivity |].
  destruct (tool_file_reservation_paths
              (env_at 4000000000) (store_alice_holds "src/a.ts")
              (reserve_args "/repo" "Bob" ["src/a.ts"] None None))
    as [e | [res st']] eqn:H.
  - vm_compute in H. discriminate H.
  - exists res, st'. split; [reflexivity |].
    destruct (lazy_expiry _ _ _ _ _ (eq_refl : wf (store_alice_holds "src/a.ts")) H)
      as (project & agent & _ & _ & _ & _ & Hgone & _).
    split.
    + vm_compute in H. injection H as <- _. reflexivity.
    + intros fr' Hin.
      apply (Hgone (mkFileReservation 1 1 1 "src/a.ts" 1 "" 100 3600000101)
                   (or_introl eq_refl)); [vm_compute; reflexivity | exact Hin].
Defined.

(** ** Overlap detection *)

Lemma like_percent_skip pat d s :
  like pat s = true -> like (String "%"%char pat) (String d s) = true.
Proof.
  intros H. simpl. destruct s; simpl in *; rewrite H; apply orb_true_r.
Qed.

Lemma like_percent_here pat s :
  like pat s = true -> like (String "%"%char pat) s = true.
Proof.
  intros H. simpl. destruct s; rewrite H; reflexivity.
Qed.

Lemma like_percent_step pat d s :
  like (String "%"%char pat) s = true ->
  like (String "%"%char pat) (String d s) = true.
Proof.
  simpl. intros H. rewrite H. apply orb_true_r.
Qed.

(** The request side of the check is a glob match: whenever the requested
    path, read as a glob, matches the stored pattern, the LIKE test of the
    conflict query succeeds. *)
Lemma glob_match_like path stored :
  glob_match path stored = true ->
  like (replace "*"%char "%"%char path) stored = true.
Proof.
  revert stored; induction path as [| c path IH]; intros stored.
  - simpl. trivial.
  - cbn [replace glob_match].
    destruct (Ascii.eqb c "*"%char) eqn:Hstar.
    + induction stored as [| d stored IHs]; intros H.
      * rewrite orb_false_r in H. apply like_percent_here, IH, H.
      * apply orb_true_iff in H. destruct H as [H | H].
        -- apply like_percent_here, IH, H.
        -- apply like_percent_step, IHs, H.
    + destruct stored as [| d stored]; [discriminate |].
      intros H. apply andb_true_iff in H. destruct H as (Hcd & H).
      apply Ascii.eqb_eq in Hcd. subst d.
      destruct (Ascii.eqb c "%"%char) eqn:Hpct.
      * apply Ascii.eqb_eq in Hpct. subst c.
        apply like_percent_skip, IH, H.
      * cbn [like]. rewrite Hpct, Ascii.eqb_refl, orb_true_r. simpl.
        apply IH, H.
Qed.

Lemma request_glob_detected path stored :
  stored = path \/ glob_match path stored = true ->
  pattern_conflict path stored = true.
Proof.
  unfold pattern_conflict. intros [-> | H].
  - rewrite String.eqb_refl. reflexivity.
  - rewrite (glob_match_like _ _ H). rewrite orb_true_r. reflexivity.
Qed.

(** C2 (glob symmetry), evaluated on the two orders of the specification's
    example.  With [src/foo.ts] held by Alice, Bob's request for [src/*] is
    reported as a conflict with Alice.  With [src/*] held by Alice, Bob's
    request for [src/foo.ts] is granted without any conflict, although the
    two patterns overlap: the stored pattern is handed to LIKE as it is, and
    its [*] is an ordinary character there. *)
Theorem glob_symmetry_fails :
  spec_overlap "src/*" "src/foo.ts" = true
  /\ (exists st',
        tool_file_reservation_paths
          (env_at 200) (store_alice_holds "src/foo.ts")
          (reserve_args "/repo" "Bob" ["src/*"] None None)
        = inr (mkReserveResult [] [mkConflict "src/*" ["Alice"]], st'))
  /\ (exists st',
        tool_file_reservation_paths
          (env_at 200) (store_alice_holds "src/*")
          (reserve_args "/repo" "Bob" ["src/foo.ts"] None None)
        = inr (mkReserveResult
                 [mkGranted 2 "src/foo.ts" true "" 3600000201] [], st'))
  /\ pattern_conflict "src/foo.ts" "src/*" = false.
Proof.
  split; [reflexivity |].
  split; [eexists; vm_compute; reflexivity |].
  split; [eexists; vm_compute; reflexivity |].
  reflexivity.
Qed.

(** C1 (exclusion invariant), evaluated on a sequence of two calls.  Alice
    reserves [src/*] at time 100, Bob reserves [src/foo.ts] at time 200; both
    calls grant, and at time 201 the table holds two live exclusive
    reservations of the same project, held by different agents, whose
    patterns overlap. *)
Theorem exclusion_invariant_fails :
  let st1 := commit tool_file_reservation_paths (env_at 100)
               (reserve_args "/repo" "Alice" ["src/*"] None None)
               store_two_agents in
  let st2 := commit tool_file_reservation_paths (env_at 200)
               (reserve_args "/repo" "Bob" ["src/foo.ts"] None None) st1 in
  file_reservations st2
  = [ mkFileReservation 1 1 1 "src/*" 1 "" 100 3600000101;
      mkFileReservation 2 1 2 "src/foo.ts" 1 "" 200 3600000201 ]
  /\ exclusion_violation 201
       (mkFileReservation 1 1 1 "src/*" 1 "" 100 3600000101)
       (mkFileReservation 2 1 2 "src/foo.ts" 1 "" 200 3600000201) = true.
Proof.
  split; vm_compute; reflexivity.
Qed.

(** ** Release *)

Lemma existsb_Z_In x l : existsb (Z.eqb x) l = true <-> In x l.
Proof.
  rewrite existsb_exists. split.
  - intros (y & Hy & E). apply Z.eqb_eq in E. subst y. exact Hy.
  - intros Hx. exists x. split; [exact Hx | apply Z.eqb_refl].
Qed.

Lemma existsb_string_In x l : existsb (String.eqb x) l = true <-> In x l.
Proof.
  rewrite existsb_exists. split.
  - intros (y & Hy & E). apply String.eqb_eq in E. subst y. exact Hy.
  - intros Hx. exists x. split; [exact Hx | apply String.eqb_refl].
Qed.

Lemma filter_split_length {A : Type} (f : A -> bool) (l : list A) :
  (List.length (filter f l) + List.length (filter (fun x => negb (f x)) l)
   = List.length l)%nat.
Proof.
  induction l as [| x l IH]; simpl; [reflexivity |].
  destruct (f x); simpl; lia.
Qed.

Lemma kept_iff (sel : FileReservation -> bool) (P : Prop) rows fr :
  (sel fr = true <-> P) ->
  In fr (filter (fun fr => negb (sel fr)) rows) <-> In fr rows /\ ~ P.
Proof.
  intros HP. rewrite filter_In, negb_true_iff.
  destruct (sel fr); intuition congruence.
Qed.

(** C5 (release precedence and scoping), as the code has it.  A release call
    that returns deletes: the caller's reservations with one of the given
    ids when [file_reservation_ids] is a non-empty list, whatever [paths]
    is; otherwise the caller's reservations whose pattern equals one of the
    given paths when [paths] is a non-empty list; otherwise (each of the two
    missing or empty) all of the caller's reservations.  [released] counts
    the deleted rows, and a reservation of another agent is never deleted. *)
Theorem release_precedence env st args res st' :
  tool_release_file_reservations env st args = inr (res, st') ->
  exists project agent,
    select_project st (get (project_key args) "") = Some project
    /\ select_agent st (get (agent_name args) "") (p_id project) = Some agent
    /\ let mine fr := fr_agent_id fr = a_id agent in
       let kept fr := In fr (file_reservations st') in
       let stored fr := In fr (file_reservations st) in
       (forall ids, file_reservation_ids args = Some ids -> ids <> [] ->
          forall fr, kept fr <-> stored fr /\ ~ (In (fr_id fr) ids /\ mine fr))
       /\ (truthy_list (file_reservation_ids args) = false ->
           forall ps, paths args = Some ps -> ps <> [] ->
             forall fr, kept fr <->
                        stored fr /\ ~ (In (fr_path_pattern fr) ps /\ mine fr))
       /\ (truthy_list (file_reservation_ids args) = false ->
           truthy_list (paths args) = false ->
           forall fr, kept fr <-> stored fr /\ ~ mine fr)
       /\ (forall fr, stored fr -> ~ mine fr -> kept fr)
       /\ (forall fr, kept fr -> stored fr)
       /\ released res
          = Z.of_nat (List.length (file_reservations st))
            - Z.of_nat (List.length (file_reservations st')).
Proof.
  unfold tool_release_file_reservations, resolve_project, resolve_agent.
  intros H. invert_result H. injection H as <- <-.
  exists x1, x2. split; [exact Hx1 |]. split; [exact Hx2 |].
  cbv zeta. cbn [file_reservations released].
  split; [| split; [| split; [| split; [| split]]]].
  - intros ids Hids Hne fr. apply kept_iff.
    unfold release_selector. rewrite Hids.
    destruct ids as [| i ids]; [congruence |].
    cbn [truthy_list get]. rewrite andb_true_iff, existsb_Z_In, Z.eqb_eq. tauto.
  - intros Hno ps Hps Hne fr. apply kept_iff.
    unfold release_selector. rewrite Hno, Hps.
    destruct ps as [| q ps]; [congruence |].
    cbn [truthy_list get]. rewrite andb_true_iff, existsb_string_In, Z.eqb_eq. tauto.
  - intros Hno Hnop fr. apply kept_iff.
    unfold release_selector. rewrite Hno, Hnop. apply Z.eqb_eq.
  - intros fr Hs Hn. apply filter_In. split; [exact Hs |].
    apply negb_true_iff. unfold release_selector.
    apply Z.eqb_neq in Hn.
    destruct (truthy_list (file_reservation_ids args));
      [| destruct (truthy_list (paths args))];
      rewrite ?Hn, ?andb_false_r; reflexivity.
  - intros fr Hk. apply filter_In in Hk. tauto.
  - pose proof (filter_split_length (release_selector args (a_id x2))
                                      (file_reservations st)).
    lia.
Qed.

(** Release precedence on the specification's scenario: with both
    [file_reservation_ids = [1]] and [paths = ["src/b.ts"]] given, only
    reservation 1 goes. *)
Lemma release_precedence_witness :
  exists res st',
    tool_release_file_reservations
      (env_at 500) store_alice_holds_two
      (release_args "/repo" "Alice" (Some ["src/b.ts"]) (Some [1]))
    = inr (res, st')
    /\ In row_b (file_reservations st')
    /\ ~ In row_a (file_reservations st').
Proof.
  destruct (tool_release_file_reservations
              (env_at 500) store_alice_holds_two
              (release_args "/repo" "Alice" (Some ["src/b.ts"]) (Some [1])))
    as [e | [res st']] eqn:H.
  - vm_compute in H. discriminate H.
  - exists res, st'. split; [reflexivity |].
    destruct (release_precedence _ _ _ _ _ H)
      as (project & agent & Hp & Ha & Hids & _).
    vm_compute in Hp. injection Hp as <-.
    vm_compute in Ha. injection Ha as <-.
    specialize (Hids [1] eq_refl ltac:(discriminate)).
    split.
    + apply Hids. split.
      * vm_compute. right; left; reflexivity.
      * intros (Hin & _). simpl in Hin. destruct Hin as [Hin | []]. discriminate Hin.
    + intros Hk. apply Hids in Hk. destruct Hk as (_ & Hn).
      apply Hn. split; [left; reflexivity | reflexivity].
Defined.

(** The claim C5 as stated fails when [file_reservation_ids] is supplied as
    the empty list: the call then releases by [paths] (or, without paths,
    everything the caller holds), so a reservation whose id was not among
    the supplied ids is deleted. *)
Lemma release_by_supplied_ids_only_fails :
  ~ (forall env st args res st' ids,
       tool_release_file_reservations env st args = inr (res, st') ->
       file_reservation_ids args = Some ids ->
       forall fr, In fr (file_reservations st) ->
                  ~ In fr (file_reservations st') ->
                  In (fr_id fr) ids).
Proof.
  intros Claim.
  destruct (tool_release_file_reservations
              (env_at 500) (store_alice_holds "src/a.ts")
              (release_args "/repo" "Alice" (Some ["src/a.ts"]) (Some [])))
    as [e | [res st']] eqn:H.
  - vm_compute in H. discriminate H.
  - apply (Claim _ _ _ _ _ [] H eq_refl row_a).
    + vm_compute. left; reflexivity.
    + vm_compute in H. injection H as _ <-. simpl. tauto.
Qed.

(** ** Delivery *)

Lemma select_agent_some st n pid a :
  select_agent st n pid = Some a ->
  In a (agents st) /\ a_name a = n /\ a_project_id a = pid.
Proof.
  unfold select_agent. intros H. apply find_some in H.
  destruct H as (Hin & Hb). apply andb_true_iff in Hb. destruct Hb as (Hn & Hp).
  apply String.eqb_eq in Hn. apply Z.eqb_eq in Hp. tauto.
Qed.

Lemma nodupb_map_inj {A : Type} (f : A -> Z) (l : list A) a b :
  nodupb Z.eqb (map f l) = true ->
  In a l -> In b l -> f a = f b -> a = b.
Proof.
  induction l as [| x l IH]; simpl; [tauto |].
  intros N Ha Hb E. apply andb_true_iff in N. destruct N as (Nx & Nl).
  apply negb_true_iff in Nx.
  assert (Hno : forall y, In y l -> f y <> f x).
  { intros y Hy Hxy.
    assert (X : existsb (Z.eqb (f x)) (map f l) = true)
      by (apply existsb_Z_In; rewrite <- Hxy; apply in_map; exact Hy).
    congruence. }
  destruct Ha as [-> | Ha], Hb as [-> | Hb]; trivial.
  - exfalso. apply (Hno b Hb). symmetry; exact E.
  - exfalso. apply (Hno a Ha). exact E.
  - apply IH; assumption.
Qed.

Lemma resolved_recipients_In st pid names a :
  In a (resolved_recipients st pid names) <->
  exists n, In n names /\ select_agent st n pid = Some a.
Proof.
  unfold resolved_recipients. rewrite in_flat_map. split.
  - intros (n & Hn & Ha). exists n. split; [exact Hn |].
    destruct (select_agent st n pid) as [a' |]; simpl in Ha; [| tauto].
    destruct Ha as [-> | []]. reflexivity.
  - intros (n & Hn & Ha). exists n. split; [exact Hn |].
    rewrite Ha. left; reflexivity.
Qed.

(** Distinct resolving names are distinct agents. *)
Lemma resolved_ids_nodup st pid names :
  wf st ->
  NoDup (filter (resolves st pid) names) ->
  NoDup (map a_id (resolved_recipients st pid names)).
Proof.
  intros W. destruct (wfb_parts st W) as (Nid & _).
  induction names as [| n names IH]; simpl; intros N; [constructor |].
  unfold resolves at 1 in N.
  destruct (select_agent st n pid) as [a |] eqn:Ha; simpl.
  - inversion N as [| ? ? Hnotin N']; subst. constructor; [| apply IH, N'].
    intros Hin. apply in_map_iff in Hin. destruct Hin as (a' & Eid & Hin').
    apply resolved_recipients_In in Hin'. destruct Hin' as (n' & Hn' & Ha').
    destruct (select_agent_some _ _ _ _ Ha) as (Hain & Hname & _).
    destruct (select_agent_some _ _ _ _ Ha') as (Hain' & Hname' & _).
    assert (a' = a) by (eapply nodupb_map_inj; eassumption).
    subst a'. apply Hnotin. apply filter_In. split.
    + congruence.
    + unfold resolves. rewrite Ha. reflexivity.
  - apply IH, N.
Qed.

Lemma insert_message_recipient_fresh st rs mid aid :
  (forall r, In r rs -> ~ (mr_message_id r = mid /\ mr_agent_id r = aid)) ->
  insert_message_recipient (with_recipients st rs) mid aid
  = inr (with_recipients st (rs ++ [mkRecipient mid aid None None])).
Proof.
  intros Hfresh. unfold insert_message_recipient.
  replace (existsb _ (message_recipients (with_recipients st rs))) with false.
  - reflexivity.
  - symmetry. apply not_true_is_false. intros E. apply existsb_exists in E.
    destruct E as (r & Hr & Hk). apply andb_true_iff in Hk.
    rewrite !Z.eqb_eq in Hk. exact (Hfresh r Hr Hk).
Qed.

(** The recipient loop succeeds when no record of the message exists for
    the agents still to come and no agent comes twice: it appends one record
    for every name that resolves and none for the others. *)
Lemma add_recipients_spec st pid mid names : forall rs,
  (forall a r, In a (resolved_recipients st pid names) -> In r rs ->
               ~ (mr_message_id r = mid /\ mr_agent_id r = a_id a)) ->
  NoDup (map a_id (resolved_recipients st pid names)) ->
  add_recipients (with_recipients st rs) pid mid names
  = inr (with_recipients st
           (rs ++ map (fun a => mkRecipient mid (a_id a) None None)
                      (resolved_recipients st pid names))).
Proof.
  induction names as [| n names IH]; intros rs Hfresh N; simpl.
  - rewrite app_nil_r. reflexivity.
  - change (select_agent (with_recipients st rs) n pid)
      with (select_agent st n pid).
    simpl in Hfresh, N.
    destruct (select_agent st n pid) as [a |] eqn:Ha; simpl in *.
    + rewrite insert_message_recipient_fresh
        by (intros r Hr; apply Hfresh; [left; reflexivity | exact Hr]).
      simpl. inversion N as [| ? ? Hnotin N']; subst.
      rewrite IH; [rewrite <- app_assoc; reflexivity | | exact N'].
      intros a' r Ha' Hr. apply in_app_or in Hr. destruct Hr as [Hr | [<- | []]].
      * apply Hfresh; [right; exact Ha' | exact Hr].
      * simpl. intros (_ & E). apply Hnotin. rewrite E.
        apply in_map. exact Ha'.
    + apply IH; assumption.
Qed.

(** C6 (lenient delivery), as the code has it.  A [send_message] call that
    passes validation, resolves its project and its sender, and names no
    resolving recipient twice returns without error: it appends the message
    row, and it appends one delivery record (unread, unacknowledged) for every
    recipient name that resolves, in list order, and none for a name that
    does not resolve. *)
Theorem lenient_delivery env st args project sender :
  wf st ->
  truthy_str (project_key args) = true ->
  truthy_str (sender_name args) = true ->
  truthy_list (to args) = true ->
  select_project st (get (project_key args) "") = Some project ->
  select_agent st (get (sender_name args) "") (p_id project) = Some sender ->
  NoDup (filter (resolves st (p_id project)) (get (to args) [])) ->
  exists res st',
    tool_send_message env st args = inr (res, st')
    /\ sr_id res = seq_messages st + 1
    /\ (exists row,
          messages st' = messages st ++ [row]
          /\ m_id row = seq_messages st + 1
          /\ m_project_id row = p_id project
          /\ m_sender_id row = a_id sender)
    /\ message_recipients st'
       = message_recipients st
         ++ map (fun a => mkRecipient (seq_messages st + 1) (a_id a) None None)
                (resolved_recipients st (p_id project) (get (to args) [])).
Proof.
  intros W Hk Hs Ht Hp Ha N.
  unfold tool_send_message, resolve_project.
  rewrite Hk, Hs, Ht, Hp; simpl. rewrite Ha; simpl.
  match goal with
  | |- context [add_recipients ?s _ _ _] => set (st1 := s)
  end.
  pose proof (add_recipients_spec st1 (p_id project) (seq_messages st + 1)
                (get (to args) []) (message_recipients st)) as L.
  change (with_recipients st1 (message_recipients st)) with st1 in L.
  change (resolved_recipients st1 (p_id project) (get (to args) []))
    with (resolved_recipients st (p_id project) (get (to args) [])) in L.
  rewrite L.
  - simpl. eexists; eexists. split; [reflexivity |]. simpl.
    split; [reflexivity |]. split; [| reflexivity].
    eexists. split; [reflexivity |]. simpl. tauto.
  - intros a r _ Hr (Hm & _).
    destruct (wfb_parts st W) as (_ & _ & _ & R & _).
    rewrite forallb_forall in R. apply R, id_in_range_spec in Hr. lia.
  - apply resolved_ids_nodup; assumption.
Qed.

(** Bob writes to Alice and to Ghost, who is not registered: the message is
    created and delivered to Alice alone. *)
Lemma lenient_delivery_witness :
  exists res st',
    tool_send_message (env_at 300) store_two_agents
                      (send_args "/repo" "Bob" ["Alice"; "Ghost"])
    = inr (res, st')
    /\ message_recipients st' = [mkRecipient 1 1 None None].
Proof.
  destruct (lenient_delivery
              (env_at 300) store_two_agents
              (send_args "/repo" "Bob" ["Alice"; "Ghost"])
              (mkProject 1 "_repo" "/repo" 0)
              (mkAgent 2 "Bob" "unknown" "unknown" "" 20 20 1)
              eq_refl eq_refl eq_refl eq_refl eq_refl eq_refl)
    as (res & st' & H & _ & _ & Hr).
  - vm_compute. constructor; [simpl; tauto | constructor].
  - exists res, st'. split; [exact H |]. rewrite Hr. reflexivity.
Defined.

(** The claim C6 as stated fails when a resolving name occurs twice in [to]:
    the second INSERT violates the primary key of [message_recipients], the
    call raises, and nothing is committed, whether or not other names are
    unresolved. *)
Lemma lenient_delivery_fails_on_repeated_recipient :
  ~ (forall env st args project sender,
       wf st ->
       truthy_str (project_key args) = true ->
       truthy_str (sender_name args) = true ->
       truthy_list (to args) = true ->
       select_project st (get (project_key args) "") = Some project ->
       select_agent st (get (sender_name args) "") (p_id project) = Some sender ->
       exists res st', tool_send_message env st args = inr (res, st')).
Proof.
  intros Claim.
  destruct (Claim (env_at 300) store_two_agents
                  (send_args "/repo" "Bob" ["Alice"; "Ghost"; "Alice"])
                  (mkProject 1 "_repo" "/repo" 0)
                  (mkAgent 2 "Bob" "unknown" "unknown" "" 20 20 1)
                  eq_refl eq_refl eq_refl eq_refl eq_refl eq_refl)
    as (res & st' & H).
  vm_compute in H. discriminate H.
Qed.

(** C10.  Whenever [send_message] returns, the [sent_to] field of its result
    is the requested [to] list itself: it is not filtered by resolution. *)
Theorem sent_to_is_request env st args res st' :
  tool_send_message env st args = inr (res, st') ->
  to args = Some (sent_to res).
Proof.
  unfold tool_send_message. intros H. invert_result H.
  injection H as <- _. simpl.
  apply truthy_list_get in Hx1. tauto.
Qed.

(** Ghost received nothing and is listed in [sent_to] all the same. *)
Lemma sent_to_is_request_witness :
  exists res st',
    tool_send_message (env_at 300) store_two_agents
                      (send_args "/repo" "Bob" ["Alice"; "Ghost"])
    = inr (res, st')
    /\ sent_to res = ["Alice"; "Ghost"]
    /\ resolves store_two_agents 1 "Ghost" = false
    /\ map mr_agent_id (message_recipients st') = [1].
Proof.
  destruct (tool_send_message (env_at 300) store_two_agents
                              (send_args "/repo" "Bob" ["Alice"; "Ghost"]))
    as [e | [res st']] eqn:H.
  - vm_compute in H. discriminate H.
  - exists res, st'. split; [reflexivity |].
    pose proof (sent_to_is_request _ _ _ _ _ H) as Hto.
    injection Hto as Hto. split; [symmetry; exact Hto |].
    split; [reflexivity |].
    vm_compute in H. injection H as _ <-. reflexivity.
Defined.

(** ** Read and acknowledgement marks *)

Lemma update_recipients_deliveries f st mid aid :
  (forall r, recipient_key (f r) = recipient_key r) ->
  deliveries (update_recipients f st) mid aid = map f (deliveries st mid aid).
Proof.
  intros Hkey. unfold deliveries, update_recipients; simpl.
  induction (message_recipients st) as [| r rs IH]; simpl; [reflexivity |].
  pose proof (Hkey r) as K. unfold recipient_key in K. injection K as K1 K2.
  rewrite K1, K2.
  destruct ((mr_message_id r =? mid) && (mr_agent_id r =? aid)); simpl;
    rewrite IH; reflexivity.
Qed.

Lemma set_read_at_key now mid aid r :
  recipient_key (set_read_at now mid aid r) = recipient_key r.
Proof. unfold set_read_at. destruct (_ && _); reflexivity. Qed.

Lemma set_acked_at_key now mid aid r :
  recipient_key (set_acked_at now mid aid r) = recipient_key r.
Proof. unfold set_acked_at. destruct (_ && _); reflexivity. Qed.

Lemma set_read_at_hit now mid aid r :
  (mr_message_id r =? mid) && (mr_agent_id r =? aid) = true ->
  set_read_at now mid aid r
  = mkRecipient (mr_message_id r) (mr_agent_id r) (Some now) (mr_acked_at r).
Proof. unfold set_read_at. intros ->. reflexivity. Qed.

Lemma set_acked_at_hit now mid aid r :
  (mr_message_id r =? mid) && (mr_agent_id r =? aid) = true ->
  set_acked_at now mid aid r
  = mkRecipient (mr_message_id r) (mr_agent_id r) (mr_read_at r) (Some now).
Proof. unfold set_acked_at. intros ->. reflexivity. Qed.

(** Under the primary key, a pair has at most one delivery record. *)
Lemma deliveries_unique st r :
  wf st -> In r (message_recipients st) ->
  deliveries st (mr_message_id r) (mr_agent_id r) = [r].
Proof.
  intros W. destruct (wfb_parts st W) as (_ & _ & N & _).
  unfold deliveries. revert N.
  induction (message_recipients st) as [| x rs IH]; simpl; [tauto |].
  intros N Hin. apply andb_true_iff in N. destruct N as (Nx & Nrs).
  apply negb_true_iff in Nx.
  assert (Hno : forall y, In y rs ->
                          (mr_message_id y =? mr_message_id x)
                          && (mr_agent_id y =? mr_agent_id x) = false).
  { intros y Hy. apply not_true_is_false. intros E.
    assert (X : existsb (pair_eqb (recipient_key x)) (map recipient_key rs) = true).
    { apply existsb_exists. exists (recipient_key y).
      split; [apply in_map; exact Hy |].
      unfold pair_eqb, recipient_key; simpl.
      apply andb_true_iff in E. rewrite !Z.eqb_eq in E. destruct E as (-> & ->).
      rewrite !Z.eqb_refl. reflexivity. }
    congruence. }
  destruct Hin as [-> | Hin].
  - rewrite !Z.eqb_refl; simpl. f_equal.
    clear - Hno. induction rs as [| y rs IH]; simpl; [reflexivity |].
    rewrite (Hno y (or_introl eq_refl)). apply IH.
    intros z Hz. apply Hno. right; exact Hz.
  - rewrite Z.eqb_sym, (Z.eqb_sym (mr_agent_id x)), (Hno r Hin).
    apply IH; assumption.
Qed.



(** C8 (idempotent marks).  For an agent that has a delivery record of the
    message, marking the message read twice succeeds both times and leaves
    exactly one delivery record for the pair, its [read_at] being the
    timestamp written by the second call; the number of records does not
    change.  [acknowledge_message] does the same with [acked_at]. *)
Theorem idempotent_marks env1 env2 st args project agent r :
  wf st ->
  mark_args_present args = true ->
  select_project st (get (project_key args) "") = Some project ->
  select_agent st (get (agent_name args) "") (p_id project) = Some agent ->
  In r (message_recipients st) ->
  mr_message_id r = get (message_id args) 0 ->
  mr_agent_id r = a_id agent ->
  let mid := get (message_id args) 0 in
  let aid := a_id agent in
  (exists res1 st1 res2 st2,
     tool_mark_message_read env1 st args = inr (res1, st1)
     /\ tool_mark_message_read env2 st1 args = inr (res2, st2)
     /\ deliveries st1 mid aid
        = [mkRecipient mid aid (Some (now_at env1 0)) (mr_acked_at r)]
     /\ deliveries st2 mid aid
        = [mkRecipient mid aid (Some (now_at env2 0)) (mr_acked_at r)]
     /\ List.length (message_recipients st2) = List.length (message_recipients st))
  /\ (exists res1 st1 res2 st2,
        tool_acknowledge_message env1 st args = inr (res1, st1)
        /\ tool_acknowledge_message env2 st1 args = inr (res2, st2)
        /\ deliveries st1 mid aid
           = [mkRecipient mid aid (mr_read_at r) (Some (now_at env1 0))]
        /\ deliveries st2 mid aid
           = [mkRecipient mid aid (mr_read_at r) (Some (now_at env2 0))]
        /\ List.length (message_recipients st2) = List.length (message_recipients st)).
Proof.
  intros W Hargs Hp Ha Hin Hmid Haid mid aid.
  pose proof (deliveries_unique st r W Hin) as D. rewrite Hmid, Haid in D.
  fold mid aid in D.
  assert (Hm : (mr_message_id r =? mid) && (mr_agent_id r =? aid) = true).
  { apply andb_true_iff. split; apply Z.eqb_eq; assumption. }
  split.
  - exists (mkMarkResult mid (now_at env1 1)).
    exists (update_recipients (set_read_at (now_at env1 0) mid aid) st).
    exists (mkMarkResult mid (now_at env2 1)).
    exists (update_recipients (set_read_at (now_at env2 0) mid aid)
              (update_recipients (set_read_at (now_at env1 0) mid aid) st)).
    unfold tool_mark_message_read, resolve_project, resolve_agent.
    rewrite Hargs; simpl. unfold select_project; simpl.
    fold (select_project st (get (project_key args) "")). rewrite Hp; simpl.
    unfold select_agent; simpl.
    fold (select_agent st (get (agent_name args) "") (p_id project)).
    rewrite Ha; simpl.
    split; [reflexivity |]. split; [reflexivity |].
    rewrite !update_recipients_deliveries by apply set_read_at_key.
    rewrite D. cbn [map].
    rewrite (set_read_at_hit (now_at env1 0)) by exact Hm.
    rewrite (set_read_at_hit (now_at env2 0)) by exact Hm.
    cbn [mr_message_id mr_agent_id mr_acked_at].
    rewrite Hmid, Haid. fold mid aid.
    split; [reflexivity |]. split; [reflexivity |].
    rewrite !length_map. reflexivity.
  - exists (mkMarkResult mid (now_at env1 0)).
    exists (update_recipients (set_acked_at (now_at env1 0) mid aid) st).
    exists (mkMarkResult mid (now_at env2 0)).
    exists (update_recipients (set_acked_at (now_at env2 0) mid aid)
              (update_recipients (set_acked_at (now_at env1 0) mid aid) st)).
    unfold tool_acknowledge_message, resolve_project, resolve_agent.
    rewrite Hargs; simpl. unfold select_project; simpl.
    fold (select_project st (get (project_key args) "")). rewrite Hp; simpl.
    unfold select_agent; simpl.
    fold (select_agent st (get (agent_name args) "") (p_id project)).
    rewrite Ha; simpl.
    split; [reflexivity |]. split; [reflexivity |].
    rewrite !update_recipients_deliveries by apply set_acked_at_key.
    rewrite D. cbn [map].
    rewrite (set_acked_at_hit (now_at env1 0)) by exact Hm.
    rewrite (set_acked_at_hit (now_at env2 0)) by exact Hm.
    cbn [mr_message_id mr_agent_id mr_read_at].
    rewrite Hmid, Haid. fold mid aid.
    split; [reflexivity |]. split; [reflexivity |].
    rewrite !length_map. reflexivity.
Qed.

(** Alice marks message 1 read at 400 and again at 500: one record, read at
    500. *)
Lemma idempotent_marks_witness :
  exists res1 st1 res2 st2,
    tool_mark_message_read (env_at 400) store_one_message
                           (mark_args "/repo" "Alice" 1) = inr (res1, st1)
    /\ tool_mark_message_read (env_at 500) st1
                              (mark_args "/repo" "Alice" 1) = inr (res2, st2)
    /\ deliveries st2 1 1 = [mkRecipient 1 1 (Some 500) None].
Proof.
  destruct (idempotent_marks
              (env_at 400) (env_at 500) store_one_message
              (mark_args "/repo" "Alice" 1)
              (mkProject 1 "_repo" "/repo" 0)
              (mkAgent 1 "Alice" "unknown" "unknown" "" 10 10 1)
              (mkRecipient 1 1 None None)
              eq_refl eq_refl eq_refl eq_refl (or_introl eq_refl) eq_refl eq_refl)
    as ((res1 & st1 & res2 & st2 & H1 & H2 & _ & D & _) & _).
  exists res1, st1, res2, st2.
  split; [exact H1 |]. split; [exact H2 |]. exact D.
Defined.



(** ** Errors *)

Ltac case_truthy :=
  repeat match goal with
    | |- context [truthy_str ?o] =>
        let E := fresh "E" in destruct (truthy_str o) eqn:E; cbn
    | |- context [truthy_list ?o] =>
        let E := fresh "E" in destruct (truthy_list o) eqn:E; cbn
    | |- context [truthy_int ?o] =>
        let E := fresh "E" in destruct (truthy_int o) eqn:E; cbn
    end.

Lemma missing_argument_error env st tool args :
  In tool tool_names ->
  required_present tool args = false ->
  exists m, error_of env st tool args = Some (mkMCPError (-32602) m)
            /\ In m validation_messages.
Proof.
  intros Htool.
  cbn in Htool.
  repeat (destruct Htool as [<- | Htool]); [.. | contradiction];
    unfold error_of, mcp_endpoint, required_present; cbn;
    unfold as_value, tool_ensure_project, tool_register_agent, tool_send_message,
      tool_fetch_inbox, tool_mark_message_read, tool_summarize_thread,
      tool_file_reservation_paths, tool_release_file_reservations,
      tool_acknowledge_message, tool_search_messages, mark_args_present;
    case_truthy; intros Hreq; try discriminate Hreq;
    eexists; (split; [reflexivity | cbn; tauto]).
Qed.

Ltac unfold_tools :=
  unfold as_value, tool_ensure_project, tool_register_agent, tool_send_message,
    tool_fetch_inbox, tool_mark_message_read, tool_summarize_thread,
    tool_file_reservation_paths, tool_release_file_reservations,
    tool_acknowledge_message, tool_search_messages, mark_args_present,
    resolve_project, resolve_agent.

Lemma unresolved_project_error env st tool args :
  In tool tool_names ->
  tool <> "ensure_project" ->
  required_present tool args = true ->
  select_project st (get (project_key args) "") = None ->
  error_of env st tool args
  = Some (mkMCPError (-32602) ("Project not found: " +++ get (project_key args) "")).
Proof.
  intros Htool Hne.
  cbn in Htool.
  repeat (destruct Htool as [<- | Htool]); [.. | contradiction];
    try congruence;
    unfold error_of, mcp_endpoint, required_present; cbn;
    unfold_tools;
    case_truthy; intros Hreq Hp; try discriminate Hreq;
    rewrite Hp; reflexivity.
Qed.

Lemma unresolved_agent_error env st tool args project pre nm :
  In tool tool_names ->
  required_present tool args = true ->
  select_project st (get (project_key args) "") = Some project ->
  acting_agent tool args = Some (pre, nm) ->
  select_agent st nm (p_id project) = None ->
  error_of env st tool args = Some (mkMCPError (-32602) (pre +++ nm)).
Proof.
  intros Htool.
  cbn in Htool.
  repeat (destruct Htool as [<- | Htool]); [.. | contradiction];
    unfold error_of, mcp_endpoint, required_present, acting_agent; cbn;
    unfold_tools;
    case_truthy; intros Hreq Hp Hact Ha; try discriminate Hreq;
    try discriminate Hact;
    injection Hact as <- <-; rewrite Hp; cbn; rewrite Ha; reflexivity.
Qed.

Lemma validation_messages_not_not_found m :
  In m validation_messages -> is_not_found_message m = false.
Proof.
  cbn. intros H.
  repeat (destruct H as [<- | H]); [.. | contradiction]; reflexivity.
Qed.

Lemma not_found_messages pre nm :
  In pre ["Project not found: "; "Agent not found: "; "Sender agent not found: "] ->
  is_not_found_message (pre +++ nm) = true.
Proof.
  cbn. intros H.
  repeat (destruct H as [<- | H]); [.. | contradiction];
    unfold is_not_found_message; cbn; rewrite ?prefix_correct; cbn.
  - destruct nm; reflexivity.
  - destruct nm; reflexivity.
  - destruct nm; reflexivity.
Qed.

(** C7 (error kinds), as the code has it.  For every operation, a call with
    a missing or empty required argument and a call whose project or agent
    does not resolve are both answered with the JSON-RPC error code -32602
    (the handlers raise [ValueError] for both).  The two differ in the
    message text only: the message of the first is one of the fixed
    "... required" texts, the message of the second starts with
    "Project not found: ", "Agent not found: " or "Sender agent not found: ",
    and no text is of both forms. *)
Theorem error_kinds env st tool args :
  In tool tool_names ->
  (required_present tool args = false ->
   exists m,
     error_of env st tool args = Some (mkMCPError (-32602) m)
     /\ In m validation_messages
     /\ is_not_found_message m = false)
  /\ (required_present tool args = true ->
      tool <> "ensure_project" ->
      select_project st (get (project_key args) "") = None ->
      exists m,
        error_of env st tool args = Some (mkMCPError (-32602) m)
        /\ m = "Project not found: " +++ get (project_key args) ""
        /\ is_not_found_message m = true
        /\ ~ In m validation_messages)
  /\ (forall project pre nm,
        required_present tool args = true ->
        select_project st (get (project_key args) "") = Some project ->
        acting_agent tool args = Some (pre, nm) ->
        select_agent st nm (p_id project) = None ->
        exists m,
          error_of env st tool args = Some (mkMCPError (-32602) m)
          /\ m = pre +++ nm
          /\ is_not_found_message m = true
          /\ ~ In m validation_messages).
Proof.
  intros Htool.
  assert (Hsep : forall m, is_not_found_message m = true -> ~ In m validation_messages).
  { intros m Hm Hin. apply validation_messages_not_not_found in Hin. congruence. }
  split; [| split].
  - intros Hreq.
    destruct (missing_argument_error env st tool args Htool Hreq) as (m & He & Hin).
    exists m. repeat split; trivial. apply validation_messages_not_not_found, Hin.
  - intros Hreq Hne Hp. eexists. split; [| split; [reflexivity |]].
    + apply unresolved_project_error; assumption.
    + assert (Hm : is_not_found_message
                     ("Project not found: " +++ get (project_key args) "") = true)
        by (apply not_found_messages; cbn; tauto).
      split; [exact Hm | apply Hsep, Hm].
  - intros project pre nm Hreq Hp Hact Ha. eexists. split; [| split; [reflexivity |]].
    + eapply unresolved_agent_error; eassumption.
    + assert (Hm : is_not_found_message (pre +++ nm) = true).
      { apply not_found_messages. unfold acting_agent in Hact.
        destruct (tool =? "send_message")%string;
          [| destruct (_ || _)];
          try discriminate Hact; injection Hact as <- _; cbn; tauto. }
      split; [exact Hm | apply Hsep, Hm].
Qed.

(** [send_message] without arguments, and [send_message] for a project that
    does not exist: the same code, different messages. *)
Lemma error_kinds_witness :
  error_of (env_at 300) store_two_agents "send_message" no_args
  = Some (mkMCPError (-32602) "project_key is required")
  /\ error_of (env_at 300) store_two_agents "send_message"
              (send_args "/nowhere" "Bob" ["Alice"])
     = Some (mkMCPError (-32602) "Project not found: /nowhere").
Proof.
  assert (Htool : In "send_message" tool_names) by (cbn; tauto).
  split.
  - destruct (proj1 (error_kinds (env_at 300) store_two_agents "send_message"
                                 no_args Htool) eq_refl)
      as (m & He & _).
    rewrite He. vm_compute in He. injection He as <-. reflexivity.
  - destruct (proj1 (proj2 (error_kinds (env_at 300) store_two_agents "send_message"
                                        (send_args "/nowhere" "Bob" ["Alice"]) Htool))
                    eq_refl ltac:(discriminate) eq_refl)
      as (m & He & Hm & _).
    rewrite He, Hm. reflexivity.
Defined.

(** The claim C7 as stated fails: the error a caller gets for a missing
    argument and the one it gets for an unresolved project carry the same
    code. *)
Lemma error_kinds_not_distinct :
  ~ (forall env st tool args1 args2 e1 e2,
       In tool tool_names ->
       required_present tool args1 = false ->
       required_present tool args2 = true ->
       select_project st (get (project_key args2) "") = None ->
       error_of env st tool args1 = Some e1 ->
       error_of env st tool args2 = Some e2 ->
       code e1 <> code e2).
Proof.
  intros Claim.
  apply (Claim (env_at 300) store_two_agents "send_message"
               no_args (send_args "/nowhere" "Bob" ["Alice"])
               (mkMCPError (-32602) "project_key is required")
               (mkMCPError (-32602) "Project not found: /nowhere")).
  - cbn; tauto.
  - reflexivity.
  - reflexivity.
  - reflexivity.
  - reflexivity.
  - reflexivity.
  - reflexivity.
Qed.

(** ** The store invariants hold in every reachable store *)

Lemma nodupb_NoDup {A : Type} (eqb : A -> A -> bool) (l : list A) :
  (forall x y, eqb x y = true <-> x = y) ->
  nodupb eqb l = true <-> NoDup l.
Proof.
  intros Heq. induction l as [| x l IH]; simpl.
  - split; [constructor | reflexivity].
  - rewrite andb_true_iff, negb_true_iff, IH, NoDup_cons_iff.
    assert (E : existsb (eqb x) l = false <-> ~ In x l).
    { rewrite <- not_true_iff_false, existsb_exists. split.
      - intros H Hin. apply H. exists x. split; [exact Hin | apply Heq; reflexivity].
      - intros H (y & Hy & Hxy). apply Heq in Hxy. subst y. exact (H Hy). }
    rewrite E. tauto.
Qed.

Lemma pair_eqb_eq x y : pair_eqb x y = true <-> x = y.
Proof.
  unfold pair_eqb. destruct x as [a b], y as [c d]; simpl.
  rewrite andb_true_iff, !Z.eqb_eq. split; [intros (-> & ->) | intros H; injection H]; auto.
Qed.

Lemma wf_iff st :
  wf st <->
  (0 <= seq_agents st /\ 0 <= seq_messages st /\ 0 <= seq_file_reservations st)
  /\ NoDup (map a_id (agents st))
  /\ (forall a, In a (agents st) -> 1 <= a_id a <= seq_agents st)
  /\ NoDup (map recipient_key (message_recipients st))
  /\ (forall r, In r (message_recipients st) ->
                1 <= mr_message_id r <= seq_messages st)
  /\ NoDup (map fr_id (file_reservations st))
  /\ (forall fr, In fr (file_reservations st) ->
                 1 <= fr_id fr <= seq_file_reservations st)
  /\ (forall fr, In fr (file_reservations st) ->
                 exists a, In a (agents st) /\ a_id a = fr_agent_id fr).
Proof.
  unfold wf, wfb. rewrite !andb_true_iff, !forallb_forall, !Z.leb_le.
  rewrite !(nodupb_NoDup Z.eqb) by apply Z.eqb_eq.
  rewrite (nodupb_NoDup pair_eqb) by apply pair_eqb_eq.
  assert (X : forall fr,
             existsb (fun a => a_id a =? fr_agent_id fr) (agents st) = true
             <-> exists a, In a (agents st) /\ a_id a = fr_agent_id fr).
  { intros fr. rewrite existsb_exists. split; intros (a & Ha & E); exists a;
      (split; [exact Ha | apply Z.eqb_eq; exact E]). }
  split.
  - intros (((((((((S1 & S2) & S3) & H1) & H2) & H3) & H4) & H5) & H6) & H7).
    split; [tauto |]. split; [exact H1 |].
    split; [intros a Ha; apply id_in_range_spec, H2, Ha |].
    split; [exact H3 |].
    split; [intros r Hr; apply id_in_range_spec, H4, Hr |].
    split; [exact H5 |].
    split; [intros fr Hfr; apply id_in_range_spec, H6, Hfr |].
    intros fr Hfr. apply X, H7, Hfr.
  - intros ((S1 & S2 & S3) & H1 & H2 & H3 & H4 & H5 & H6 & H7).
    repeat split; trivial.
    + intros a Ha. apply id_in_range_spec, H2, Ha.
    + intros r Hr. apply id_in_range_spec, H4, Hr.
    + intros fr Hfr. apply id_in_range_spec, H6, Hfr.
    + intros fr Hfr. apply X, H7, Hfr.
Qed.

Lemma NoDup_snoc {A : Type} (l : list A) (x : A) :
  NoDup l -> ~ In x l -> NoDup (l ++ [x]).
Proof.
  intros N Hx. apply NoDup_app; [exact N | repeat constructor; simpl; tauto |].
  intros a Ha [<- | []]. exact (Hx Ha).
Qed.

(** Deleting rows keeps the reservation ids distinct. *)
Lemma reservation_ids_filter (keep : FileReservation -> bool) rows :
  NoDup (map fr_id rows) -> NoDup (map fr_id (filter keep rows)).
Proof.
  intros N. induction rows as [| fr rows IH]; simpl in *; [constructor |].
  apply NoDup_cons_iff in N. destruct N as (Hfr & N).
  destruct (keep fr); simpl; [| apply IH, N].
  constructor; [| apply IH, N].
  intros Hin. apply Hfr. apply in_map_iff in Hin. destruct Hin as (y & E & Hy).
  apply filter_In in Hy. rewrite <- E. apply in_map. tauto.
Qed.

Lemma wf_empty : wf empty_store.
Proof. reflexivity. Qed.

Lemma ensure_project_wf : handler_preserves wf tool_ensure_project.
Proof.
  intros env st args r st' W H. unfold tool_ensure_project in H.
  invert_result H.
  destruct (select_project st (get (human_key args) "")).
  - injection H as _ <-. exact W.
  - invert_result H. injection H as _ <-. exact W.
Qed.

Lemma touch_agent_id now id a : a_id (touch_agent now id a) = a_id a.
Proof. unfold touch_agent. destruct (a_id a =? id); reflexivity. Qed.

Ltac split_wf :=
  apply wf_iff;
  refine (conj _ (conj _ (conj _ (conj _ (conj _ (conj _ (conj _ _)))))));
  cbn [projects agents messages message_recipients file_reservations
       seq_projects seq_agents seq_messages seq_file_reservations
       with_recipients update_recipients].

Lemma register_agent_wf : handler_preserves wf tool_register_agent.
Proof.
  intros env st args r st' W H. unfold tool_register_agent in H.
  invert_result H.
  apply wf_iff in W. destruct W as (W0 & W1 & W2 & W3 & W4 & W5 & W6 & W7).
  match type of H with
  | context [select_agent st ?n ?p] =>
      destruct (select_agent st n p) as [existing |] eqn:Hsel
  end; injection H as _ <-; split_wf; trivial.
  - rewrite map_map. erewrite map_ext; [exact W1 |].
    intros a. apply touch_agent_id.
  - intros a Ha. apply in_map_iff in Ha. destruct Ha as (a0 & <- & Ha0).
    rewrite touch_agent_id. apply W2, Ha0.
  - intros fr Hfr. destruct (W7 fr Hfr) as (a & Ha & E).
    exists (touch_agent (now_at env 0) (a_id existing) a). split.
    + apply in_map. exact Ha.
    + rewrite touch_agent_id. exact E.
  - lia.
  - rewrite map_app; simpl. apply NoDup_snoc; [exact W1 |].
    intros Hin. apply in_map_iff in Hin. destruct Hin as (a & E & Ha).
    apply W2 in Ha. lia.
  - intros a Ha. apply in_app_or in Ha. destruct Ha as [Ha | [<- | []]].
    + apply W2 in Ha. lia.
    + simpl. lia.
  - intros fr Hfr. destruct (W7 fr Hfr) as (a & Ha & E).
    exists a. split; [apply in_or_app; left; exact Ha | exact E].
Qed.

Lemma with_recipients_same st : with_recipients st (message_recipients st) = st.
Proof. destruct st; reflexivity. Qed.

Lemma insert_message_recipient_inr st mid aid st' :
  insert_message_recipient st mid aid = inr st' ->
  st' = with_recipients st (message_recipients st ++ [mkRecipient mid aid None None])
  /\ ~ In (mid, aid) (map recipient_key (message_recipients st)).
Proof.
  unfold insert_message_recipient. intros H. invert_result H.
  injection H as <-. split; [reflexivity |].
  apply negb_true_iff in Hx. intros Hin.
  apply in_map_iff in Hin. destruct Hin as (r & E & Hr).
  unfold recipient_key in E. injection E as E1 E2.
  assert (X : existsb (fun r => (mr_message_id r =? mid) && (mr_agent_id r =? aid))
                      (message_recipients st) = true).
  { apply existsb_exists. exists r. split; [exact Hr |].
    rewrite E1, E2, !Z.eqb_refl. reflexivity. }
  congruence.
Qed.

(** Whenever the recipient loop returns, it has appended records of the
    message and kept the primary key. *)
Lemma add_recipients_inr pid mid names : forall st st',
  add_recipients st pid mid names = inr st' ->
  exists extra,
    st' = with_recipients st (message_recipients st ++ extra)
    /\ Forall (fun r => mr_message_id r = mid) extra
    /\ (NoDup (map recipient_key (message_recipients st)) ->
        NoDup (map recipient_key (message_recipients st ++ extra))).
Proof.
  induction names as [| n names IH]; intros st st' H; simpl in H.
  - injection H as <-. exists []. rewrite app_nil_r, with_recipients_same.
    repeat split; [constructor | trivial].
  - destruct (select_agent st n pid) as [a |]; [| apply IH, H].
    apply bind_inr in H. destruct H as (st1 & Hins & H).
    apply insert_message_recipient_inr in Hins. destruct Hins as (-> & Hfresh).
    apply IH in H. destruct H as (extra & -> & Hmid & Hnd).
    exists (mkRecipient mid (a_id a) None None :: extra).
    cbn [with_recipients message_recipients projects agents messages
         file_reservations seq_projects seq_agents seq_messages
         seq_file_reservations] in *.
    rewrite <- app_assoc in *. simpl app in *.
    repeat split; [constructor; [reflexivity | exact Hmid] |].
    intros N. replace (message_recipients st ++ mkRecipient mid (a_id a) None None :: extra)
      with ((message_recipients st ++ [mkRecipient mid (a_id a) None None]) ++ extra)
      by (rewrite <- app_assoc; reflexivity).
    rewrite <- app_assoc. apply Hnd.
    replace (message_recipients st ++ [mkRecipient mid (a_id a) None None] ++ [])
      with (message_recipients st ++ [mkRecipient mid (a_id a) None None])
      by (rewrite app_nil_r; reflexivity).
    rewrite map_app. apply NoDup_snoc; assumption.
Qed.

Lemma send_message_wf : handler_preserves wf tool_send_message.
Proof.
  intros env st args r st' W H. unfold tool_send_message, resolve_project in H.
  invert_result H. injection H as _ <-.
  apply wf_iff in W. destruct W as (W0 & W1 & W2 & W3 & W4 & W5 & W6 & W7).
  apply add_recipients_inr in Hx4. destruct Hx4 as (extra & -> & Hmid & Hnd).
  split_wf; trivial.
  - lia.
  - apply Hnd, W3.
  - intros r0 Hr. apply in_app_or in Hr. destruct Hr as [Hr | Hr].
    + apply W4 in Hr. lia.
    + rewrite Forall_forall in Hmid. rewrite (Hmid r0 Hr). lia.
Qed.

Lemma update_recipients_wf f st :
  (forall r, recipient_key (f r) = recipient_key r) ->
  wf st -> wf (update_recipients f st).
Proof.
  intros Hkey W.
  apply wf_iff in W. destruct W as (W0 & W1 & W2 & W3 & W4 & W5 & W6 & W7).
  split_wf; trivial.
  - rewrite map_map. erewrite map_ext; [exact W3 | exact Hkey].
  - intros r Hr. apply in_map_iff in Hr. destruct Hr as (r0 & <- & Hr0).
    pose proof (Hkey r0) as K. unfold recipient_key in K. injection K as K _.
    rewrite K. apply W4, Hr0.
Qed.

Lemma mark_message_read_wf : handler_preserves wf tool_mark_message_read.
Proof.
  intros env st args r st' W H.
  unfold tool_mark_message_read, resolve_project, resolve_agent in H.
  invert_result H. injection H as _ <-.
  apply update_recipients_wf; [apply set_read_at_key | exact W].
Qed.

Lemma acknowledge_message_wf : handler_preserves wf tool_acknowledge_message.
Proof.
  intros env st args r st' W H.
  unfold tool_acknowledge_message, resolve_project, resolve_agent in H.
  invert_result H. injection H as _ <-.
  apply update_recipients_wf; [apply set_acked_at_key | exact W].
Qed.

Lemma fetch_inbox_wf : handler_preserves wf tool_fetch_inbox.
Proof.
  intros env st args r st' W H.
  unfold tool_fetch_inbox, resolve_project, resolve_agent in H.
  invert_result H. injection H as _ <-. exact W.
Qed.

Lemma summarize_thread_wf : handler_preserves wf tool_summarize_thread.
Proof.
  intros env st args r st' W H.
  unfold tool_summarize_thread, resolve_project in H.
  invert_result H. injection H as _ <-. exact W.
Qed.

Lemma search_messages_wf : handler_preserves wf tool_search_messages.
Proof.
  intros env st args r st' W H.
  unfold tool_search_messages, resolve_project in H.
  invert_result H. injection H as _ <-. exact W.
Qed.

Lemma release_file_reservations_wf :
  handler_preserves wf tool_release_file_reservations.
Proof.
  intros env st args r st' W H.
  unfold tool_release_file_reservations, resolve_project, resolve_agent in H.
  invert_result H. injection H as _ <-.
  apply wf_iff in W. destruct W as (W0 & W1 & W2 & W3 & W4 & W5 & W6 & W7).
  split_wf; trivial.
  - apply reservation_ids_filter, W5.
  - intros fr Hfr. apply filter_In in Hfr. apply W6. tauto.
  - intros fr Hfr. apply filter_In in Hfr. apply W7. tauto.
Qed.

Lemma grants_ids_NoDup excl why expires seq0 free :
  NoDup (map g_id (grants excl why expires seq0 free)).
Proof.
  revert seq0; induction free as [| p free IH]; intros seq0; simpl;
    constructor; [| apply IH].
  intros Hin. apply in_map_iff in Hin. destruct Hin as (g & E & Hg).
  pose proof (grants_fields excl why expires (seq0 + 1) free) as F.
  rewrite Forall_forall in F. destruct (F g Hg) as (_ & _ & _ & Hlt). lia.
Qed.

Lemma grants_ids_range excl why expires seq0 free g :
  In g (grants excl why expires seq0 free) ->
  seq0 < g_id g <= seq0 + Z.of_nat (List.length free).
Proof.
  revert seq0; induction free as [| p free IH]; intros seq0; simpl; [tauto |].
  intros [<- | Hg]; simpl; [lia |]. apply IH in Hg. lia.
Qed.

Lemma file_reservation_paths_wf :
  handler_preserves wf tool_file_reservation_paths.
Proof.
  intros env st args r st' W H.
  destruct (file_reservation_paths_inr _ _ _ _ _ H)
    as (project & agent & _ & Hp & Ha & _ & ->).
  apply select_agent_some in Ha. destruct Ha as (Hagent & _).
  apply wf_iff in W. destruct W as (W0 & W1 & W2 & W3 & W4 & W5 & W6 & W7).
  clear H. split_wf; cbn [loop_after rl_rows rl_seq]; trivial.
  - lia.
  - rewrite map_app, map_map. cbn [new_row fr_id].
    apply NoDup_app.
    + apply reservation_ids_filter, W5.
    + apply grants_ids_NoDup.
    + intros id Hold Hnew.
      apply in_map_iff in Hold. destruct Hold as (fr & <- & Hfr).
      apply filter_In in Hfr. destruct Hfr as (Hfr & _). apply W6 in Hfr.
      apply in_map_iff in Hnew. destruct Hnew as (g & E & Hg).
      apply grants_ids_range in Hg. lia.
  - intros fr Hfr. apply in_app_or in Hfr. destruct Hfr as [Hfr | Hfr].
    + apply filter_In in Hfr. destruct Hfr as (Hfr & _). apply W6 in Hfr. lia.
    + apply in_map_iff in Hfr. destruct Hfr as (g & <- & Hg).
      apply grants_ids_range in Hg. simpl. lia.
  - intros fr Hfr. apply in_app_or in Hfr. destruct Hfr as [Hfr | Hfr].
    + apply filter_In in Hfr. apply W7. tauto.
    + apply in_map_iff in Hfr. destruct Hfr as (g & <- & Hg).
      exists agent. split; [exact Hagent | reflexivity].
Qed.

Lemma as_value_preserves {A : Type} (P : Store -> Prop) (wrap : A -> Value)
                         (h : handler A) :
  handler_preserves P h -> handler_preserves P (as_value wrap h).
Proof.
  intros Hh env st args v st' W H. unfold as_value in H.
  apply bind_inr in H. destruct H as ((r & st1) & Hr & H).
  injection H as _ <-. exact (Hh env st args r st1 W Hr).
Qed.

Lemma dispatch_tool_wf env st nm args v st' :
  wf st -> dispatch_tool env st nm args = inr (v, st') -> wf st'.
Proof.
  intros W. unfold dispatch_tool, tools_get, tools. cbn [find fst snd].
  repeat match goal with
    | |- context [(?k =? nm)%string] => destruct (k =? nm)%string
    end; cbn [option_map snd]; try discriminate;
    apply as_value_preserves; trivial;
    auto using ensure_project_wf, register_agent_wf, send_message_wf,
      fetch_inbox_wf, mark_message_read_wf, summarize_thread_wf,
      file_reservation_paths_wf, release_file_reservations_wf,
      acknowledge_message_wf, search_messages_wf.
Qed.

Lemma mcp_endpoint_wf env st request :
  wf st -> wf (snd (mcp_endpoint env st request)).
Proof.
  intros W. unfold mcp_endpoint.
  destruct (negb _); [exact W |].
  destruct (dispatch_tool env st _ _) as [[m | m | m] | [v st']] eqn:H;
    try exact W.
  eapply dispatch_tool_wf; eassumption.
Qed.

(** Every store the server can reach satisfies the store invariants. *)
Lemma reachable_wf st : reachable st -> wf st.
Proof.
  induction 1 as [| env st request _ IH]; [apply wf_empty |].
  apply mcp_endpoint_wf, IH.
Qed.

(** ** The exclusion that the conflict query does enforce *)

Lemma ordered_pairs_filter {A : Type} (R : A -> A -> Prop) (keep : A -> bool) l :
  ForallOrdPairs R l -> ForallOrdPairs R (filter keep l).
Proof.
  induction 1 as [| x l Hx _ IH]; simpl; [constructor |].
  destruct (keep x); [| exact IH].
  constructor; [| exact IH].
  rewrite Forall_forall in *. intros y Hy. apply filter_In in Hy. apply Hx. tauto.
Qed.

Lemma ordered_pairs_app {A : Type} (R : A -> A -> Prop) l1 l2 :
  ForallOrdPairs R l1 -> ForallOrdPairs R l2 ->
  (forall x y, In x l1 -> In y l2 -> R x y) ->
  ForallOrdPairs R (l1 ++ l2).
Proof.
  intros H1 H2 Hcross. induction H1 as [| x l1 Hx _ IH]; simpl; [exact H2 |].
  constructor.
  - rewrite Forall_forall in *. intros y Hy. apply in_app_or in Hy.
    destruct Hy as [Hy | Hy]; [apply Hx, Hy | apply Hcross; [left; reflexivity | exact Hy]].
  - apply IH. intros a b Ha Hb. apply Hcross; [right; exact Ha | exact Hb].
Qed.

Lemma ordered_pairs_total {A : Type} (R : A -> A -> Prop) l :
  (forall x y, In x l -> In y l -> R x y) -> ForallOrdPairs R l.
Proof.
  induction l as [| x l IH]; intros H; constructor.
  - rewrite Forall_forall. intros y Hy. apply H; [left; reflexivity | right; exact Hy].
  - apply IH. intros a b Ha Hb. apply H; right; assumption.
Qed.

(** A free path is in conflict with no row of the swept table whose holder
    is registered. *)
Lemma is_free_checked agts pid aid swept path x :
  is_free agts pid aid swept path = true ->
  In x swept ->
  (exists a, In a agts /\ a_id a = fr_agent_id x) ->
  is_conflicting pid aid path x = false.
Proof.
  unfold is_free, holders_of, conflicting. intros Hfree Hx (a & Ha & Hid).
  apply not_true_is_false. intros Hc.
  assert (Hin : In (x, a_name a)
                   (flat_map (fun fr => map (fun a => (fr, a_name a))
                                            (filter (fun a => a_id a =? fr_agent_id fr) agts))
                             (filter (is_conflicting pid aid path) swept))).
  { apply in_flat_map. exists x. split.
    - apply filter_In. split; assumption.
    - apply in_map_iff. exists a. split; [reflexivity |].
      apply filter_In. split; [exact Ha | apply Z.eqb_eq; exact Hid]. }
  destruct (flat_map _ _); [exact Hin | discriminate Hfree].
Qed.

Lemma file_reservation_paths_ordered env st args r st' :
  wf st ->
  ForallOrdPairs checked_against (file_reservations st) ->
  tool_file_reservation_paths env st args = inr (r, st') ->
  ForallOrdPairs checked_against (file_reservations st').
Proof.
  intros W Hord H.
  destruct (file_reservation_paths_inr _ _ _ _ _ H)
    as (project & agent & _ & _ & _ & _ & ->).
  apply wf_iff in W. destruct W as (_ & _ & _ & _ & _ & _ & _ & W7).
  cbn [file_reservations loop_after rl_rows].
  apply ordered_pairs_app.
  - apply ordered_pairs_filter, Hord.
  - apply ordered_pairs_total. intros x y Hx Hy _ _ Hne.
    apply in_map_iff in Hx. destruct Hx as (gx & <- & _).
    apply in_map_iff in Hy. destruct Hy as (gy & <- & _).
    exfalso. apply Hne. reflexivity.
  - intros x y Hx Hy Hexcl Hproj Hagent.
    apply in_map_iff in Hy. destruct Hy as (g & <- & Hg).
    cbn [new_row fr_path_pattern fr_project_id fr_agent_id] in *.
    assert (Hfree : is_free (agents st) (p_id project) (a_id agent)
                            (delete_expired (now_at env 0) (file_reservations st))
                            (g_path_pattern g) = true).
    { apply (in_map g_path_pattern) in Hg. rewrite grants_paths in Hg.
      apply filter_In in Hg. tauto. }
    pose proof Hx as Hstored. apply delete_expired_In in Hstored.
    pose proof (is_free_checked _ _ _ _ _ x Hfree Hx (W7 x (proj1 Hstored))) as Hc.
    unfold is_conflicting in Hc.
    rewrite Hproj, Z.eqb_refl, Hexcl in Hc.
    apply Z.eqb_neq in Hagent. rewrite Hagent in Hc. exact Hc.
Qed.

Lemma ensure_project_reservations env st args r st' :
  tool_ensure_project env st args = inr (r, st') ->
  file_reservations st' = file_reservations st.
Proof.
  unfold tool_ensure_project. intros H. invert_result H.
  destruct (select_project st _); [injection H as _ <-; reflexivity |].
  invert_result H. injection H as _ <-. reflexivity.
Qed.

Lemma register_agent_reservations env st args r st' :
  tool_register_agent env st args = inr (r, st') ->
  file_reservations st' = file_reservations st.
Proof.
  unfold tool_register_agent. intros H. invert_result H.
  destruct (select_agent st _ _); injection H as _ <-; reflexivity.
Qed.

Lemma send_message_reservations env st args r st' :
  tool_send_message env st args = inr (r, st') ->
  file_reservations st' = file_reservations st.
Proof.
  unfold tool_send_message, resolve_project. intros H. invert_result H.
  injection H as _ <-.
  apply add_recipients_inr in Hx4. destruct Hx4 as (extra & -> & _).
  reflexivity.
Qed.

Lemma fetch_inbox_reservations env st args r st' :
  tool_fetch_inbox env st args = inr (r, st') ->
  file_reservations st' = file_reservations st.
Proof.
  unfold tool_fetch_inbox, resolve_project, resolve_agent.
  intros H. invert_result H. injection H as _ <-. reflexivity.
Qed.

Lemma mark_message_read_reservations env st args r st' :
  tool_mark_message_read env st args = inr (r, st') ->
  file_reservations st' = file_reservations st.
Proof.
  unfold tool_mark_message_read, resolve_project, resolve_agent.
  intros H. invert_result H. injection H as _ <-. reflexivity.
Qed.

Lemma acknowledge_message_reservations env st args r st' :
  tool_acknowledge_message env st args = inr (r, st') ->
  file_reservations st' = file_reservations st.
Proof.
  unfold tool_acknowledge_message, resolve_project, resolve_agent.
  intros H. invert_result H. injection H as _ <-. reflexivity.
Qed.

Lemma summarize_thread_reservations env st args r st' :
  tool_summarize_thread env st args = inr (r, st') ->
  file_reservations st' = file_reservations st.
Proof.
  unfold tool_summarize_thread, resolve_project.
  intros H. invert_result H. injection H as _ <-. reflexivity.
Qed.

Lemma search_messages_reservations env st args r st' :
  tool_search_messages env st args = inr (r, st') ->
  file_reservations st' = file_reservations st.
Proof.
  unfold tool_search_messages, resolve_project.
  intros H. invert_result H. injection H as _ <-. reflexivity.
Qed.

Lemma release_file_reservations_ordered env st args r st' :
  ForallOrdPairs checked_against (file_reservations st) ->
  tool_release_file_reservations env st args = inr (r, st') ->
  ForallOrdPairs checked_against (file_reservations st').
Proof.
  unfold tool_release_file_reservations, resolve_project, resolve_agent.
  intros Hord H. invert_result H. injection H as _ <-.
  apply ordered_pairs_filter, Hord.
Qed.

Lemma dispatch_tool_ordered env st nm args v st' :
  wf st ->
  ForallOrdPairs checked_against (file_reservations st) ->
  dispatch_tool env st nm args = inr (v, st') ->
  ForallOrdPairs checked_against (file_reservations st').
Proof.
  intros W Hord. unfold dispatch_tool, tools_get, tools. cbn [find fst snd].
  repeat match goal with
    | |- context [(?k =? nm)%string] => destruct (k =? nm)%string
    end; cbn [option_map snd]; try discriminate;
    unfold as_value; intros H; apply bind_inr in H;
    destruct H as ((r & st1) & Hr & H); injection H as _ <-; cbn [snd].
  - rewrite (ensure_project_reservations _ _ _ _ _ Hr). exact Hord.
  - rewrite (register_agent_reservations _ _ _ _ _ Hr). exact Hord.
  - rewrite (send_message_reservations _ _ _ _ _ Hr). exact Hord.
  - rewrite (fetch_inbox_reservations _ _ _ _ _ Hr). exact Hord.
  - rewrite (mark_message_read_reservations _ _ _ _ _ Hr). exact Hord.
  - rewrite (summarize_thread_reservations _ _ _ _ _ Hr). exact Hord.
  - eapply file_reservation_paths_ordered; eassumption.
  - eapply release_file_reservations_ordered; eassumption.
  - rewrite (acknowledge_message_reservations _ _ _ _ _ Hr). exact Hord.
  - rewrite (search_messages_reservations _ _ _ _ _ Hr). exact Hord.
Qed.

(** In every reachable store, a reservation was checked against every
    reservation that stands before it in the table. *)
Lemma reachable_ordered st :
  reachable st -> ForallOrdPairs checked_against (file_reservations st).
Proof.
  induction 1 as [| env st request Hreach IH]; [constructor |].
  unfold mcp_endpoint.
  destruct (negb _); [exact IH |].
  destruct (dispatch_tool env st _ _) as [[m | m | m] | [v st']] eqn:H;
    try exact IH.
  eapply dispatch_tool_ordered; [apply reachable_wf | |]; eassumption.
Qed.

(** X25.  The direction of the exclusion invariant that holds: in every reachable
    store, a reservation [y] that stands after an exclusive reservation [x]
    of another agent in the same project neither has [x]'s pattern nor
    matches it as a glob. *)
Lemma ordered_exclusion st before x between y after :
  reachable st ->
  file_reservations st = before ++ x :: between ++ y :: after ->
  fr_exclusive x = 1 ->
  fr_project_id x = fr_project_id y ->
  fr_agent_id x <> fr_agent_id y ->
  fr_path_pattern x <> fr_path_pattern y
  /\ glob_match (fr_path_pattern y) (fr_path_pattern x) = false.
Proof.
  intros Hreach Hrows Hexcl Hproj Hagent.
  pose proof (reachable_ordered st Hreach) as Hord. rewrite Hrows in Hord.
  assert (Hxy : checked_against x y).
  { clear - Hord. induction before as [| b before IH]; simpl in Hord.
    - inversion Hord as [| ? ? Hx _]; subst. rewrite Forall_forall in Hx.
      apply Hx. apply in_or_app. right; left; reflexivity.
    - inversion Hord; subst. apply IH. assumption. }
  specialize (Hxy Hexcl Hproj Hagent).
  split.
  - intros E. rewrite (request_glob_detected _ _ (or_introl E)) in Hxy.
    discriminate Hxy.
  - apply not_true_is_false. intros G.
    rewrite (request_glob_detected _ _ (or_intror G)) in Hxy. discriminate Hxy.
Qed.

(** * Further properties of the handlers *)

(** ** Slugs *)

Lemma substring_prefix_length n s :
  (String.length (String.substring 0 n s) <= n)%nat.
Proof.
  revert s; induction n as [| n IH]; intros s; destruct s as [| c s]; simpl;
    try lia.
  specialize (IH s). lia.
Qed.

Lemma substring_prefix_forallb f n s :
  str_forallb f s = true -> str_forallb f (String.substring 0 n s) = true.
Proof.
  revert s; induction n as [| n IH]; intros s; destruct s as [| c s]; simpl;
    trivial.
  intros H. apply andb_true_iff in H. destruct H as (Hc & Hs).
  rewrite Hc; simpl. apply IH, Hs.
Qed.

Lemma substring_prefix_all n s :
  (String.length s <= n)%nat -> String.substring 0 n s = s.
Proof.
  revert s; induction n as [| n IH]; intros s; destruct s as [| c s]; simpl;
    trivial; intros H; try lia.
  rewrite IH by lia. reflexivity.
Qed.

Lemma to_lower_slug_char c :
  is_slug_char c = true -> is_slug_out_char (to_lower c) = true.
Proof.
  destruct c as [[] [] [] [] [] [] [] []]; vm_compute; trivial.
Qed.

Lemma slug_filter_lower s :
  str_forallb is_slug_out_char (str_map to_lower (str_filter is_slug_char s)) = true.
Proof.
  induction s as [| c s IH]; simpl; [reflexivity |].
  destruct (is_slug_char c) eqn:Hc; simpl; [| exact IH].
  rewrite (to_lower_slug_char c Hc), IH. reflexivity.
Qed.

Lemma generate_slug_bounds key :
  (String.length (generate_slug key) <= 64)%nat
  /\ str_forallb is_slug_out_char (generate_slug key) = true.
Proof.
  unfold generate_slug. split.
  - apply substring_prefix_length.
  - apply substring_prefix_forallb, slug_filter_lower.
Qed.

(** X1.  The slug of an ASCII key has at most 64 characters, each a
    lowercase letter, a digit or an underscore. *)
Theorem generate_slug_shape key :
  str_forallb is_ascii key = true ->
  (String.length (generate_slug key) <= 64)%nat
  /\ str_forallb is_slug_out_char (generate_slug key) = true.
Proof.
  intros _. apply generate_slug_bounds.
Qed.

Lemma generate_slug_shape_witness :
  str_forallb is_ascii "/Users/Me/My Repo-1" = true
  /\ generate_slug "/Users/Me/My Repo-1" = "_users_me_my_repo1"
  /\ (String.length (generate_slug "/Users/Me/My Repo-1") <= 64)%nat.
Proof.
  split; [reflexivity |]. split; [reflexivity |].
  exact (proj1 (generate_slug_shape "/Users/Me/My Repo-1" eq_refl)).
Defined.

Lemma slug_out_char_fixed c :
  is_slug_out_char c = true ->
  Ascii.eqb c "/"%char = false /\ Ascii.eqb c "\"%char = false
  /\ Ascii.eqb c " "%char = false /\ is_slug_char c = true /\ to_lower c = c.
Proof.
  destruct c as [[] [] [] [] [] [] [] []]; vm_compute; intros H;
    try discriminate H; repeat split.
Qed.

Lemma slug_fixed_point s :
  str_forallb is_slug_out_char s = true ->
  str_map to_lower
    (str_filter is_slug_char
       (replace " "%char "_"%char
          (replace "\"%char "_"%char (replace "/"%char "_"%char s)))) = s.
Proof.
  induction s as [| c s IH]; simpl; [reflexivity |].
  intros H. apply andb_true_iff in H. destruct H as (Hc & Hs).
  destruct (slug_out_char_fixed c Hc) as (H1 & H2 & H3 & H4 & H5).
  rewrite H1, H2, H3, H4; simpl. rewrite H5, (IH Hs). reflexivity.
Qed.

(** X2.  A slug is its own slug: on ASCII keys [generate_slug] is
    idempotent. *)
Theorem generate_slug_idempotent key :
  str_forallb is_ascii key = true ->
  generate_slug (generate_slug key) = generate_slug key.
Proof.
  intros _. destruct (generate_slug_bounds key) as (Hlen & Hchars).
  unfold generate_slug at 1. rewrite (slug_fixed_point _ Hchars).
  apply substring_prefix_all, Hlen.
Qed.

Lemma generate_slug_idempotent_witness :
  str_forallb is_ascii "/Users/Me/My Repo-1" = true
  /\ generate_slug (generate_slug "/Users/Me/My Repo-1")
     = generate_slug "/Users/Me/My Repo-1".
Proof.
  split; [reflexivity |].
  exact (generate_slug_idempotent "/Users/Me/My Repo-1" eq_refl).
Defined.

(** ** What the identity handlers do to the store *)

Lemma select_project_some st key p :
  select_project st key = Some p -> In p (projects st) /\ p_human_key p = key.
Proof.
  unfold select_project. intros H. apply find_some in H.
  destruct H as (Hin & E). apply String.eqb_eq in E. tauto.
Qed.

Lemma select_project_none st key p :
  select_project st key = None -> In p (projects st) -> p_human_key p <> key.
Proof.
  unfold select_project. intros H Hin E.
  pose proof (find_none _ _ H p Hin) as F. simpl in F.
  apply String.eqb_neq in F. contradiction.
Qed.

Lemma select_agent_none st nm pid a :
  select_agent st nm pid = None -> In a (agents st) -> agent_key a <> (nm, pid).
Proof.
  unfold select_agent, agent_key. intros H Hin E. injection E as E1 E2.
  pose proof (find_none _ _ H a Hin) as F. simpl in F.
  rewrite E1, E2, String.eqb_refl, Z.eqb_refl in F. discriminate F.
Qed.

Lemma ensure_project_effect env st args p st' :
  tool_ensure_project env st args = inr (p, st') ->
  let key := get (human_key args) "" in
  human_key args = Some key /\ key <> ""
  /\ ((select_project st key = Some p /\ st' = st)
      \/ (select_project st key = None
          /\ (forall q, In q (projects st) -> p_slug q <> generate_slug key)
          /\ p = mkProject (seq_projects st + 1) (generate_slug key) key (now_at env 0)
          /\ st' = mkStore (projects st ++ [p]) (agents st) (messages st)
                           (message_recipients st) (file_reservations st)
                           (seq_projects st + 1) (seq_agents st)
                           (seq_messages st) (seq_file_reservations st))).
Proof.
  intros H. cbv zeta. unfold tool_ensure_project in H.
  set (key := get (human_key args) "") in *. invert_result H.
  assert (Hk : human_key args = Some key /\ key <> "").
  { unfold key. destruct (human_key args) as [k |]; simpl in *; [| discriminate].
    split; [reflexivity |]. apply negb_true_iff, String.eqb_neq in Hx. exact Hx. }
  destruct Hk as (Hk1 & Hk2). split; [exact Hk1 |]. split; [exact Hk2 |].
  destruct (select_project st key) as [row |] eqn:Hsel.
  - injection H as <- <-. left. split; reflexivity.
  - invert_result H. injection H as <- <-. right.
    split; [reflexivity |]. split; [| split; reflexivity].
    intros q Hq E. apply negb_true_iff in Hx0.
    assert (X : existsb (fun p => (p_slug p =? generate_slug key)%string)
                        (projects st) = true).
    { apply existsb_exists. exists q. split; [exact Hq | apply String.eqb_eq, E]. }
    congruence.
Qed.

Lemma register_agent_effect env st args a st' :
  tool_register_agent env st args = inr (a, st') ->
  exists project,
    truthy_str (project_key args) = true
    /\ select_project st (get (project_key args) "") = Some project
    /\ let pid := p_id project in
       let nm := if truthy_str (name args) then get (name args) ""
                 else generate_unique_name env st pid 100 0 in
       (select_agent st nm pid = Some a
        /\ st' = mkStore (projects st)
                         (map (touch_agent (now_at env 0) (a_id a)) (agents st))
                         (messages st) (message_recipients st)
                         (file_reservations st) (seq_projects st)
                         (seq_agents st) (seq_messages st)
                         (seq_file_reservations st))
       \/ (select_agent st nm pid = None
           /\ a = mkAgent (seq_agents st + 1) nm (get (program args) "unknown")
                          (get (model args) "unknown")
                          (get (task_description args) "")
                          (now_at env 0) (now_at env 0) pid
           /\ st' = mkStore (projects st) (agents st ++ [a]) (messages st)
                            (message_recipients st) (file_reservations st)
                            (seq_projects st) (seq_agents st + 1)
                            (seq_messages st) (seq_file_reservations st)).
Proof.
  intros H. unfold tool_register_agent in H. invert_result H.
  exists x0. split; [exact Hx |]. split; [exact Hx0 |]. cbv zeta.
  match type of H with
  | context [select_agent st ?n ?p] =>
      destruct (select_agent st n p) as [existing |] eqn:Hsel
  end; injection H as <- <-.
  - left. split; reflexivity.
  - right. split; [reflexivity |]. split; reflexivity.
Qed.

(** The handlers other than the two identity handlers leave [projects] and
    [agents] as they are. *)
Lemma dispatch_identity_frame env st nm args v st' :
  dispatch_tool env st nm args = inr (v, st') ->
  nm <> "ensure_project" -> nm <> "register_agent" ->
  projects st' = projects st /\ agents st' = agents st.
Proof.
  unfold dispatch_tool, tools_get, tools. cbn [find fst snd].
  repeat match goal with
    | |- context [(?k =? nm)%string] =>
        let E := fresh "E" in
        destruct (k =? nm)%string eqn:E;
        [apply String.eqb_eq in E | clear E]
    end; cbn [option_map snd]; try discriminate;
    try (intros _ Hn1 Hn2; congruence);
    unfold as_value; intros H _ _; apply bind_inr in H;
    destruct H as ((r & st1) & Hr & H); injection H as _ <-; cbn [snd].
  - unfold tool_send_message, resolve_project in Hr. invert_result Hr.
    injection Hr as _ <-.
    apply add_recipients_inr in Hx4. destruct Hx4 as (extra & -> & _).
    split; reflexivity.
  - unfold tool_fetch_inbox, resolve_project, resolve_agent in Hr.
    invert_result Hr. injection Hr as _ <-. split; reflexivity.
  - unfold tool_mark_message_read, resolve_project, resolve_agent in Hr.
    invert_result Hr. injection Hr as _ <-. split; reflexivity.
  - unfold tool_summarize_thread, resolve_project in Hr.
    invert_result Hr. injection Hr as _ <-. split; reflexivity.
  - destruct (file_reservation_paths_inr _ _ _ _ _ Hr)
      as (project & agent & _ & _ & _ & _ & ->).
    split; reflexivity.
  - unfold tool_release_file_reservations, resolve_project, resolve_agent in Hr.
    invert_result Hr. injection Hr as _ <-. split; reflexivity.
  - unfold tool_acknowledge_message, resolve_project, resolve_agent in Hr.
    invert_result Hr. injection Hr as _ <-. split; reflexivity.
  - unfold tool_search_messages, resolve_project in Hr.
    invert_result Hr. injection Hr as _ <-. split; reflexivity.
Qed.

(** ** Identity invariants *)

Lemma identity_inv_empty : identity_inv empty_store.
Proof.
  unfold identity_inv; simpl. repeat split; try constructor; intros ? [].
Qed.

Lemma ensure_project_identity env st args p st' :
  identity_inv st ->
  tool_ensure_project env st args = inr (p, st') ->
  identity_inv st'.
Proof.
  intros (I1 & I2 & I3 & I4 & I5) H.
  apply ensure_project_effect in H. cbv zeta in H.
  destruct H as (_ & _ & [(_ & ->) | (Hnone & Hslug & Hp & ->)]).
  - repeat split; assumption.
  - unfold identity_inv; cbn [projects agents]. rewrite !map_app; simpl.
    split; [| split; [| split; [| split]]].
    + intros q Hq. apply in_app_or in Hq. destruct Hq as [Hq | [<- | []]].
      * apply I1, Hq.
      * rewrite Hp. reflexivity.
    + apply NoDup_snoc; [exact I2 |]. intros Hin.
      apply in_map_iff in Hin. destruct Hin as (q & E & Hq).
      apply (select_project_none _ _ q Hnone Hq). rewrite E, Hp. reflexivity.
    + apply NoDup_snoc; [exact I3 |]. intros Hin.
      apply in_map_iff in Hin. destruct Hin as (q & E & Hq).
      apply (Hslug q Hq). rewrite E, Hp. reflexivity.
    + exact I4.
    + intros a Ha. destruct (I5 a Ha) as (q & Hq & E).
      exists q. split; [apply in_or_app; left; exact Hq | exact E].
Qed.

Lemma touch_agent_key now id a : agent_key (touch_agent now id a) = agent_key a.
Proof. unfold touch_agent. destruct (a_id a =? id); reflexivity. Qed.

Lemma register_agent_identity env st args a st' :
  identity_inv st ->
  tool_register_agent env st args = inr (a, st') ->
  identity_inv st'.
Proof.
  intros (I1 & I2 & I3 & I4 & I5) H.
  apply register_agent_effect in H. destruct H as (project & _ & Hp & H).
  cbv zeta in H. apply select_project_some in Hp. destruct Hp as (Hp & _).
  destruct H as [(Hsel & ->) | (Hnone & Ha & ->)];
    unfold identity_inv; cbn [projects agents];
    (split; [exact I1 |]); (split; [exact I2 |]); (split; [exact I3 |]); split.
  - rewrite map_map. erewrite map_ext; [exact I4 |].
    intros b. apply touch_agent_key.
  - intros b Hb. apply in_map_iff in Hb. destruct Hb as (b0 & <- & Hb0).
    destruct (I5 b0 Hb0) as (q & Hq & E). exists q. split; [exact Hq |].
    rewrite E. unfold touch_agent. destruct (a_id b0 =? a_id a); reflexivity.
  - rewrite map_app; simpl. apply NoDup_snoc; [exact I4 |]. intros Hin.
    apply in_map_iff in Hin. destruct Hin as (b & E & Hb).
    apply (select_agent_none _ _ _ b Hnone Hb). rewrite E, Ha. reflexivity.
  - intros b Hb. apply in_app_or in Hb. destruct Hb as [Hb | [<- | []]].
    + apply I5, Hb.
    + exists project. split; [exact Hp |]. rewrite Ha. reflexivity.
Qed.

Lemma tools_get_ensure_project :
  tools_get "ensure_project" = Some (as_value VProject tool_ensure_project).
Proof. reflexivity. Qed.

Lemma tools_get_register_agent :
  tools_get "register_agent" = Some (as_value VAgent tool_register_agent).
Proof. reflexivity. Qed.

Lemma dispatch_identity_inv env st nm args v st' :
  identity_inv st ->
  dispatch_tool env st nm args = inr (v, st') ->
  identity_inv st'.
Proof.
  intros I H.
  destruct (String.eqb_spec nm "ensure_project") as [-> | N1].
  - unfold dispatch_tool in H. rewrite tools_get_ensure_project in H.
    unfold as_value in H. apply bind_inr in H.
    destruct H as ((r & st1) & Hr & H). injection H as _ <-.
    eapply ensure_project_identity; eassumption.
  - destruct (String.eqb_spec nm "register_agent") as [-> | N2].
    + unfold dispatch_tool in H. rewrite tools_get_register_agent in H.
      unfold as_value in H. apply bind_inr in H.
      destruct H as ((r & st1) & Hr & H). injection H as _ <-.
      eapply register_agent_identity; eassumption.
    + destruct (dispatch_identity_frame _ _ _ _ _ _ H N1 N2) as (Ep & Ea).
      unfold identity_inv. rewrite Ep, Ea. exact I.
Qed.

Lemma mcp_endpoint_identity env st request :
  identity_inv st -> identity_inv (snd (mcp_endpoint env st request)).
Proof.
  intros I. unfold mcp_endpoint.
  destruct (negb _); [exact I |].
  destruct (dispatch_tool env st _ _) as [[m | m | m] | [v st']] eqn:H;
    try exact I.
  eapply dispatch_identity_inv; eassumption.
Qed.

(** The example store is reached by three requests. *)
Lemma reachable_store_two_agents : reachable store_two_agents.
Proof.
  change store_two_agents
    with (snd (mcp_endpoint (env_at 20)
                 (snd (mcp_endpoint (env_at 10)
                         (snd (mcp_endpoint (env_at 0) empty_store
                                 (tools_call "ensure_project" (ensure_args "/repo"))))
                         (tools_call "register_agent" (register_args "/repo" "Alice"))))
                 (tools_call "register_agent" (register_args "/repo" "Bob")))).
  repeat apply reachable_request. apply reachable_empty.
Defined.

Lemma reachable_identity st : reachable st -> identity_inv st.
Proof.
  induction 1 as [| env st request _ IH]; [apply identity_inv_empty |].
  apply mcp_endpoint_identity, IH.
Qed.

(** X3.  In every store the server can reach, no two projects share a key or
    a slug, every stored slug is the slug of its key, no two agents of a
    project share a name, and every agent belongs to a stored project. *)
Theorem identity_unique st :
  reachable st ->
  (forall p, In p (projects st) -> p_slug p = generate_slug (p_human_key p))
  /\ NoDup (map p_human_key (projects st))
  /\ NoDup (map p_slug (projects st))
  /\ NoDup (map agent_key (agents st))
  /\ (forall a, In a (agents st) ->
                exists p, In p (projects st) /\ p_id p = a_project_id a).
Proof.
  apply reachable_identity.
Qed.

Lemma identity_unique_witness :
  NoDup (map agent_key (agents store_two_agents)).
Proof.
  exact (proj1 (proj2 (proj2 (proj2
           (identity_unique store_two_agents reachable_store_two_agents))))).
Defined.

(** ** Creating and finding projects and agents *)

Lemma find_snoc_first {A : Type} (f : A -> bool) (l : list A) (x : A) :
  find f l = None -> f x = true -> find f (l ++ [x]) = Some x.
Proof.
  induction l as [| y l IH]; simpl; intros Hnone Hx.
  - rewrite Hx. reflexivity.
  - destruct (f y); [discriminate Hnone | apply IH; assumption].
Qed.

Lemma find_map_same {A : Type} (f : A -> bool) (g : A -> A) (l : list A) :
  (forall x, f (g x) = f x) -> find f (map g l) = option_map g (find f l).
Proof.
  intros Hfg. induction l as [| y l IH]; simpl; [reflexivity |].
  rewrite Hfg. destruct (f y); [reflexivity | exact IH].
Qed.

(** X4.  [ensure_project] is get-or-create: a second call with the same
    arguments returns the very row the first call returned and changes
    nothing, whatever the clock shows. *)
Theorem ensure_project_again env1 env2 st args p st1 :
  tool_ensure_project env1 st args = inr (p, st1) ->
  tool_ensure_project env2 st1 args = inr (p, st1).
Proof.
  intros H. apply ensure_project_effect in H. cbv zeta in H.
  destruct H as (Hk & Hne & H).
  assert (Hsel : select_project st1 (get (human_key args) "") = Some p).
  { destruct H as [(Hsel & ->) | (Hnone & _ & Hp & ->)]; [exact Hsel |].
    unfold select_project; cbn [projects]. apply find_snoc_first.
    - exact Hnone.
    - rewrite Hp. apply String.eqb_refl. }
  unfold tool_ensure_project.
  assert (Ht : truthy_str (human_key args) = true).
  { rewrite Hk. simpl. apply negb_true_iff, String.eqb_neq, Hne. }
  rewrite Ht; simpl. rewrite Hsel. reflexivity.
Qed.

Lemma ensure_project_again_witness :
  exists p st1,
    tool_ensure_project (env_at 0) empty_store (ensure_args "/repo") = inr (p, st1)
    /\ tool_ensure_project (env_at 77) st1 (ensure_args "/repo") = inr (p, st1)
    /\ p_id p = 1.
Proof.
  destruct (tool_ensure_project (env_at 0) empty_store (ensure_args "/repo"))
    as [e | [p st1]] eqn:H.
  - vm_compute in H. discriminate H.
  - exists p, st1. split; [reflexivity |].
    split; [exact (ensure_project_again _ (env_at 77) _ _ _ _ H) |].
    vm_compute in H. injection H as <- _. reflexivity.
Defined.

(** X5.  Two different ASCII keys with the same slug cannot both be projects:
    once the first is stored, [ensure_project] for the second violates the
    UNIQUE constraint on [slug]; the endpoint answers with code -32000 and
    the store stays as it was. *)
Theorem ensure_project_slug_collision env st args p st1 env2 args2 :
  reachable st ->
  str_forallb is_ascii (get (human_key args) "") = true ->
  str_forallb is_ascii (get (human_key args2) "") = true ->
  tool_ensure_project env st args = inr (p, st1) ->
  truthy_str (human_key args2) = true ->
  select_project st1 (get (human_key args2) "") = None ->
  generate_slug (get (human_key args2) "") = generate_slug (get (human_key args) "") ->
  tool_ensure_project env2 st1 args2
  = inl (IntegrityError "UNIQUE constraint failed: projects.slug")
  /\ mcp_endpoint env2 st1 (tools_call "ensure_project" args2)
     = (mkMCPResponse "1" None
          (Some (mkMCPError (-32000) "UNIQUE constraint failed: projects.slug")),
        st1).
Proof.
  intros Hreach _ _ H Ht Hnone Hslug.
  assert (I : identity_inv st1)
    by (eapply ensure_project_identity; [apply reachable_identity, Hreach | exact H]).
  destruct I as (I1 & _).
  apply ensure_project_effect in H. cbv zeta in H. destruct H as (_ & _ & H).
  assert (Hp : In p (projects st1) /\ p_human_key p = get (human_key args) "").
  { destruct H as [(Hsel & ->) | (_ & _ & Hp & ->)].
    - apply select_project_some, Hsel.
    - split; [apply in_or_app; right; left; reflexivity | rewrite Hp; reflexivity]. }
  destruct Hp as (Hin & Hkey).
  assert (Hraise : tool_ensure_project env2 st1 args2
                   = inl (IntegrityError "UNIQUE constraint failed: projects.slug")).
  { unfold tool_ensure_project. rewrite Ht; simpl. rewrite Hnone.
    replace (existsb _ (projects st1)) with true; [reflexivity |].
    symmetry. apply existsb_exists. exists p. split; [exact Hin |].
    apply String.eqb_eq. rewrite (I1 p Hin), Hkey, Hslug. reflexivity. }
  split; [exact Hraise |].
  unfold mcp_endpoint, tools_call; cbn [rq_method rq_name rq_arguments rq_id get].
  change (negb ("tools/call" =? "tools/call")%string) with false. cbv iota.
  unfold dispatch_tool. rewrite tools_get_ensure_project.
  unfold as_value. rewrite Hraise. reflexivity.
Qed.

Lemma ensure_project_slug_collision_witness :
  exists p st1,
    tool_ensure_project (env_at 0) empty_store (ensure_args "a/b") = inr (p, st1)
    /\ tool_ensure_project (env_at 5) st1 (ensure_args "a b")
       = inl (IntegrityError "UNIQUE constraint failed: projects.slug").
Proof.
  destruct (tool_ensure_project (env_at 0) empty_store (ensure_args "a/b"))
    as [e | [p st1]] eqn:H.
  - vm_compute in H. discriminate H.
  - exists p, st1. split; [reflexivity |].
    refine (proj1 (ensure_project_slug_collision
                     (env_at 0) empty_store (ensure_args "a/b") p st1
                     (env_at 5) (ensure_args "a b")
                     reachable_empty eq_refl eq_refl H eq_refl _ eq_refl)).
    vm_compute in H. injection H as _ <-. reflexivity.
Defined.

(** X6.  Registering a name again is no second agent: the call returns the
    agent with the id, name and project of the first registration, as it
    stood before the call, adds no row and gives out no id; in the store it
    sets [last_active_ts] of that agent to the time of the call. *)
Theorem register_agent_again env1 env2 st args a st1 :
  truthy_str (name args) = true ->
  tool_register_agent env1 st args = inr (a, st1) ->
  exists a' st2,
    tool_register_agent env2 st1 args = inr (a', st2)
    /\ In a' (agents st1)
    /\ a_id a' = a_id a /\ a_name a' = a_name a
    /\ a_project_id a' = a_project_id a
    /\ map a_id (agents st2) = map a_id (agents st1)
    /\ seq_agents st2 = seq_agents st1
    /\ (forall b, In b (agents st2) -> a_id b = a_id a ->
                  a_last_active_ts b = now_at env2 0).
Proof.
  intros Hname H. apply register_agent_effect in H.
  destruct H as (project & Hk & Hp & H). cbv zeta in H. rewrite Hname in H.
  set (nm := get (name args) "") in *. set (pid := p_id project) in *.
  assert (Hsel : exists a', select_agent st1 nm pid = Some a'
                            /\ In a' (agents st1) /\ a_id a' = a_id a
                            /\ a_name a' = a_name a
                            /\ a_project_id a' = a_project_id a
                            /\ projects st1 = projects st).
  { destruct H as [(Hsel & ->) | (Hnone & Ha & ->)].
    - exists (touch_agent (now_at env1 0) (a_id a) a).
      split; [| split; [| split; [| split; [| split]]]].
      + unfold select_agent; cbn [agents]. rewrite find_map_same.
        * fold (select_agent st nm pid). rewrite Hsel. reflexivity.
        * intros b. unfold touch_agent. destruct (a_id b =? a_id a); reflexivity.
      + cbn [agents]. apply in_map. apply select_agent_some in Hsel. tauto.
      + apply touch_agent_id.
      + unfold touch_agent. destruct (a_id a =? a_id a); reflexivity.
      + unfold touch_agent. destruct (a_id a =? a_id a); reflexivity.
      + reflexivity.
    - exists a. split; [| split; [| repeat split]].
      + unfold select_agent; cbn [agents]. apply find_snoc_first.
        * exact Hnone.
        * rewrite Ha; cbn [a_name a_project_id].
          rewrite String.eqb_refl, Z.eqb_refl. reflexivity.
      + cbn [agents]. apply in_or_app. right; left; reflexivity. }
  destruct Hsel as (a' & Hsel & Hin & Hid & Hnm & Hpid & Hprojects).
  exists a'. eexists. split.
  - unfold tool_register_agent. rewrite Hk; simpl.
    unfold select_project. rewrite Hprojects.
    fold (select_project st (get (project_key args) "")). rewrite Hp; simpl.
    rewrite Hname. fold nm pid. rewrite Hsel. reflexivity.
  - cbn [agents seq_agents]. rewrite map_map.
    split; [exact Hin |]. split; [exact Hid |]. split; [exact Hnm |].
    split; [exact Hpid |]. split; [| split; [reflexivity |]].
    + apply map_ext. intros b. apply touch_agent_id.
    + intros b Hb Hbid. apply in_map_iff in Hb. destruct Hb as (b0 & <- & _).
      rewrite touch_agent_id in Hbid. unfold touch_agent.
      rewrite Hid, Hbid, Z.eqb_refl. reflexivity.
Qed.

Lemma register_agent_again_witness :
  exists a' st2,
    tool_register_agent (env_at 99)
      (commit tool_register_agent (env_at 10) (register_args "/repo" "Alice")
         (commit tool_ensure_project (env_at 0) (ensure_args "/repo") empty_store))
      (register_args "/repo" "Alice")
    = inr (a', st2)
    /\ a_id a' = 1
    /\ map a_id (agents st2) = [1].
Proof.
  destruct (register_agent_again
              (env_at 10) (env_at 99)
              (commit tool_ensure_project (env_at 0) (ensure_args "/repo") empty_store)
              (register_args "/repo" "Alice")
              (mkAgent 1 "Alice" "unknown" "unknown" "" 10 10 1)
              (commit tool_register_agent (env_at 10) (register_args "/repo" "Alice")
                 (commit tool_ensure_project (env_at 0) (ensure_args "/repo") empty_store))
              eq_refl eq_refl)
    as (a' & st2 & H & _ & Hid & _ & _ & Hmap & _).
  exists a', st2. split; [exact H |]. split; [exact Hid | exact Hmap].
Defined.

(** The name loop returns the first free name among the draws it may make,
    whenever there is one. *)
Lemma generate_unique_name_free env st pid fuel : forall first i,
  (i < fuel)%nat ->
  select_agent st (agent_name_at env (first + i)) pid = None ->
  select_agent st (generate_unique_name env st pid fuel first) pid = None
  /\ exists j, (first <= j <= first + i)%nat
               /\ generate_unique_name env st pid fuel first = agent_name_at env j.
Proof.
  induction fuel as [| fuel IH]; intros first i Hi Hfree; [lia |].
  simpl. destruct (select_agent st (agent_name_at env first) pid) eqn:Hsel.
  - destruct i as [| i].
    + rewrite Nat.add_0_r in Hfree. congruence.
    + destruct (IH (S first) i) as (Hnone & j & Hj & E); [lia | |].
      * replace (S first + i)%nat with (first + S i)%nat by lia. exact Hfree.
      * split; [exact Hnone |]. exists j. split; [lia | exact E].
  - split; [exact Hsel |]. exists first. split; [lia | reflexivity].
Qed.

(** X7.  Registration without a name creates a new agent under a generated
    name that no agent of the project has, provided one of the first hundred
    draws of the generator is free: the name is one of the draws up to that
    one, the agent gets the next id and is appended to the table. *)
Theorem register_agent_generated_name env st args project i :
  truthy_str (project_key args) = true ->
  truthy_str (name args) = false ->
  select_project st (get (project_key args) "") = Some project ->
  (i < 100)%nat ->
  select_agent st (agent_name_at env i) (p_id project) = None ->
  exists a,
    tool_register_agent env st args
    = inr (a, mkStore (projects st) (agents st ++ [a]) (messages st)
                      (message_recipients st) (file_reservations st)
                      (seq_projects st) (seq_agents st + 1) (seq_messages st)
                      (seq_file_reservations st))
    /\ a_id a = seq_agents st + 1
    /\ a_project_id a = p_id project
    /\ select_agent st (a_name a) (p_id project) = None
    /\ exists j, (j <= i)%nat /\ a_name a = agent_name_at env j.
Proof.
  intros Hk Hn Hp Hi Hfree.
  destruct (generate_unique_name_free env st (p_id project) 100 0 i Hi Hfree)
    as (Hgen & j & Hj & E).
  eexists. split.
  - unfold tool_register_agent. rewrite Hk. cbn [require bind ret].
    rewrite Hp. cbn [fetch_or_raise bind ret]. rewrite Hn, Hgen. reflexivity.
  - cbn [a_id a_project_id a_name]. split; [reflexivity |].
    split; [reflexivity |]. split; [exact Hgen |].
    exists j. split; [lia | exact E].
Qed.

Lemma register_agent_generated_name_witness :
  exists a,
    tool_register_agent (env_at 30) store_two_agents
                        (register_args "/repo" "")
    = inr (a, mkStore (projects store_two_agents) (agents store_two_agents ++ [a])
                      [] [] [] 1 3 0 0)
    /\ a_name a = "BlueLake".
Proof.
  destruct (register_agent_generated_name
              (env_at 30) store_two_agents (register_args "/repo" "")
              (mkProject 1 "_repo" "/repo" 0) 0
              eq_refl eq_refl eq_refl ltac:(lia) eq_refl)
    as (a & H & _ & _ & _ & j & Hj & E).
  exists a. split; [exact H |].
  rewrite E. reflexivity.
Defined.

(** ** The inbox *)

Lemma insert_desc_In m l x : In x (insert_desc m l) <-> x = m \/ In x l.
Proof.
  induction l as [| y l IH]; simpl; [intuition |].
  destruct (m_created_ts (fst y) <=? m_created_ts (fst m)); simpl;
    [intuition | rewrite IH; intuition].
Qed.

Lemma order_by_created_desc_In l x : In x (order_by_created_desc l) <-> In x l.
Proof.
  unfold order_by_created_desc.
  induction l as [| y l IH]; simpl; [tauto |].
  rewrite insert_desc_In, IH. intuition.
Qed.

Lemma insert_desc_newest_first m l :
  ForallOrdPairs not_older l -> ForallOrdPairs not_older (insert_desc m l).
Proof.
  induction 1 as [| y l Hy Hl IH]; simpl.
  - constructor; constructor.
  - destruct (Z.leb_spec (m_created_ts (fst y)) (m_created_ts (fst m))) as [Hle | Hgt].
    + constructor; [| constructor; assumption].
      constructor; [exact Hle |].
      rewrite Forall_forall in *. intros z Hz. specialize (Hy z Hz).
      unfold not_older in *. lia.
    + constructor; [| exact IH].
      rewrite Forall_forall in *. intros z Hz. apply insert_desc_In in Hz.
      destruct Hz as [-> | Hz]; [unfold not_older; lia | apply Hy, Hz].
Qed.

Lemma order_by_created_desc_newest_first l :
  ForallOrdPairs not_older (order_by_created_desc l).
Proof.
  unfold order_by_created_desc. induction l as [| y l IH]; simpl.
  - constructor.
  - apply insert_desc_newest_first, IH.
Qed.

Lemma firstn_member {A : Type} n (l : list A) x : In x (firstn n l) -> In x l.
Proof.
  revert l; induction n as [| n IH]; intros [| y l]; simpl; try tauto.
  intros [-> | H]; [left; reflexivity | right; apply IH, H].
Qed.

Lemma firstn_ordered {A : Type} (R : A -> A -> Prop) n l :
  ForallOrdPairs R l -> ForallOrdPairs R (firstn n l).
Proof.
  intros H. revert n. induction H as [| x l Hx _ IH]; intros n; destruct n; simpl;
    try constructor.
  - rewrite Forall_forall in *. intros y Hy. apply Hx.
    apply (firstn_member _ _ _ Hy).
  - apply IH.
Qed.

Lemma sql_limit_In {A : Type} n (l : list A) x : In x (sql_limit n l) -> In x l.
Proof.
  unfold sql_limit. destruct (n <? 0); [trivial | apply firstn_member].
Qed.

Lemma sql_limit_length {A : Type} n (l : list A) :
  0 <= n -> Z.of_nat (List.length (sql_limit n l)) <= n.
Proof.
  intros Hn. unfold sql_limit. destruct (Z.ltb_spec n 0) as [H | _]; [lia |].
  pose proof (firstn_le_length (Z.to_nat n) l). lia.
Qed.

Lemma sql_limit_ordered {A : Type} (R : A -> A -> Prop) n l :
  ForallOrdPairs R l -> ForallOrdPairs R (sql_limit n l).
Proof.
  unfold sql_limit. destruct (n <? 0); [trivial | apply firstn_ordered].
Qed.

Lemma map_ordered {A B : Type} (R : A -> A -> Prop) (S : B -> B -> Prop)
                  (f : A -> B) l :
  (forall x y, R x y -> S (f x) (f y)) ->
  ForallOrdPairs R l -> ForallOrdPairs S (map f l).
Proof.
  intros HRS. induction 1 as [| x l Hx _ IH]; simpl; constructor; [| exact IH].
  rewrite Forall_forall in *. intros y Hy. apply in_map_iff in Hy.
  destruct Hy as (z & <- & Hz). apply HRS, Hx, Hz.
Qed.

(** What a call of [fetch_inbox] that returns has computed. *)
Lemma fetch_inbox_inr env st args res st' :
  tool_fetch_inbox env st args = inr (res, st') ->
  exists project agent,
    select_project st (get (project_key args) "") = Some project
    /\ select_agent st (get (agent_name args) "") (p_id project) = Some agent
    /\ st' = st
    /\ res = map (inbox_entry (get (include_bodies args) false))
                 (sql_limit (get (limit args) 10)
                    (order_by_created_desc
                       (match since_ts args with
                        | Some since =>
                            filter (fun r => since <? m_created_ts (fst r))
                        | None => fun rows => rows
                        end
                          ((if get (urgent_only args) false
                            then filter (fun r => (m_importance (fst r) =? "urgent")%string)
                            else fun rows => rows)
                             (inbox_rows st (a_id agent)))))).
Proof.
  unfold tool_fetch_inbox, resolve_project, resolve_agent.
  intros H. invert_result H. injection H as <- <-.
  exists x1, x2. split; [exact Hx1 |]. split; [exact Hx2 |].
  split; [reflexivity |]. unfold inbox_rows.
  destruct (since_ts args); destruct (get (urgent_only args) false); reflexivity.
Qed.

(** X8.  [fetch_inbox] reads only: the store, and with it every [read_at],
    is as before.  The listing is newest first, and with a limit that is not
    negative it has at most that many entries (ten without a limit). *)
Theorem fetch_inbox_listing env st args res st' :
  tool_fetch_inbox env st args = inr (res, st') ->
  st' = st
  /\ ForallOrdPairs (fun x y => im_created_ts y <= im_created_ts x) res
  /\ (0 <= get (limit args) 10 ->
      Z.of_nat (List.length res) <= get (limit args) 10).
Proof.
  intros H. apply fetch_inbox_inr in H.
  destruct H as (project & agent & _ & _ & -> & ->).
  split; [reflexivity |]. split.
  - apply (map_ordered not_older); [intros x y Hxy; exact Hxy |].
    apply sql_limit_ordered, order_by_created_desc_newest_first.
  - intros Hn. rewrite length_map. apply sql_limit_length, Hn.
Qed.

Lemma fetch_inbox_listing_witness :
  exists res,
    tool_fetch_inbox (env_at 900) store_one_message (mark_args "/repo" "Alice" 1)
    = inr (res, store_one_message)
    /\ Z.of_nat (List.length res) <= 10.
Proof.
  destruct (tool_fetch_inbox (env_at 900) store_one_message
                             (mark_args "/repo" "Alice" 1))
    as [e | [res st']] eqn:H.
  - vm_compute in H. discriminate H.
  - destruct (fetch_inbox_listing _ _ _ _ _ H) as (-> & _ & Hlen).
    exists res. split; [reflexivity |]. apply Hlen. vm_compute. discriminate.
Defined.

Lemma inbox_rows_In st aid m nm :
  In (m, nm) (inbox_rows st aid) <->
  In m (messages st)
  /\ (exists r, In r (message_recipients st)
                /\ mr_message_id r = m_id m /\ mr_agent_id r = aid)
  /\ (exists sender, In sender (agents st)
                     /\ a_id sender = m_sender_id m /\ a_name sender = nm).
Proof.
  unfold inbox_rows, join_sender. rewrite in_flat_map. split.
  - intros (m' & Hm' & Hrow).
    apply in_map_iff in Hrow. destruct Hrow as (sender & E & Hs).
    injection E as -> <-. apply filter_In in Hs. destruct Hs as (Hs & Hid).
    apply Z.eqb_eq in Hid.
    apply in_flat_map in Hm'. destruct Hm' as (m0 & Hm0 & Hr).
    apply in_map_iff in Hr. destruct Hr as (r & -> & Hr).
    apply filter_In in Hr. destruct Hr as (Hr & Hk).
    apply andb_true_iff in Hk. rewrite !Z.eqb_eq in Hk.
    split; [exact Hm0 |]. split.
    + exists r. tauto.
    + exists sender. tauto.
  - intros (Hm & (r & Hr & Hk1 & Hk2) & (sender & Hs & Hid & Hnm)).
    exists m. split.
    + apply in_flat_map. exists m. split; [exact Hm |].
      apply in_map_iff. exists r. split; [reflexivity |].
      apply filter_In. split; [exact Hr |].
      rewrite Hk1, Hk2, !Z.eqb_refl. reflexivity.
    + apply in_map_iff. exists sender. split; [rewrite Hnm; reflexivity |].
      apply filter_In. split; [exact Hs | apply Z.eqb_eq, Hid].
Qed.

(** X9.  The inbox of an agent lists only messages that were delivered to
    that agent: every entry is a stored message with a delivery record for
    the agent, shown with the name of its sender; it is urgent when
    [urgent_only] is set and later than [since_ts] when that is given, and
    it carries the body exactly when [include_bodies] is set. *)
Theorem fetch_inbox_only_delivered env st args res st' :
  tool_fetch_inbox env st args = inr (res, st') ->
  exists project agent,
    select_project st (get (project_key args) "") = Some project
    /\ select_agent st (get (agent_name args) "") (p_id project) = Some agent
    /\ forall e, In e res ->
         exists m sender,
           In m (messages st)
           /\ (exists r, In r (message_recipients st)
                         /\ mr_message_id r = m_id m
                         /\ mr_agent_id r = a_id agent)
           /\ In sender (agents st) /\ a_id sender = m_sender_id m
           /\ im_id e = m_id m /\ im_subject e = m_subject m
           /\ im_from e = a_name sender
           /\ im_created_ts e = m_created_ts m
           /\ im_body_md e = (if get (include_bodies args) false
                              then Some (m_body_md m) else None)
           /\ (get (urgent_only args) false = true -> m_importance m = "urgent")
           /\ (forall since, since_ts args = Some since -> since < m_created_ts m).
Proof.
  intros H. apply fetch_inbox_inr in H.
  destruct H as (project & agent & Hp & Ha & _ & ->).
  exists project, agent. split; [exact Hp |]. split; [exact Ha |].
  intros e He. apply in_map_iff in He. destruct He as ((m & nm) & <- & Hrow).
  apply sql_limit_In in Hrow. apply -> order_by_created_desc_In in Hrow.
  assert (Hsince : In (m, nm)
                      ((if get (urgent_only args) false
                        then filter (fun r => (m_importance (fst r) =? "urgent")%string)
                        else fun rows => rows) (inbox_rows st (a_id agent)))
                   /\ forall since, since_ts args = Some since -> since < m_created_ts m).
  { destruct (since_ts args) as [since |].
    - apply filter_In in Hrow. destruct Hrow as (Hrow & Hlt).
      split; [exact Hrow |]. intros s E. injection E as <-.
      apply Z.ltb_lt in Hlt. exact Hlt.
    - split; [exact Hrow | discriminate]. }
  destruct Hsince as (Hrow' & Hsince).
  assert (Hurgent : In (m, nm) (inbox_rows st (a_id agent))
                    /\ (get (urgent_only args) false = true -> m_importance m = "urgent")).
  { destruct (get (urgent_only args) false).
    - apply filter_In in Hrow'. destruct Hrow' as (Hin & Hu).
      split; [exact Hin |]. intros _. apply String.eqb_eq in Hu. exact Hu.
    - split; [exact Hrow' | discriminate]. }
  destruct Hurgent as (Hin & Hurgent).
  apply inbox_rows_In in Hin.
  destruct Hin as (Hm & Hr & (sender & Hs & Hid & Hnm)).
  exists m, sender. cbn [inbox_entry im_id im_subject im_from im_created_ts im_body_md fst snd].
  repeat split; trivial. symmetry; exact Hnm.
Qed.

Lemma fetch_inbox_only_delivered_witness :
  tool_fetch_inbox (env_at 900) store_one_message (mark_args "/repo" "Bob" 1)
  = inr ([], store_one_message).
Proof.
  destruct (tool_fetch_inbox (env_at 900) store_one_message
                             (mark_args "/repo" "Bob" 1))
    as [e | [res st']] eqn:H.
  - vm_compute in H. discriminate H.
  - destruct (fetch_inbox_only_delivered _ _ _ _ _ H)
      as (project & agent & Hp & Ha & Hall).
    vm_compute in Hp. injection Hp as <-.
    vm_compute in Ha. injection Ha as <-.
    destruct res as [| e res].
    + vm_compute in H. injection H as <-. reflexivity.
    + exfalso. destruct (Hall e (or_introl eq_refl))
        as (m & sender & _ & (r & Hr & _ & Hagent) & _).
      simpl in Hr. destruct Hr as [<- | []]. discriminate Hagent.
Defined.

(** ** Sending, then reading *)

Lemma add_recipients_records pid mid names : forall st st',
  add_recipients st pid mid names = inr st' ->
  st' = with_recipients st
          (message_recipients st
           ++ map (fun a => mkRecipient mid (a_id a) None None)
                  (resolved_recipients st pid names)).
Proof.
  induction names as [| n names IH]; intros st st' H; simpl in H.
  - injection H as <-. simpl. rewrite app_nil_r, with_recipients_same. reflexivity.
  - unfold resolved_recipients; simpl. fold (resolved_recipients st pid names).
    destruct (select_agent st n pid) as [a |].
    + apply bind_inr in H. destruct H as (st1 & Hins & H).
      apply insert_message_recipient_inr in Hins. destruct Hins as (-> & _).
      apply IH in H. rewrite H.
      change (resolved_recipients (with_recipients st _) pid names)
        with (resolved_recipients st pid names).
      cbn [with_recipients message_recipients projects agents messages
           file_reservations seq_projects seq_agents seq_messages
           seq_file_reservations].
      rewrite <- app_assoc. reflexivity.
    + simpl. apply IH, H.
Qed.

(** What a call of [send_message] that returns has stored. *)
Lemma send_message_effect env st args res st' :
  tool_send_message env st args = inr (res, st') ->
  exists project sender,
    select_project st (get (project_key args) "") = Some project
    /\ select_agent st (get (sender_name args) "") (p_id project) = Some sender
    /\ let mid := seq_messages st + 1 in
       let row := mkMessage mid (p_id project) (a_id sender)
                    (get (subject args) "") (get (body_md args) "")
                    (thread_id args) (get (importance args) "normal")
                    (if get (ack_required args) false then 1 else 0)
                    "message" (now_at env 0) in
       res = mkSendResult mid (get (subject args) "") (get (to args) [])
                          (now_at env 1)
       /\ st' = mkStore (projects st) (agents st) (messages st ++ [row])
                        (message_recipients st
                         ++ map (fun a => mkRecipient mid (a_id a) None None)
                                (resolved_recipients st (p_id project)
                                   (get (to args) [])))
                        (file_reservations st) (seq_projects st)
                        (seq_agents st) mid (seq_file_reservations st).
Proof.
  unfold tool_send_message, resolve_project. intros H. invert_result H.
  injection H as <- <-.
  exists x2, x3. split; [exact Hx2 |]. split; [exact Hx3 |]. cbv zeta.
  split; [reflexivity |].
  apply add_recipients_records in Hx4. rewrite Hx4. reflexivity.
Qed.




(** ** Marks touch one record *)

(** X11.  A read mark or an acknowledgement changes nothing but the
    caller's own delivery record of that message: every other record, and
    every other table, is as before, and the record itself keeps its key and
    its other timestamp. *)
Theorem marks_are_scoped env st args res st' :
  tool_mark_message_read env st args = inr (res, st')
  \/ tool_acknowledge_message env st args = inr (res, st') ->
  exists project agent,
    select_project st (get (project_key args) "") = Some project
    /\ select_agent st (get (agent_name args) "") (p_id project) = Some agent
    /\ projects st' = projects st /\ agents st' = agents st
    /\ messages st' = messages st
    /\ file_reservations st' = file_reservations st
    /\ map recipient_key (message_recipients st')
       = map recipient_key (message_recipients st)
    /\ (forall r, In r (message_recipients st) ->
                  mr_message_id r <> get (message_id args) 0
                  \/ mr_agent_id r <> a_id agent ->
                  In r (message_recipients st')).
Proof.
  intros [H | H].
  - unfold tool_mark_message_read, resolve_project, resolve_agent in H.
    invert_result H. injection H as _ <-.
    exists x0, x1. split; [exact Hx0 |]. split; [exact Hx1 |].
    cbn [update_recipients projects agents messages file_reservations
         message_recipients].
    repeat split.
    + rewrite map_map. apply map_ext. intros r. apply set_read_at_key.
    + intros r Hr Hother. apply in_map_iff. exists r. split; [| exact Hr].
      unfold set_read_at.
      destruct (Z.eqb_spec (mr_message_id r) (get (message_id args) 0));
        destruct (Z.eqb_spec (mr_agent_id r) (a_id x1)); simpl; trivial.
      exfalso. tauto.
  - unfold tool_acknowledge_message, resolve_project, resolve_agent in H.
    invert_result H. injection H as _ <-.
    exists x0, x1. split; [exact Hx0 |]. split; [exact Hx1 |].
    cbn [update_recipients projects agents messages file_reservations
         message_recipients].
    repeat split.
    + rewrite map_map. apply map_ext. intros r. apply set_acked_at_key.
    + intros r Hr Hother. apply in_map_iff. exists r. split; [| exact Hr].
      unfold set_acked_at.
      destruct (Z.eqb_spec (mr_message_id r) (get (message_id args) 0));
        destruct (Z.eqb_spec (mr_agent_id r) (a_id x1)); simpl; trivial.
      exfalso. tauto.
Qed.

Lemma marks_are_scoped_witness :
  exists res st',
    tool_mark_message_read (env_at 400) store_one_message
                           (mark_args "/repo" "Alice" 1) = inr (res, st')
    /\ messages st' = messages store_one_message
    /\ map recipient_key (message_recipients st') = [(1, 1)].
Proof.
  destruct (tool_mark_message_read (env_at 400) store_one_message
                                   (mark_args "/repo" "Alice" 1))
    as [e | [res st']] eqn:H.
  - vm_compute in H. discriminate H.
  - exists res, st'. split; [reflexivity |].
    destruct (marks_are_scoped _ _ _ _ _ (or_introl H))
      as (project & agent & _ & _ & _ & _ & Hm & _ & Hk & _).
    split; [exact Hm |]. rewrite Hk. reflexivity.
Defined.

(** ** Thread summaries *)





Lemma join_sender_In st ms m nm :
  In (m, nm) (join_sender st ms) <->
  In m ms /\ exists sender, In sender (agents st)
                            /\ a_id sender = m_sender_id m /\ a_name sender = nm.
Proof.
  unfold join_sender. rewrite in_flat_map. split.
  - intros (m' & Hm' & Hrow). apply in_map_iff in Hrow.
    destruct Hrow as (sender & E & Hs). injection E as -> <-.
    apply filter_In in Hs. destruct Hs as (Hs & Hid). apply Z.eqb_eq in Hid.
    split; [exact Hm' |]. exists sender. tauto.
  - intros (Hm & sender & Hs & Hid & Hnm). exists m. split; [exact Hm |].
    apply in_map_iff. exists sender. split; [rewrite Hnm; reflexivity |].
    apply filter_In. split; [exact Hs | apply Z.eqb_eq, Hid].
Qed.

Lemma in_thread_spec tid pid m :
  in_thread tid pid m = true <-> m_thread_id m = Some tid /\ m_project_id m = pid.
Proof.
  unfold in_thread. destruct (m_thread_id m) as [t |].
  - rewrite andb_true_iff, String.eqb_eq, Z.eqb_eq. split.
    + intros (-> & ->). split; reflexivity.
    + intros (E & ->). injection E as ->. split; reflexivity.
  - split; [discriminate | intros (E & _); discriminate E].
Qed.

Lemma truthy_str_some (o : option string) :
  truthy_str o = true -> o = Some (get o "").
Proof. destruct o; simpl; [reflexivity | discriminate]. Qed.




(** X13.  A thread without messages is not an error: for a thread id that
    no message of the project carries, the summary is empty (no
    participants, key points or action items, zero messages) and has no
    examples even when they are asked for. *)
Theorem summarize_thread_unknown env st args project :
  truthy_str (project_key args) = true ->
  truthy_str (thread_id args) = true ->
  select_project st (get (project_key args) "") = Some project ->
  (forall m, In m (messages st) -> m_thread_id m = thread_id args ->
             m_project_id m <> p_id project) ->
  tool_summarize_thread env st args
  = inr (mkThreadSummary (get (thread_id args) "") [] [] [] 0 None, st).
Proof.
  intros Hk Ht Hp Hnone.
  assert (Hfilter : filter (in_thread (get (thread_id args) "") (p_id project))
                           (messages st) = []).
  { apply truthy_str_some in Ht.
    induction (messages st) as [| m ms IH]; simpl; [reflexivity |].
    destruct (in_thread _ _ m) eqn:E.
    - exfalso. apply -> in_thread_spec in E. destruct E as (E1 & E2).
      apply (Hnone m (or_introl eq_refl)); congruence.
    - apply IH. intros m' Hm'. apply Hnone. right; exact Hm'. }
  unfold tool_summarize_thread, resolve_project.
  rewrite Hk, Ht. cbn [require bind ret]. rewrite Hp. cbn [fetch_or_raise bind ret].
  rewrite Hfilter. cbn.
  destruct (get (include_examples args) false); reflexivity.
Qed.

Lemma summarize_thread_unknown_witness :
  tool_summarize_thread (env_at 500) store_thread
                        (thread_args "/repo" "no-such-thread" (Some true))
  = inr (mkThreadSummary "no-such-thread" [] [] [] 0 None, store_thread).
Proof.
  apply (summarize_thread_unknown (env_at 500) store_thread
           (thread_args "/repo" "no-such-thread" (Some true))
           (mkProject 1 "_repo" "/repo" 0) eq_refl eq_refl eq_refl).
  intros m Hm Hth. vm_compute in Hm.
  destruct Hm as [<- | [<- | []]]; discriminate Hth.
Defined.

(** ** Search *)

(** X14.  Search is read only and scoped to the project, whatever the index
    answers: every hit is a stored message of the resolved project whose id
    the index returned, shown with the name of its sender, and with a limit
    that is not negative there are at most that many hits (twenty without a
    limit). *)
Theorem search_messages_scoped env st args hits st' :
  tool_search_messages env st args = inr (hits, st') ->
  exists project ranked,
    select_project st (get (project_key args) "") = Some project
    /\ fts5_match env (messages st) (get (query args) "") = Some ranked
    /\ st' = st
    /\ (forall h, In h hits ->
          exists m sender,
            In m (messages st) /\ m_project_id m = p_id project
            /\ In (m_id m) ranked
            /\ In sender (agents st) /\ a_id sender = m_sender_id m
            /\ sh_id h = m_id m /\ sh_subject h = m_subject m
            /\ sh_from h = a_name sender)
    /\ (0 <= get (limit args) 20 ->
        Z.of_nat (List.length hits) <= get (limit args) 20).
Proof.
  unfold tool_search_messages, resolve_project. intros H. invert_result H.
  injection H as <- <-.
  exists x1, x2. split; [exact Hx1 |]. split; [exact Hx2 |].
  split; [reflexivity |]. split.
  - intros h Hh. apply in_map_iff in Hh. destruct Hh as ((m & nm) & <- & Hrow).
    apply sql_limit_In in Hrow. apply -> join_sender_In in Hrow.
    destruct Hrow as (Hm & sender & Hs & Hid & Hnm).
    apply in_flat_map in Hm. destruct Hm as (rowid & Hranked & Hm).
    apply filter_In in Hm. destruct Hm as (Hm & Hk).
    apply andb_true_iff in Hk. rewrite !Z.eqb_eq in Hk. destruct Hk as (Hk1 & Hk2).
    exists m, sender. cbn [search_hit sh_id sh_subject sh_from fst snd].
    repeat split; trivial; [rewrite Hk1; exact Hranked | symmetry; exact Hnm].
  - intros Hn. rewrite length_map. apply sql_limit_length, Hn.
Qed.

Lemma search_messages_scoped_witness :
  exists hits,
    tool_search_messages (env_index 700 (Some [7; 1])) store_one_message
                         (search_args "/repo" "plan" None)
    = inr (hits, store_one_message)
    /\ map sh_id hits = [1].
Proof.
  destruct (tool_search_messages (env_index 700 (Some [7; 1])) store_one_message
                                 (search_args "/repo" "plan" None))
    as [e | [hits st']] eqn:H.
  - vm_compute in H. discriminate H.
  - destruct (search_messages_scoped _ _ _ _ _ H)
      as (project & ranked & _ & _ & -> & _).
    exists hits. split; [reflexivity |].
    vm_compute in H. injection H as <-. reflexivity.
Defined.

(** X15.  A query the index rejects is no validation error: the call raises
    the database's exception, the endpoint answers with code -32000, and
    the store is as before. *)
Theorem search_messages_index_error env st args project :
  truthy_str (project_key args) = true ->
  truthy_str (query args) = true ->
  select_project st (get (project_key args) "") = Some project ->
  fts5_match env (messages st) (get (query args) "") = None ->
  exists msg,
    mcp_endpoint env st (tools_call "search_messages" args)
    = (mkMCPResponse "1" None (Some (mkMCPError (-32000) msg)), st).
Proof.
  intros Hk Hq Hp Hidx. eexists.
  unfold mcp_endpoint, tools_call; cbn [rq_method rq_name rq_arguments rq_id get].
  change (negb ("tools/call" =? "tools/call")%string) with false. cbv iota.
  unfold dispatch_tool.
  change (tools_get "search_messages")
    with (Some (as_value VHits tool_search_messages)).
  unfold as_value, tool_search_messages, resolve_project.
  rewrite Hk, Hq. cbn [require bind ret]. rewrite Hp. cbn [fetch_or_raise bind ret].
  rewrite Hidx. cbn [fetch_or_raise bind ret raise exn_message]. reflexivity.
Qed.

Lemma search_messages_index_error_witness :
  exists msg,
    mcp_endpoint (env_index 700 None) store_one_message
                 (tools_call "search_messages" (search_args "/repo" "AND" None))
    = (mkMCPResponse "1" None (Some (mkMCPError (-32000) msg)), store_one_message).
Proof.
  exact (search_messages_index_error
           (env_index 700 None) store_one_message
           (search_args "/repo" "AND" None) (mkProject 1 "_repo" "/repo" 0)
           eq_refl eq_refl eq_refl eq_refl).
Defined.

(** ** Requests the dispatcher turns down *)

Lemma tools_get_unknown nm : ~ In nm tool_names -> tools_get nm = None.
Proof.
  unfold tools_get, tool_names. intros Hnot.
  induction tools as [| t ts IH]; simpl in *; [reflexivity |].
  destruct (String.eqb_spec (fst t) nm) as [E | _].
  - exfalso. apply Hnot. left. exact E.
  - apply IH. intros Hin. apply Hnot. right. exact Hin.
Qed.

(** X16.  A request whose method is not [tools/call] is answered with
    code -32601, and a [tools/call] for a name that is none of the ten
    tools (a missing name included) with code -32602 and the message
    "Unknown tool: " followed by the name; either way there is no result
    and the store is as before, whatever the arguments are. *)
Theorem requests_turned_down env st request :
  (rq_method request <> "tools/call" ->
   mcp_endpoint env st request
   = (mkMCPResponse (rq_id request) None
        (Some (mkMCPError (-32601)
                 ("Method not found: " +++ rq_method request))), st))
  /\ (rq_method request = "tools/call" ->
      ~ In (get (rq_name request) "") tool_names ->
      mcp_endpoint env st request
      = (mkMCPResponse (rq_id request) None
           (Some (mkMCPError (-32602)
                    ("Unknown tool: " +++ get (rq_name request) ""))), st)).
Proof.
  unfold mcp_endpoint. split.
  - intros Hm. apply String.eqb_neq in Hm. rewrite Hm. reflexivity.
  - intros Hm Hnot. rewrite Hm. cbn [String.eqb negb].
    change (negb ("tools/call" =? "tools/call")%string) with false. cbv iota.
    unfold dispatch_tool. rewrite (tools_get_unknown _ Hnot). reflexivity.
Qed.

(** ** Releasing and reserving *)

Lemma filter_filter_negb {A : Type} (f : A -> bool) (l : list A) :
  filter (fun x => negb (f x)) (filter (fun x => negb (f x)) l)
  = filter (fun x => negb (f x)) l
  /\ filter f (filter (fun x => negb (f x)) l) = [].
Proof.
  induction l as [| x l (IH1 & IH2)]; simpl; [split; reflexivity |].
  destruct (f x) eqn:E; simpl; [split; assumption |].
  rewrite E; simpl. rewrite IH1, IH2. split; reflexivity.
Qed.

(** X17.  Releasing is idempotent: the same release call made again
    releases nothing ([released] is 0) and leaves the store as the first
    call left it. *)
Theorem release_again env1 env2 st args r1 st1 :
  tool_release_file_reservations env1 st args = inr (r1, st1) ->
  tool_release_file_reservations env2 st1 args
  = inr (mkReleaseResult 0 (now_at env2 0), st1).
Proof.
  unfold tool_release_file_reservations, resolve_project, resolve_agent.
  intros H. invert_result H. injection H as _ <-.
  rewrite Hx, Hx0. cbn [require bind ret].
  unfold select_project in *. cbn [projects]. rewrite Hx1.
  cbn [fetch_or_raise bind ret].
  unfold select_agent in *. cbn [agents]. rewrite Hx2.
  cbn [fetch_or_raise bind ret file_reservations projects agents messages
       message_recipients seq_projects seq_agents seq_messages
       seq_file_reservations].
  destruct (filter_filter_negb (release_selector args (a_id x2))
                               (file_reservations st)) as (E1 & E2).
  rewrite E1, E2. reflexivity.
Qed.

Lemma release_again_witness :
  exists r1 st1,
    tool_release_file_reservations (env_at 500) store_alice_holds_two
      (release_args "/repo" "Alice" None None) = inr (r1, st1)
    /\ released r1 = 2
    /\ tool_release_file_reservations (env_at 600) st1
         (release_args "/repo" "Alice" None None)
       = inr (mkReleaseResult 0 600, st1).
Proof.
  destruct (tool_release_file_reservations (env_at 500) store_alice_holds_two
              (release_args "/repo" "Alice" None None))
    as [e | [r1 st1]] eqn:H.
  - vm_compute in H. discriminate H.
  - exists r1, st1. split; [reflexivity |]. split.
    + vm_compute in H. injection H as <- _. reflexivity.
    + exact (release_again _ (env_at 600) _ _ _ _ H).
Defined.

Lemma is_free_all agts pid aid swept path :
  (forall fr, In fr swept -> is_conflicting pid aid path fr = false) ->
  is_free agts pid aid swept path = true.
Proof.
  intros Hnone. unfold is_free, holders_of, conflicting.
  replace (filter (is_conflicting pid aid path) swept) with (@nil FileReservation);
    [reflexivity |].
  symmetry. induction swept as [| fr swept IH]; simpl; [reflexivity |].
  rewrite (Hnone fr (or_introl eq_refl)). apply IH.
  intros fr' Hin. apply Hnone. right; exact Hin.
Qed.

Lemma filter_all_true {A : Type} (f : A -> bool) (l : list A) :
  (forall x, In x l -> f x = true) -> filter f l = l.
Proof.
  induction l as [| x l IH]; simpl; intros H; [reflexivity |].
  rewrite (H x (or_introl eq_refl)), IH; [reflexivity |].
  intros y Hy. apply H. right; exact Hy.
Qed.

(** X18.  Only another agent's exclusive reservation in the same project
    can refuse a path: when every unexpired reservation of the project is
    the caller's own or not exclusive, every requested path is granted, in
    request order, and there is no conflict; reservations of other projects
    do not matter. *)
Theorem reserve_unblocked env st args res st' project agent :
  tool_file_reservation_paths env st args = inr (res, st') ->
  select_project st (get (project_key args) "") = Some project ->
  select_agent st (get (agent_name args) "") (p_id project) = Some agent ->
  (forall fr, In fr (file_reservations st) ->
              now_at env 0 <= fr_expires_ts fr ->
              fr_project_id fr = p_id project ->
              fr_agent_id fr = a_id agent \/ fr_exclusive fr <> 1) ->
  conflicts res = []
  /\ map g_path_pattern (granted res) = get (paths args) [].
Proof.
  intros H Hp Ha Hmine. apply file_reservation_paths_inr in H.
  destruct H as (project' & agent' & _ & Hp' & Ha' & -> & _).
  rewrite Hp in Hp'. injection Hp' as <-. rewrite Ha in Ha'. injection Ha' as <-.
  cbn [granted conflicts loop_after rl_granted rl_conflicts].
  assert (Hfree : forall p, is_free (agents st) (p_id project) (a_id agent)
                              (delete_expired (now_at env 0) (file_reservations st)) p
                            = true).
  { intros p. apply is_free_all. intros fr Hfr.
    apply delete_expired_In in Hfr. destruct Hfr as (Hfr & Hlive).
    unfold is_conflicting.
    destruct (Z.eqb_spec (fr_project_id fr) (p_id project)) as [Epid | _];
      [| reflexivity].
    destruct (Hmine fr Hfr Hlive Epid) as [Eown | Eshared].
    - rewrite Eown, Z.eqb_refl. reflexivity.
    - apply Z.eqb_neq in Eshared. rewrite Eshared, andb_false_r. reflexivity. }
  split.
  - replace (filter _ (get (paths args) [])) with (@nil string); [reflexivity |].
    symmetry. induction (get (paths args) []) as [| p ps IH]; simpl; [reflexivity |].
    rewrite Hfree. simpl. exact IH.
  - rewrite grants_paths. apply filter_all_true. intros p _. apply Hfree.
Qed.

Lemma reserve_unblocked_witness :
  exists res st',
    tool_file_reservation_paths (env_at 200) (store_alice_holds "src/a.ts")
      (reserve_args "/repo" "Alice" ["src/a.ts"; "src/*"] None None)
    = inr (res, st')
    /\ conflicts res = []
    /\ map g_path_pattern (granted res) = ["src/a.ts"; "src/*"].
Proof.
  destruct (tool_file_reservation_paths (env_at 200) (store_alice_holds "src/a.ts")
              (reserve_args "/repo" "Alice" ["src/a.ts"; "src/*"] None None))
    as [e | [res st']] eqn:H.
  - vm_compute in H. discriminate H.
  - exists res, st'. split; [reflexivity |].
    apply (reserve_unblocked _ _ _ _ _ (mkProject 1 "_repo" "/repo" 0)
             (mkAgent 1 "Alice" "unknown" "unknown" "" 10 10 1) H eq_refl eq_refl).
    intros fr Hfr _ _. vm_compute in Hfr. destruct Hfr as [<- | []].
    left. reflexivity.
Defined.

(** X19.  Whether a path is granted does not depend on [exclusive],
    [ttl_seconds] or [reason]: two calls made in the same store at the same
    time for the same project, agent and paths grant the same paths and
    report the same conflicts, so a request that is not exclusive is
    refused by another agent's exclusive reservation like an exclusive
    one. *)
Theorem reserve_outcome_ignores_flags env1 env2 st args1 args2 res1 st1 res2 st2 :
  tool_file_reservation_paths env1 st args1 = inr (res1, st1) ->
  tool_file_reservation_paths env2 st args2 = inr (res2, st2) ->
  project_key args1 = project_key args2 ->
  agent_name args1 = agent_name args2 ->
  paths args1 = paths args2 ->
  now_at env1 0 = now_at env2 0 ->
  map g_path_pattern (granted res1) = map g_path_pattern (granted res2)
  /\ conflicts res1 = conflicts res2.
Proof.
  intros H1 H2 Ek Ea Eps Enow.
  apply file_reservation_paths_inr in H1, H2.
  destruct H1 as (project & agent & _ & Hp & Ha & -> & _).
  destruct H2 as (project' & agent' & _ & Hp' & Ha' & -> & _).
  rewrite Ek in Hp. rewrite Hp in Hp'. injection Hp' as <-.
  rewrite Ea in Ha. rewrite Ha in Ha'. injection Ha' as <-.
  cbn [granted conflicts loop_after rl_granted rl_conflicts].
  rewrite !grants_paths, Eps, Enow. split; reflexivity.
Qed.

Lemma reserve_outcome_ignores_flags_witness :
  exists res st',
    tool_file_reservation_paths (env_at 200) (store_alice_holds "src/a.ts")
      (reserve_args "/repo" "Bob" ["src/a.ts"] (Some 60) (Some false))
    = inr (res, st')
    /\ conflicts res = [mkConflict "src/a.ts" ["Alice"]].
Proof.
  destruct (tool_file_reservation_paths (env_at 200) (store_alice_holds "src/a.ts")
              (reserve_args "/repo" "Bob" ["src/a.ts"] (Some 60) (Some false)))
    as [e | [res st']] eqn:H.
  - vm_compute in H. discriminate H.
  - exists res, st'. split; [reflexivity |].
    destruct (reserve_outcome_ignores_flags
                (env_at 200) (env_at 200) (store_alice_holds "src/a.ts")
                (reserve_args "/repo" "Bob" ["src/a.ts"] (Some 60) (Some false))
                (reserve_args "/repo" "Bob" ["src/a.ts"] None (Some true))
                res st'
                (mkReserveResult [] [mkConflict "src/a.ts" ["Alice"]])
                (store_alice_holds "src/a.ts")
                H eq_refl eq_refl eq_refl eq_refl eq_refl) as (_ & Hc).
    exact Hc.
Defined.

(** ** Requests that are refused *)

(** LIKE folds ASCII case: a path matches every stored pattern that spells
    it in another case. *)
Lemma like_other_case path stored :
  str_map to_lower path = str_map to_lower stored ->
  like (replace "*"%char "%"%char path) stored = true.
Proof.
  revert stored; induction path as [| c path IH]; intros [| d stored]; simpl;
    try discriminate; trivial.
  intros E. injection E as Ec E. specialize (IH stored E).
  destruct (Ascii.eqb c "*"%char).
  - change (Ascii.eqb "%"%char "%"%char) with true. cbv iota.
    destruct stored; rewrite IH; apply orb_true_r.
  - destruct (Ascii.eqb c "%"%char).
    + destruct stored; rewrite IH; apply orb_true_r.
    + rewrite Ec, Ascii.eqb_refl, orb_true_r. simpl. exact IH.
Qed.

(** X20.  A request is refused whenever another agent holds an unexpired
    exclusive reservation in the project whose pattern is the requested
    path, or is matched by the requested path read as a glob, or differs
    from it only in ASCII case: the path is reported in [conflicts] with
    that holder's name and no reservation is granted for it. *)
Theorem reserve_refused env st args res st' project agent fr path :
  wf st ->
  tool_file_reservation_paths env st args = inr (res, st') ->
  select_project st (get (project_key args) "") = Some project ->
  select_agent st (get (agent_name args) "") (p_id project) = Some agent ->
  In path (get (paths args) []) ->
  In fr (file_reservations st) ->
  now_at env 0 <= fr_expires_ts fr ->
  fr_exclusive fr = 1 ->
  fr_project_id fr = p_id project ->
  fr_agent_id fr <> a_id agent ->
  fr_path_pattern fr = path
  \/ glob_match path (fr_path_pattern fr) = true
  \/ str_map to_lower path = str_map to_lower (fr_path_pattern fr) ->
  (exists c holder,
     In c (conflicts res) /\ c_path c = path
     /\ In holder (agents st) /\ a_id holder = fr_agent_id fr
     /\ In (a_name holder) (c_holders c))
  /\ (forall g, In g (granted res) -> g_path_pattern g <> path).
Proof.
  intros W H Hp Ha Hpath Hfr Hlive Hexcl Hproj Hother Hmatch.
  apply file_reservation_paths_inr in H.
  destruct H as (project' & agent' & _ & Hp' & Ha' & -> & _).
  rewrite Hp in Hp'. injection Hp' as <-. rewrite Ha in Ha'. injection Ha' as <-.
  cbn [granted conflicts loop_after rl_granted rl_conflicts].
  set (swept := delete_expired (now_at env 0) (file_reservations st)).
  assert (Hc : is_conflicting (p_id project) (a_id agent) path fr = true).
  { unfold is_conflicting. rewrite Hproj, Z.eqb_refl, Hexcl.
    apply Z.eqb_neq in Hother. rewrite Hother. simpl.
    destruct Hmatch as [E | [G | L]].
    - apply request_glob_detected. left; exact E.
    - apply request_glob_detected. right; exact G.
    - unfold pattern_conflict. rewrite (like_other_case _ _ L).
      rewrite orb_true_r. reflexivity. }
  assert (Hswept : In fr swept) by (apply delete_expired_In; split; assumption).
  destruct (conflicting_complete (agents st) swept (p_id project) (a_id agent)
              path fr Hswept Hc (wf_holder_registered st fr W Hfr))
    as (holder & Hholder & Hid & Hrow).
  assert (Hbusy : is_free (agents st) (p_id project) (a_id agent) swept path = false).
  { unfold is_free, holders_of.
    destruct (conflicting (agents st) swept (p_id project) (a_id agent) path);
      [destruct Hrow | reflexivity]. }
  split.
  - exists (mkConflict path
              (map snd (holders_of (agents st) (p_id project) (a_id agent) swept path))).
    exists holder. split; [| split; [reflexivity | split; [exact Hholder | split; [exact Hid |]]]].
    + apply in_map_iff. exists path. split; [reflexivity |].
      apply filter_In. split; [exact Hpath | rewrite Hbusy; reflexivity].
    + cbn [c_holders]. apply in_map_iff. exists (fr, a_name holder).
      split; [reflexivity | exact Hrow].
  - intros g Hg E. apply (in_map g_path_pattern) in Hg.
    rewrite grants_paths in Hg. apply filter_In in Hg. destruct Hg as (_ & Hfree).
    rewrite E in Hfree. congruence.
Qed.

Lemma reserve_refused_witness :
  exists res st',
    tool_file_reservation_paths (env_at 200) (store_alice_holds "src/Main.ts")
      (reserve_args "/repo" "Bob" ["SRC/main.ts"] None None)
    = inr (res, st')
    /\ granted res = []
    /\ exists c, In c (conflicts res) /\ c_path c = "SRC/main.ts".
Proof.
  destruct (tool_file_reservation_paths (env_at 200) (store_alice_holds "src/Main.ts")
              (reserve_args "/repo" "Bob" ["SRC/main.ts"] None None))
    as [e | [res st']] eqn:H.
  - vm_compute in H. discriminate H.
  - exists res, st'. split; [reflexivity |].
    destruct (reserve_refused
                (env_at 200) (store_alice_holds "src/Main.ts")
                (reserve_args "/repo" "Bob" ["SRC/main.ts"] None None)
                res st' (mkProject 1 "_repo" "/repo" 0)
                (mkAgent 2 "Bob" "unknown" "unknown" "" 20 20 1)
                (mkFileReservation 1 1 1 "src/Main.ts" 1 "" 100 3600000101)
                "SRC/main.ts"
                eq_refl H eq_refl eq_refl (or_introl eq_refl) (or_introl eq_refl))
      as ((c & holder & Hc & Hpath & _) & Hnot).
    + vm_compute. discriminate.
    + reflexivity.
    + reflexivity.
    + discriminate.
    + right; right. reflexivity.
    + split.
      * vm_compute in H. injection H as <- _. reflexivity.
      * exists c. split; assumption.
Defined.

(** ** Nothing but reservations is ever deleted *)

Lemma marks_kept_same l : Forall2 marks_kept l l.
Proof.
  induction l as [| r l IH]; constructor; [| exact IH].
  unfold marks_kept. tauto.
Qed.

Lemma marks_kept_map f l :
  (forall r, marks_kept r (f r)) -> Forall2 marks_kept l (map f l).
Proof.
  intros Hf. induction l as [| r l IH]; simpl; constructor; [apply Hf | exact IH].
Qed.

Lemma set_read_at_kept now mid aid r : marks_kept r (set_read_at now mid aid r).
Proof.
  unfold marks_kept, set_read_at. destruct (_ && _); simpl;
    repeat split; trivial; discriminate.
Qed.

Lemma set_acked_at_kept now mid aid r : marks_kept r (set_acked_at now mid aid r).
Proof.
  unfold marks_kept, set_acked_at. destruct (_ && _); simpl;
    repeat split; trivial; discriminate.
Qed.

Ltac grows_trivial :=
  first [ exists []; rewrite app_nil_r; reflexivity
        | exists _, []; rewrite app_nil_r; split; [reflexivity | apply marks_kept_same]
        | lia ].

Lemma ledger_grows_same st : ledger_grows st st.
Proof.
  unfold ledger_grows. repeat split; try grows_trivial.
  exists (message_recipients st), []. rewrite app_nil_r.
  split; [reflexivity | apply marks_kept_same].
Qed.

Lemma touch_agent_static now id a : agent_static (touch_agent now id a) = agent_static a.
Proof. unfold touch_agent. destruct (a_id a =? id); reflexivity. Qed.

Lemma dispatch_tool_grows env st nm args v st' :
  dispatch_tool env st nm args = inr (v, st') -> ledger_grows st st'.
Proof.
  unfold dispatch_tool, tools_get, tools. cbn [find fst snd].
  repeat match goal with
    | |- context [(?k =? nm)%string] => destruct (k =? nm)%string
    end; cbn [option_map snd]; try discriminate;
    unfold as_value; intros H; apply bind_inr in H;
    destruct H as ((r & st1) & Hr & H); injection H as _ <-; cbn [snd].
  - apply ensure_project_effect in Hr. cbv zeta in Hr.
    destruct Hr as (_ & _ & [(_ & ->) | (_ & _ & _ & ->)]);
      [apply ledger_grows_same |].
    unfold ledger_grows; cbn [projects agents messages message_recipients
      seq_projects seq_agents seq_messages seq_file_reservations].
    split; [exists [r]; reflexivity |].
    repeat split; try grows_trivial.
    exists (message_recipients st), []. rewrite app_nil_r.
    split; [reflexivity | apply marks_kept_same].
  - apply register_agent_effect in Hr. destruct Hr as (project & _ & _ & Hr).
    cbv zeta in Hr. destruct Hr as [(_ & ->) | (_ & _ & ->)];
      unfold ledger_grows; cbn [projects agents messages message_recipients
        seq_projects seq_agents seq_messages seq_file_reservations].
    + split; [grows_trivial |]. split.
      * exists []. rewrite app_nil_r, map_map. apply map_ext.
        intros a. apply touch_agent_static.
      * repeat split; try grows_trivial.
        exists (message_recipients st), []. rewrite app_nil_r.
        split; [reflexivity | apply marks_kept_same].
    + split; [grows_trivial |]. split.
      * exists [agent_static r]. rewrite map_app. reflexivity.
      * repeat split; try grows_trivial.
        exists (message_recipients st), []. rewrite app_nil_r.
        split; [reflexivity | apply marks_kept_same].
  - apply send_message_effect in Hr.
    destruct Hr as (project & sender & _ & _ & Hr). cbv zeta in Hr.
    destruct Hr as (_ & ->).
    unfold ledger_grows; cbn [projects agents messages message_recipients
      seq_projects seq_agents seq_messages seq_file_reservations].
    split; [grows_trivial |]. split; [grows_trivial |].
    split; [eexists; reflexivity |].
    split; [| repeat split; lia].
    eexists; eexists. split; [reflexivity | apply marks_kept_same].
  - unfold tool_fetch_inbox, resolve_project, resolve_agent in Hr.
    invert_result Hr. injection Hr as _ <-. apply ledger_grows_same.
  - unfold tool_mark_message_read, resolve_project, resolve_agent in Hr.
    invert_result Hr. injection Hr as _ <-.
    unfold ledger_grows, update_recipients;
      cbn [projects agents messages message_recipients
           seq_projects seq_agents seq_messages seq_file_reservations].
    split; [grows_trivial |]. split; [grows_trivial |]. split; [grows_trivial |].
    split; [| repeat split; lia].
    eexists; exists []. rewrite app_nil_r. split; [reflexivity |].
    apply marks_kept_map. intros r0. apply set_read_at_kept.
  - unfold tool_summarize_thread, resolve_project in Hr.
    invert_result Hr. injection Hr as _ <-. apply ledger_grows_same.
  - destruct (file_reservation_paths_inr _ _ _ _ _ Hr)
      as (project & agent & _ & _ & _ & _ & ->).
    unfold ledger_grows; cbn [projects agents messages message_recipients
      seq_projects seq_agents seq_messages seq_file_reservations
      loop_after rl_seq].
    split; [grows_trivial |]. split; [grows_trivial |]. split; [grows_trivial |].
    split; [| repeat split; lia].
    exists (message_recipients st), []. rewrite app_nil_r.
    split; [reflexivity | apply marks_kept_same].
  - unfold tool_release_file_reservations, resolve_project, resolve_agent in Hr.
    invert_result Hr. injection Hr as _ <-.
    unfold ledger_grows; cbn [projects agents messages message_recipients
      seq_projects seq_agents seq_messages seq_file_reservations].
    split; [grows_trivial |]. split; [grows_trivial |]. split; [grows_trivial |].
    split; [| repeat split; lia].
    exists (message_recipients st), []. rewrite app_nil_r.
    split; [reflexivity | apply marks_kept_same].
  - unfold tool_acknowledge_message, resolve_project, resolve_agent in Hr.
    invert_result Hr. injection Hr as _ <-.
    unfold ledger_grows, update_recipients;
      cbn [projects agents messages message_recipients
           seq_projects seq_agents seq_messages seq_file_reservations].
    split; [grows_trivial |]. split; [grows_trivial |]. split; [grows_trivial |].
    split; [| repeat split; lia].
    eexists; exists []. rewrite app_nil_r. split; [reflexivity |].
    apply marks_kept_map. intros r0. apply set_acked_at_kept.
  - unfold tool_search_messages, resolve_project in Hr.
    invert_result Hr. injection Hr as _ <-. apply ledger_grows_same.
Qed.

(** X21.  No request deletes or rewrites a project, an agent, a message or
    a delivery record: after any request the projects and the messages are
    the old rows followed by new ones, the agents likewise in every column
    but [last_active_ts], the delivery records are the old pairs (none of
    their marks cleared) followed by new ones, and no id counter has gone
    down.  Only file reservations are ever removed. *)
Theorem ledger_append_only env st request :
  let st' := snd (mcp_endpoint env st request) in
  (exists new, projects st' = projects st ++ new)
  /\ (exists new, map agent_static (agents st')
                  = map agent_static (agents st) ++ new)
  /\ (exists new, messages st' = messages st ++ new)
  /\ (exists old new, message_recipients st' = old ++ new
                      /\ Forall2 marks_kept (message_recipients st) old)
  /\ seq_projects st <= seq_projects st'
  /\ seq_agents st <= seq_agents st'
  /\ seq_messages st <= seq_messages st'
  /\ seq_file_reservations st <= seq_file_reservations st'.
Proof.
  cbv zeta. change (ledger_grows st (snd (mcp_endpoint env st request))).
  unfold mcp_endpoint.
  destruct (negb _); [apply ledger_grows_same |].
  destruct (dispatch_tool env st _ _) as [[m | m | m] | [v st']] eqn:H;
    try apply ledger_grows_same.
  eapply dispatch_tool_grows, H.
Qed.

(** ** Nothing crosses a project boundary *)

Lemma agent_of_project_grows st st' aid pid :
  ledger_grows st st' ->
  agent_of_project (agents st) aid pid -> agent_of_project (agents st') aid pid.
Proof.
  intros (_ & (new & Hag) & _) (a & Ha & Hid & Hpid).
  assert (Hin : In (agent_static a) (map agent_static (agents st')))
    by (rewrite Hag; apply in_or_app; left; apply in_map; exact Ha).
  apply in_map_iff in Hin. destruct Hin as (a' & E & Ha').
  exists a'. unfold agent_static in E. injection E as E1 _ _ _ _ _ E7.
  split; [exact Ha' |]. split; congruence.
Qed.

Lemma isolation_frame st st' :
  ledger_grows st st' ->
  isolation st ->
  (forall m, In m (messages st') -> In m (messages st)
     \/ agent_of_project (agents st') (m_sender_id m) (m_project_id m)) ->
  (forall r, In r (message_recipients st') ->
     (exists r0, In r0 (message_recipients st)
                 /\ recipient_key r0 = recipient_key r)
     \/ exists m, In m (messages st') /\ m_id m = mr_message_id r
                   /\ agent_of_project (agents st') (mr_agent_id r)
                                        (m_project_id m)) ->
  (forall fr, In fr (file_reservations st') -> In fr (file_reservations st)
     \/ agent_of_project (agents st') (fr_agent_id fr) (fr_project_id fr)) ->
  isolation st'.
Proof.
  intros G (I1 & I2 & I3) Hm Hr Hfr.
  pose proof G as (_ & _ & (newm & Hmsg) & _).
  split; [| split].
  - intros m Hin. destruct (Hm m Hin) as [Hold | Hnew]; [| exact Hnew].
    eapply agent_of_project_grows; [exact G | apply I1, Hold].
  - intros r Hin. destruct (Hr r Hin) as [(r0 & Hr0 & Hk) | Hnew]; [| exact Hnew].
    destruct (I2 r0 Hr0) as (m & Hmin & Hid & Hag).
    unfold recipient_key in Hk. injection Hk as Hk1 Hk2.
    exists m. split; [rewrite Hmsg; apply in_or_app; left; exact Hmin |].
    split; [congruence |]. rewrite <- Hk2.
    eapply agent_of_project_grows; eassumption.
  - intros fr Hin. destruct (Hfr fr Hin) as [Hold | Hnew]; [| exact Hnew].
    eapply agent_of_project_grows; [exact G | apply I3, Hold].
Qed.

Lemma same_key_in_map f l r :
  (forall x, recipient_key (f x) = recipient_key x) ->
  In r (map f l) ->
  exists r0, In r0 l /\ recipient_key r0 = recipient_key r.
Proof.
  intros Hk Hin. apply in_map_iff in Hin. destruct Hin as (r0 & <- & Hr0).
  exists r0. split; [exact Hr0 | symmetry; apply Hk].
Qed.

Ltac keep_old_row :=
  let z := fresh "z" in
  let Hz := fresh "Hz" in
  intros z Hz; left;
  first [exact Hz | exists z; split; [exact Hz | reflexivity]].

Lemma dispatch_tool_isolation env st nm args v st' :
  isolation st -> dispatch_tool env st nm args = inr (v, st') -> isolation st'.
Proof.
  intros I H. pose proof (dispatch_tool_grows _ _ _ _ _ _ H) as G.
  apply (isolation_frame st st' G I); revert H;
    unfold dispatch_tool, tools_get, tools; cbn [find fst snd];
    repeat match goal with
      | |- context [(?k =? nm)%string] => destruct (k =? nm)%string
      end; cbn [option_map snd]; try discriminate;
    unfold as_value; intros H; apply bind_inr in H;
    destruct H as ((r & st1) & Hr & H); injection H as _ E; subst st1.
  all: try (apply ensure_project_effect in Hr; cbv zeta in Hr;
            destruct Hr as (_ & _ & [(_ & ->) | (_ & _ & _ & ->)]);
            keep_old_row).
  all: try (apply register_agent_effect in Hr; destruct Hr as (project & _ & _ & Hr);
            cbv zeta in Hr; destruct Hr as [(_ & ->) | (_ & _ & ->)];
            keep_old_row).
  all: try (unfold tool_fetch_inbox, resolve_project, resolve_agent in Hr;
            invert_result Hr; injection Hr as _ <-;
            keep_old_row).
  all: try (unfold tool_summarize_thread, resolve_project in Hr;
            invert_result Hr; injection Hr as _ <-;
            keep_old_row).
  all: try (unfold tool_search_messages, resolve_project in Hr;
            invert_result Hr; injection Hr as _ <-;
            keep_old_row).
  all: try (unfold tool_mark_message_read, resolve_project, resolve_agent in Hr;
            invert_result Hr; injection Hr as _ <-;
            let z := fresh "z" in let Hz := fresh "Hz" in
            intros z Hz; left;
            first [exact Hz
                  | apply (same_key_in_map _ _ _ (set_read_at_key _ _ _) Hz)]).
  all: try (unfold tool_acknowledge_message, resolve_project, resolve_agent in Hr;
            invert_result Hr; injection Hr as _ <-;
            let z := fresh "z" in let Hz := fresh "Hz" in
            intros z Hz; left;
            first [exact Hz
                  | apply (same_key_in_map _ _ _ (set_acked_at_key _ _ _) Hz)]).
  all: try (unfold tool_release_file_reservations, resolve_project, resolve_agent in Hr;
            invert_result Hr; injection Hr as _ <-;
            let z := fresh "z" in let Hz := fresh "Hz" in
            intros z Hz; left;
            first [exact Hz
                  | exists z; split; [exact Hz | reflexivity]
                  | apply filter_In in Hz; tauto]).
  - apply send_message_effect in Hr.
    destruct Hr as (project & sender & _ & Hs & Hr). cbv zeta in Hr.
    destruct Hr as (_ & ->). cbn [messages agents].
    intros m Hm. apply in_app_or in Hm. destruct Hm as [Hm | [<- | []]];
      [left; exact Hm | right].
    apply select_agent_some in Hs. destruct Hs as (Hin & _ & Hpid).
    exists sender. cbn [m_sender_id m_project_id]. tauto.
  - destruct (file_reservation_paths_inr _ _ _ _ _ Hr)
      as (project & agent & _ & _ & _ & _ & ->).
    intros x Hx. left. exact Hx.
  - apply send_message_effect in Hr.
    destruct Hr as (project & sender & _ & _ & Hr). cbv zeta in Hr.
    destruct Hr as (_ & ->). cbn [messages agents message_recipients].
    intros x Hx. apply in_app_or in Hx. destruct Hx as [Hx | Hx].
    + left. exists x. split; [exact Hx | reflexivity].
    + right. apply in_map_iff in Hx. destruct Hx as (a & <- & Ha).
      apply -> resolved_recipients_In in Ha. destruct Ha as (n & _ & Ha).
      apply select_agent_some in Ha. destruct Ha as (Hin & _ & Hpid).
      eexists. split; [apply in_or_app; right; left; reflexivity |].
      split; [reflexivity |]. exists a. cbn [mr_agent_id m_project_id]. tauto.
  - destruct (file_reservation_paths_inr _ _ _ _ _ Hr)
      as (project & agent & _ & _ & _ & _ & ->).
    intros x Hx. left. exists x. split; [exact Hx | reflexivity].
  - apply send_message_effect in Hr.
    destruct Hr as (project & sender & _ & _ & Hr). cbv zeta in Hr.
    destruct Hr as (_ & ->). intros x Hx. left. exact Hx.
  - destruct (file_reservation_paths_inr _ _ _ _ _ Hr)
      as (project & agent & _ & _ & Ha & _ & ->).
    cbn [file_reservations loop_after rl_rows agents].
    intros x Hx. apply in_app_or in Hx. destruct Hx as [Hx | Hx].
    + left. apply delete_expired_In in Hx. tauto.
    + right. apply in_map_iff in Hx. destruct Hx as (g & <- & _).
      apply select_agent_some in Ha. destruct Ha as (Hin & _ & Hpid).
      exists agent. cbn [new_row fr_agent_id fr_project_id]. tauto.
Qed.

Lemma mcp_endpoint_isolation env st request :
  isolation st -> isolation (snd (mcp_endpoint env st request)).
Proof.
  intros I. unfold mcp_endpoint.
  destruct (negb _); [exact I |].
  destruct (dispatch_tool env st _ _) as [[m | m | m] | [v st']] eqn:H;
    try exact I.
  eapply dispatch_tool_isolation; eassumption.
Qed.

Lemma reachable_isolation st : reachable st -> isolation st.
Proof.
  induction 1 as [| env st request _ IH].
  - unfold isolation; simpl. repeat split; intros ? [].
  - apply mcp_endpoint_isolation, IH.
Qed.

Lemma reachable_store_two_holders : reachable store_two_holders.
Proof.
  unfold store_two_holders.
  repeat apply reachable_request. apply reachable_store_two_agents.
Defined.

(** X22.  Nothing crosses a project boundary: in every store the server
    can reach, every message was sent by an agent of the message's project,
    every delivery record is of a stored message and of an agent of that
    message's project, and every file reservation is held by an agent of
    the reservation's project. *)
Theorem project_isolation st :
  reachable st ->
  (forall m, In m (messages st) ->
             agent_of_project (agents st) (m_sender_id m) (m_project_id m))
  /\ (forall r, In r (message_recipients st) ->
                exists m, In m (messages st) /\ m_id m = mr_message_id r
                          /\ agent_of_project (agents st) (mr_agent_id r)
                                               (m_project_id m))
  /\ (forall fr, In fr (file_reservations st) ->
                 agent_of_project (agents st) (fr_agent_id fr) (fr_project_id fr)).
Proof.
  apply reachable_isolation.
Qed.

Lemma project_isolation_witness :
  agent_of_project (agents store_two_holders) 2 1.
Proof.
  apply (proj2 (proj2 (project_isolation store_two_holders
                         reachable_store_two_holders))
           (mkFileReservation 2 1 2 "lib/*" 1 "" 200 3600000201)).
  vm_compute. right. left. reflexivity.
Defined.

Lemma ordered_exclusion_witness :
  "src/foo.ts" <> "lib/*" /\ glob_match "lib/*" "src/foo.ts" = false.
Proof.
  exact (ordered_exclusion store_two_holders []
           (mkFileReservation 1 1 1 "src/foo.ts" 1 "" 100 3600000101) []
           (mkFileReservation 2 1 2 "lib/*" 1 "" 200 3600000201) []
           reachable_store_two_holders eq_refl eq_refl eq_refl
           ltac:(discriminate)).
Defined.

(** X24.  The primary keys and the id counters hold in every store the
    server can reach: agent ids and reservation ids are not repeated and
    lie between 1 and their counter, so a deleted reservation's id is never
    given out again; there is at most one delivery record for a message and
    an agent; and every reservation is held by a registered agent. *)
Theorem keys_and_counters st :
  reachable st ->
  NoDup (map a_id (agents st))
  /\ (forall a, In a (agents st) -> 1 <= a_id a <= seq_agents st)
  /\ NoDup (map recipient_key (message_recipients st))
  /\ (forall r, In r (message_recipients st) ->
                1 <= mr_message_id r <= seq_messages st)
  /\ NoDup (map fr_id (file_reservations st))
  /\ (forall fr, In fr (file_reservations st) ->
                 1 <= fr_id fr <= seq_file_reservations st)
  /\ (forall fr, In fr (file_reservations st) ->
                 exists a, In a (agents st) /\ a_id a = fr_agent_id fr).
Proof.
  intros H. apply reachable_wf, wf_iff in H. tauto.
Qed.

Lemma keys_and_counters_witness :
  NoDup (map fr_id (file_reservations store_two_holders)).
Proof.
  exact (proj1 (proj2 (proj2 (proj2 (proj2
           (keys_and_counters store_two_holders reachable_store_two_holders)))))).
Defined.

(** ** The inbox stays inside the project *)

Lemma dispatch_messages_step env st nm args v st' :
  dispatch_tool env st nm args = inr (v, st') ->
  (messages st' = messages st /\ seq_messages st' = seq_messages st)
  \/ (exists row, messages st' = messages st ++ [row]
                  /\ m_id row = seq_messages st + 1
                  /\ seq_messages st' = seq_messages st + 1).
Proof.
  unfold dispatch_tool, tools_get, tools. cbn [find fst snd].
  repeat match goal with
    | |- context [(?k =? nm)%string] => destruct (k =? nm)%string
    end; cbn [option_map snd]; try discriminate;
    unfold as_value; intros H; apply bind_inr in H;
    destruct H as ((r & st1) & Hr & H); injection H as _ <-; cbn [snd].
  - apply ensure_project_effect in Hr. cbv zeta in Hr.
    destruct Hr as (_ & _ & [(_ & ->) | (_ & _ & _ & ->)]); left; split; reflexivity.
  - apply register_agent_effect in Hr. destruct Hr as (project & _ & _ & Hr).
    cbv zeta in Hr. destruct Hr as [(_ & ->) | (_ & _ & ->)]; left; split; reflexivity.
  - apply send_message_effect in Hr.
    destruct Hr as (project & sender & _ & _ & Hr). cbv zeta in Hr.
    destruct Hr as (_ & ->). right. eexists. split; [reflexivity |].
    split; reflexivity.
  - unfold tool_fetch_inbox, resolve_project, resolve_agent in Hr.
    invert_result Hr. injection Hr as _ <-. left; split; reflexivity.
  - unfold tool_mark_message_read, resolve_project, resolve_agent in Hr.
    invert_result Hr. injection Hr as _ <-. left; split; reflexivity.
  - unfold tool_summarize_thread, resolve_project in Hr.
    invert_result Hr. injection Hr as _ <-. left; split; reflexivity.
  - destruct (file_reservation_paths_inr _ _ _ _ _ Hr)
      as (project & agent & _ & _ & _ & _ & ->). left; split; reflexivity.
  - unfold tool_release_file_reservations, resolve_project, resolve_agent in Hr.
    invert_result Hr. injection Hr as _ <-. left; split; reflexivity.
  - unfold tool_acknowledge_message, resolve_project, resolve_agent in Hr.
    invert_result Hr. injection Hr as _ <-. left; split; reflexivity.
  - unfold tool_search_messages, resolve_project in Hr.
    invert_result Hr. injection Hr as _ <-. left; split; reflexivity.
Qed.

Lemma reachable_message_ids st : reachable st -> message_ids_fresh st.
Proof.
  induction 1 as [| env st request _ (IH1 & IH2)].
  - split; [constructor | intros ? []].
  - unfold mcp_endpoint. destruct (negb _); [split; assumption |].
    destruct (dispatch_tool env st _ _) as [[m | m | m] | [v st']] eqn:H;
      try (split; assumption).
    cbn [snd]. apply dispatch_messages_step in H.
    destruct H as [(Em & Es) | (row & Em & Eid & Es)];
      unfold message_ids_fresh; rewrite Em, Es.
    + split; assumption.
    + split.
      * rewrite map_app. apply NoDup_snoc; [exact IH1 |]. simpl.
        intros Hin. apply in_map_iff in Hin. destruct Hin as (m & E & Hm).
        apply IH2 in Hm. lia.
      * intros m Hm. apply in_app_or in Hm. destruct Hm as [Hm | [<- | []]].
        -- apply IH2 in Hm. lia.
        -- lia.
Qed.

Lemma same_id_same_message st m m' :
  message_ids_fresh st -> In m (messages st) -> In m' (messages st) ->
  m_id m = m_id m' -> m = m'.
Proof.
  intros (N & _). induction (messages st) as [| x l IH]; simpl; [tauto |].
  apply NoDup_cons_iff in N. destruct N as (Hx & N).
  intros [-> | Hm] [-> | Hm'] E; trivial.
  - exfalso. apply Hx. rewrite E. apply in_map. exact Hm'.
  - exfalso. apply Hx. rewrite <- E. apply in_map. exact Hm.
  - apply IH; assumption.
Qed.

(** X23.  An inbox never shows a message of another project: in a store
    the server can reach, every entry that [fetch_inbox] returns is a
    stored message of the project the call was made for. *)
Theorem fetch_inbox_own_project env st args res st' :
  reachable st ->
  tool_fetch_inbox env st args = inr (res, st') ->
  exists project,
    select_project st (get (project_key args) "") = Some project
    /\ forall e, In e res ->
         exists m, In m (messages st) /\ m_id m = im_id e
                   /\ m_project_id m = p_id project.
Proof.
  intros Hreach H. apply fetch_inbox_inr in H.
  destruct H as (project & agent & Hp & Ha & _ & ->).
  exists project. split; [exact Hp |].
  intros e He. apply in_map_iff in He. destruct He as ((m & nm) & <- & Hrow).
  apply sql_limit_In in Hrow. apply -> order_by_created_desc_In in Hrow.
  assert (Hin : In (m, nm) (inbox_rows st (a_id agent))).
  { destruct (since_ts args); [apply filter_In in Hrow; destruct Hrow as (Hrow & _) |];
      (destruct (get (urgent_only args) false);
       [apply filter_In in Hrow; tauto | exact Hrow]). }
  apply -> inbox_rows_In in Hin. destruct Hin as (Hm & (r & Hr & Hk1 & Hk2) & _).
  exists m. split; [exact Hm |]. split; [reflexivity |].
  destruct (reachable_isolation st Hreach) as (_ & I2 & _).
  destruct (I2 r Hr) as (m' & Hm' & Hid & (a & Hain & Haid & Hapid)).
  assert (m' = m).
  { apply (same_id_same_message st); trivial.
    - apply reachable_message_ids, Hreach.
    - congruence. }
  subst m'.
  destruct (select_agent_some _ _ _ _ Ha) as (Hagent & _ & Hpid).
  assert (a = agent).
  { destruct (wfb_parts st (reachable_wf st Hreach)) as (Nid & _).
    apply (nodupb_map_inj a_id (agents st)); trivial. congruence. }
  subst a. congruence.
Qed.

Lemma reachable_store_one_message : reachable store_one_message.
Proof.
  change store_one_message
    with (snd (mcp_endpoint (env_at 300) store_two_agents
                 (tools_call "send_message" (send_args "/repo" "Bob" ["Alice"])))).
  apply reachable_request, reachable_store_two_agents.
Defined.

Lemma fetch_inbox_own_project_witness :
  exists res,
    tool_fetch_inbox (env_at 900) store_one_message (mark_args "/repo" "Alice" 1)
    = inr (res, store_one_message)
    /\ forall e, In e res -> exists m, In m (messages store_one_message)
                                      /\ m_id m = im_id e /\ m_project_id m = 1.
Proof.
  destruct (tool_fetch_inbox (env_at 900) store_one_message
                             (mark_args "/repo" "Alice" 1))
    as [e | [res st']] eqn:H.
  - vm_compute in H. discriminate H.
  - destruct (fetch_inbox_own_project _ _ _ _ _ reachable_store_one_message H)
      as (project & Hp & Hall).
    vm_compute in Hp. injection Hp as <-.
    exists res. split; [| exact Hall].
    vm_compute in H. injection H as _ <-. reflexivity.
Defined.
